(** * Node ordering for single-flow drainage networks (Braun & Willett 2013)

    A shallow embedding of the numba implementation of the notebook
    [flow_accum_benchmarks.ipynb]: the adjacency builder
    [_calculate_temp_arrays], the recursive stack builder [_build_stack],
    the non-recursive stack builder [_build_stack_nr] and the driver
    [order_nodes_numba], followed by the properties of the stack order. *)

From stdpp Require Import base numbers list sorting strings.

Local Open Scope Z_scope.

(** ** Python values and effects *)

(** Exceptions the code can raise.  [RecursionError] is the interpreter's
    "maximum recursion depth exceeded"; [NameError] is the unbound
    [bstack_func] of the driver when [mode] is neither of the two strings. *)
Inductive exn := IndexError | RecursionError | NameError.

(** The result of running a piece of code: a value, an exception,
    [Diverge] when the [while] loop is still running after the given number
    of iterations, or [Undefined] when a function compiled by [numba.njit]
    has accessed an array outside its bounds.  Compiled code checks no
    bounds and raises nothing there: the process may crash or go on with
    whatever the memory holds, so the source fixes no behaviour from that
    access on. *)
Inductive outcome (A : Type) : Type :=
  | Ret (a : A)
  | Raise (e : exn)
  | Diverge
  | Undefined.
Arguments Ret {A} a.
Arguments Raise {A} e.
Arguments Diverge {A}.
Arguments Undefined {A}.

#[global] Instance outcome_ret : MRet outcome := @Ret.
#[global] Instance outcome_bind : MBind outcome := λ A B f m,
  match m with
  | Ret a => f a
  | Raise e => Raise e
  | Diverge => Diverge
  | Undefined => Undefined
  end.

(** Integer arrays (numpy arrays of dtype int) are lists of integers.  All
    values the code stores are bounded by the array length, so the 64-bit
    range is never left and integers are unbounded here. *)

(** Index normalisation of numpy and numba: an index in [-len, 0) counts
    from the end. *)
Definition index (len : nat) (i : Z) : option nat :=
  if bool_decide (0 ≤ i < Z.of_nat len) then Some (Z.to_nat i)
  else if bool_decide (- Z.of_nat len ≤ i < 0)
  then Some (Z.to_nat (Z.of_nat len + i))
  else None.

(** [a[i]] in interpreted code, on a numpy array: an index outside
    [-len, len) raises [IndexError]. *)
Definition getitem (a : list Z) (i : Z) : outcome Z :=
  match index (length a) i with
  | Some k => match a !! k with Some v => Ret v | None => Raise IndexError end
  | None => Raise IndexError
  end.

(** [a[i] = v] in interpreted code. *)
Definition setitem (a : list Z) (i : Z) (v : Z) : outcome (list Z) :=
  match index (length a) i with
  | Some k => Ret (<[k := v]> a)
  | None => Raise IndexError
  end.

(** [a[i]] and [a[i] = v] inside a function compiled by [numba.njit]:
    negative indices count from the end as above, but an index outside
    [-len, len) is not checked. *)
Definition getitem_njit (a : list Z) (i : Z) : outcome Z :=
  match index (length a) i with
  | Some k => match a !! k with Some v => Ret v | None => Undefined end
  | None => Undefined
  end.

Definition setitem_njit (a : list Z) (i : Z) (v : Z) : outcome (list Z) :=
  match index (length a) i with
  | Some k => Ret (<[k := v]> a)
  | None => Undefined
  end.

(** [range(lo, hi)]. *)
Definition range (lo hi : Z) : list Z := seqZ lo (hi - lo).

(** [range(hi - 1, -1, -1)]. *)
Definition range_down (hi : Z) : list Z := reverse (seqZ 0 hi).

(** [numpy.zeros(n, dtype=int)]. *)
Definition zeros (n : nat) : list Z := replicate n 0.

(** A [for] loop without [break], threading the variables it assigns. *)
Fixpoint for_ {St : Type} (l : list Z) (body : Z → St → outcome St) (st : St)
  : outcome St :=
  match l with
  | [] => Ret st
  | i :: l' => st' ← body i st; for_ l' body st'
  end.

(** ** The recursive stack builder *)

(** [_build_stack(n, D, delta, s, inc)].  [limit] is the number of nested
    calls the interpreter still allows ([sys.setrecursionlimit]).  The
    function mutates [s] and returns [inc]; the embedding returns both. *)
Fixpoint _build_stack (limit : nat) (n : Z) (D delta s : list Z) (inc : Z)
  : outcome (list Z * Z) :=
  match limit with
  | O => Raise RecursionError
  | S limit' =>
    s ← setitem s inc n;
    lo ← getitem delta n;
    hi ← getitem delta (n + 1);
    for_ (range lo hi) (λ i '(s, inc),
      m ← getitem D i;
      if bool_decide (m ≠ n)
      then _build_stack limit' m D delta s (inc + 1)
      else Ret (s, inc)) (s, inc)
  end.

(** ** The non-recursive stack builder *)

(** The inner [for ... break] loop of [_build_stack_nr]: scan the donors of
    the current node for the first one not stamped with [b].  The result is
    [Some m] when the loop left through [break] ([mv_upstream = True]). *)
Fixpoint scan_donors (b : Z) (D : list Z) (idx : list Z)
    (s stack_id : list Z) (inc : Z)
  : outcome (option Z * list Z * list Z * Z) :=
  match idx with
  | [] => Ret (None, s, stack_id, inc)
  | i :: idx' =>
    m ← getitem_njit D i;
    sm ← getitem_njit stack_id m;
    if bool_decide (sm ≠ b) then
      let inc := inc + 1 in
      s ← setitem_njit s inc m;
      stack_id ← setitem_njit stack_id m b;
      Ret (Some m, s, stack_id, inc)
    else scan_donors b D idx' s stack_id inc
  end.

(** The variables of the main loop. *)
Record nr_state := NrState {
  nr_n : Z;
  nr_n_prev : Z;
  nr_s : list Z;
  nr_stack_id : list Z;
  nr_inc : Z
}.

(** The body of [while n != n_prev]. *)
Definition nr_body (b : Z) (r D delta : list Z) (st : nr_state)
  : outcome nr_state :=
  let n := nr_n st in
  lo ← getitem_njit delta n;
  hi ← getitem_njit delta (n + 1);
  '(mv, s, stack_id, inc) ←
     scan_donors b D (range lo hi) (nr_s st) (nr_stack_id st) (nr_inc st);
  match mv with
  | Some m => Ret (NrState m n s stack_id inc)
  | None => n' ← getitem_njit r n; Ret (NrState n' n s stack_id inc)
  end.

(** The main loop, run for at most [fuel] tests of its condition. *)
Fixpoint nr_loop (fuel : nat) (b : Z) (r D delta : list Z) (st : nr_state)
  : outcome nr_state :=
  match fuel with
  | O => Diverge
  | S fuel' =>
    if bool_decide (nr_n st ≠ nr_n_prev st)
    then st' ← nr_body b r D delta st; nr_loop fuel' b r D delta st'
    else Ret st
  end.

(** [_build_stack_nr(b, r, D, delta, s, stack_id, inc)].  It mutates [s] and
    [stack_id] and returns [inc]; the embedding returns all three. *)
Definition _build_stack_nr (fuel : nat) (b : Z) (r D delta s stack_id : list Z)
    (inc : Z) : outcome (list Z * list Z * Z) :=
  let n_prev := -1 in
  let n := b in
  s ← setitem_njit s inc n;
  stack_id ← setitem_njit stack_id n b;
  st ← nr_loop fuel b r D delta (NrState n n_prev s stack_id inc);
  Ret (nr_s st, nr_stack_id st, nr_inc st).

(** ** The adjacency builder *)

(** First loop of [_calculate_temp_arrays]: [nd[r[i]] += 1]. *)
Definition histogram_pass (r nd : list Z) : outcome (list Z) :=
  for_ (range 0 (Z.of_nat (length r))) (λ i nd,
    ri ← getitem_njit r i;
    c ← getitem_njit nd ri;
    setitem_njit nd ri (c + 1)) nd.

(** Second loop: [delta[np] = np], then [delta[i] = delta[i + 1] - nd[i]]
    for [i] from [np - 1] down to [0]. *)
Definition delta_pass (np : Z) (nd delta : list Z) : outcome (list Z) :=
  delta ← setitem_njit delta np np;
  for_ (range_down np) (λ i delta,
    d ← getitem_njit delta (i + 1);
    c ← getitem_njit nd i;
    setitem_njit delta i (d - c)) delta.

(** Third loop: [D[delta[ri] + w[ri]] = i; w[ri] += 1]. *)
Definition scatter_pass (r delta D w : list Z) : outcome (list Z * list Z) :=
  for_ (range 0 (Z.of_nat (length r))) (λ i '(D, w),
    ri ← getitem_njit r i;
    d ← getitem_njit delta ri;
    k ← getitem_njit w ri;
    D ← setitem_njit D (d + k) i;
    k ← getitem_njit w ri;
    w ← setitem_njit w ri (k + 1);
    Ret (D, w)) (D, w).

(** [_calculate_temp_arrays(r, nd, delta, D, w)]: the four arrays after the
    call. *)
Definition _calculate_temp_arrays (r nd delta D w : list Z)
  : outcome (list Z * list Z * list Z * list Z) :=
  let np := Z.of_nat (length r) in
  nd ← histogram_pass r nd;
  delta ← delta_pass np nd delta;
  '(D, w) ← scatter_pass r delta D w;
  Ret (nd, delta, D, w).

(** ** The driver *)

(** What [order_nodes_numba] returns: [s], or the pair [(s, stack_id)]. *)
Inductive retval :=
  | Stack (s : list Z)
  | StackAndIds (s stack_id : list Z).

(** The variables of the loop over [baselevels]: the arrays the closures
    mutate and the cursor [inc]. *)
Definition driver_state : Type := list Z * list Z * Z.

(** [bstack_func(b, inc)] together with the [+ 1] of the loop body.  The
    closure of the non-recursive mode passes the constant [0] as the write
    position. *)
Definition bstack_step (limit fuel : nat) (mode : string)
    (receivers D delta : list Z) (b : Z) (st : driver_state)
  : outcome driver_state :=
  let '(s, stack_id, inc) := st in
  if bool_decide (mode = "recursive") then
    '(s, inc) ← _build_stack limit b D delta s inc;
    Ret (s, stack_id, inc + 1)
  else if bool_decide (mode = "non-recursive") then
    '(s, stack_id, inc) ← _build_stack_nr fuel b receivers D delta s stack_id 0;
    Ret (s, stack_id, inc + 1)
  else Raise NameError.

(** [order_nodes_numba(receivers, baselevels, mode, out_stack_ids)]. *)
Definition order_nodes_numba (limit fuel : nat) (receivers baselevels : list Z)
    (mode : string) (out_stack_ids : bool) : outcome retval :=
  let np := length receivers in
  let nd := zeros np in
  let delta := zeros (np + 1)%nat in
  let D := zeros np in
  let w := zeros np in
  '(_, delta, D, _) ← _calculate_temp_arrays receivers nd delta D w;
  let s := zeros np in
  let stack_id := replicate np (-1) in
  '(s, stack_id, _) ←
     for_ baselevels (bstack_step limit fuel mode receivers D delta)
       (s, stack_id, 0);
  if out_stack_ids && bool_decide (mode ≠ "recursive")
  then Ret (StackAndIds s stack_id)
  else Ret (Stack s).

(** The worked example of the notebook's test cell. *)
Definition example_receivers : list Z := [1; 4; 1; 6; 4; 4; 5; 4; 6; 7].
Definition expected_order : list Z := [4; 1; 0; 2; 5; 6; 3; 8; 7; 9].

(** ** The receiver relation *)

(** [R[i]] for a node id [i]. *)
Definition rcv (R : list Z) (i : Z) : Z := R !!! Z.to_nat i.

(** Node ids are the integers of [[0, N)]. *)
Definition node (R : list Z) (i : Z) : Prop := 0 ≤ i < Z.of_nat (length R).

(** Invariant 1: every receiver is a node id. *)
Definition in_range (R : list Z) : Prop := Forall (node R) R.

(** A base-level node is its own receiver. *)
Definition base (R : list Z) (b : Z) : Prop := rcv R b = b.

#[global] Instance node_dec R i : Decision (node R i).
Proof. unfold node. apply _. Defined.
#[global] Instance base_dec R b : Decision (base R b).
Proof. unfold base. apply _. Defined.

(** The node reached from [i] after [k] receiver links. *)
Fixpoint downstream (R : list Z) (k : nat) (i : Z) : Z :=
  match k with
  | O => i
  | S k' => downstream R k' (rcv R i)
  end.

(** Invariant 2: apart from the self-loops of the base-level nodes the
    receiver relation has no cycle, that is, every node drains to a
    base-level node. *)
Definition forest (R : list Z) : Prop :=
  in_range R ∧ ∀ i, node R i → ∃ k, base R (downstream R k i).

(** The nodes whose receiver is [n], in ascending order; a base-level node
    is among its own donors. *)
Definition donors (R : list Z) (n : Z) : list Z :=
  filter (λ i, rcv R i = n) (seqZ 0 (Z.of_nat (length R))).

(** The donors of [n] other than [n] itself. *)
Definition children (R : list Z) (n : Z) : list Z :=
  filter (λ m, m ≠ n) (donors R n).

(** [a[lo:hi]]. *)
Definition slice (a : list Z) (lo hi : Z) : list Z :=
  take (Z.to_nat (hi - lo)) (drop (Z.to_nat lo) a).

(** The number of occurrences of [v] in [l], and the number of elements
    below [v]. *)
Definition occ (v : Z) (l : list Z) : Z :=
  Z.of_nat (length (filter (λ x, x = v) l)).
Definition below (v : Z) (l : list Z) : Z :=
  Z.of_nat (length (filter (λ x, x < v) l)).

(** What the stack builders need from [delta] and [D]: the donor segment of
    each node is the ascending list of its donors. *)
Definition adjacency (R delta D : list Z) : Prop :=
  length delta = S (length R) ∧ length D = length R ∧
  ∀ n, node R n →
    ∃ lo hi, delta !! Z.to_nat n = Some lo ∧
             delta !! Z.to_nat (n + 1) = Some hi ∧
             0 ≤ lo ∧ lo ≤ hi ∧ hi ≤ Z.of_nat (length R) ∧
             slice D lo hi = donors R n.

(** ** Trees of the receiver relation *)

(** The number of receiver links from [i] to its base level, searched for
    with at most [fuel] links. *)
Fixpoint steps_to_base (R : list Z) (fuel : nat) (i : Z) : nat :=
  match fuel with
  | O => O
  | S fuel' =>
    if bool_decide (rcv R i = i) then O
    else S (steps_to_base R fuel' (rcv R i))
  end.

Definition depth (R : list Z) (i : Z) : nat := steps_to_base R (length R) i.

(** The base-level node [i] drains to. *)
Definition root_of (R : list Z) (i : Z) : Z := downstream R (length R) i.

(** The preorder depth-first sequence of the subtree of [n], donors in
    ascending order, cut off below [fuel] levels. *)
Fixpoint preorder_aux (R : list Z) (fuel : nat) (n : Z) : list Z :=
  match fuel with
  | O => []
  | S fuel' => n :: (children R n ≫= preorder_aux R fuel')
  end.

Definition preorder (R : list Z) (n : Z) : list Z :=
  preorder_aux R (length R) n.

(** The number of levels of the subtree of [n]. *)
Fixpoint height_aux (R : list Z) (fuel : nat) (n : Z) : nat :=
  match fuel with
  | O => O
  | S fuel' => S (max_list (height_aux R fuel' <$> children R n))
  end.

Definition height (R : list Z) (n : Z) : nat := height_aux R (length R) n.

(** [x] is [n] or upstream of [n]. *)
Definition in_subtree (R : list Z) (n x : Z) : Prop :=
  node R x ∧ ∃ k, downstream R k x = n.

(** An executable test of invariants 1 and 2: all receivers are node ids and
    [N] receiver links from any node end on a base level. *)
Definition forestb (R : list Z) : bool :=
  forallb (λ v, bool_decide (node R v)) R
  && forallb (λ i, bool_decide (base R (root_of R i)))
       (seqZ 0 (Z.of_nat (length R))).

(** The outcome of the adjacency builder on the arrays the driver
    allocates. *)
Definition temp_arrays (R : list Z)
  : outcome (list Z * list Z * list Z * list Z) :=
  _calculate_temp_arrays R (zeros (length R)) (zeros (length R + 1))
    (zeros (length R)) (zeros (length R)).

(** ** The walk of the non-recursive builder *)

(** Node [x] carries the stamp of root [b]. *)
Definition stamped (b : Z) (stack_id : list Z) (x : Z) : Prop :=
  stack_id !! Z.to_nat x = Some b.

#[global] Instance stamped_dec b stack_id x : Decision (stamped b stack_id x).
Proof. unfold stamped. apply _. Defined.

(** The number of nodes of the subtree of [b] without its stamp. *)
Definition unstamped (R : list Z) (b : Z) (stack_id : list Z) : nat :=
  length (filter (λ x, root_of R x = b ∧ ¬ stamped b stack_id x)
            (seqZ 0 (Z.of_nat (length R)))).

(** One turn of the main loop, as a relation on its variables: move upstream
    to the first donor without the stamp, or downstream when there is
    none. *)
Inductive nr_step (R : list Z) (b : Z) : nr_state → nr_state → Prop :=
  | nr_step_up n n_prev s stack_id inc m v :
      m ∈ children R n →
      stack_id !! Z.to_nat m = Some v → v ≠ b →
      (∀ c, c ∈ donors R n → c < m → stamped b stack_id c) →
      nr_step R b (NrState n n_prev s stack_id inc)
        (NrState m n (<[Z.to_nat (inc + 1) := m]> s)
           (<[Z.to_nat m := b]> stack_id) (inc + 1))
  | nr_step_down n n_prev s stack_id inc :
      (∀ c, c ∈ donors R n → stamped b stack_id c) →
      nr_step R b (NrState n n_prev s stack_id inc)
        (NrState (rcv R n) n s stack_id inc).

(** Turns of the loop in a row, each entered with [n != n_prev]. *)
Inductive nr_steps (R : list Z) (b : Z) : nr_state → nr_state → Prop :=
  | nr_steps_refl st : nr_steps R b st st
  | nr_steps_step st st1 st2 :
      nr_n st ≠ nr_n_prev st →
      nr_step R b st st1 → nr_steps R b st1 st2 → nr_steps R b st st2.

(** What the main loop maintains whatever the stamps it starts from: the
    walk stays in the subtree of [b], the current node and the nodes
    downstream of it carry the stamp, and [s] has room for the nodes of the
    subtree still without it. *)
Record nr_inv (R : list Z) (b : Z) (st : nr_state) : Prop := NrInv {
  nr_inv_node : node R (nr_n st);
  nr_inv_root : root_of R (nr_n st) = b;
  nr_inv_path : ∀ k, stamped b (nr_stack_id st) (downstream R k (nr_n st));
  nr_inv_len_s : length (nr_s st) = length R;
  nr_inv_len_id : length (nr_stack_id st) = length R;
  nr_inv_inc : 0 ≤ nr_inc st;
  nr_inv_room :
    nr_inc st + Z.of_nat (unstamped R b (nr_stack_id st))
      < Z.of_nat (length R)
}.

(** The bound on the remaining turns of the loop. *)
Definition nr_measure (R : list Z) (b : Z) (st : nr_state) : nat :=
  unstamped R b (nr_stack_id st) * S (length R) + depth R (nr_n st).

(** What the loop keeps when every node that carried the stamp of [b] at the
    start, in [sid0], had all its donors stamped too: a stamped node is on
    the way down to [b] or has all its donors stamped; stamps outside the
    subtree are untouched; and the loop stops only on a base level whose
    donors are all stamped. *)
Record nr_closed (R : list Z) (b : Z) (sid0 : list Z) (st : nr_state)
  : Prop := NrClosed {
  nr_closed_donors : ∀ x, node R x → stamped b (nr_stack_id st) x →
    (∃ k, downstream R k (nr_n st) = x) ∨
    (∀ y, y ∈ donors R x → stamped b (nr_stack_id st) y);
  nr_closed_frame : ∀ x, node R x → root_of R x ≠ b →
    nr_stack_id st !! Z.to_nat x = sid0 !! Z.to_nat x;
  nr_closed_exit : nr_n st = nr_n_prev st →
    base R (nr_n st) ∧ ∀ c, c ∈ donors R (nr_n st) →
                            stamped b (nr_stack_id st) c
}.

(** The walk emits the sequence [T] above node [n]: entered at [n] with the
    last write at the end of [pre] and no node of [T] stamped, the loop
    comes back to the receiver of [n] with [T] written after [pre], the
    nodes of [T] stamped and no other stamp changed. *)
Definition emits (R : list Z) (b n : Z) (T : list Z) : Prop :=
  ∀ n_prev pre rest sid,
    nr_inv R b (NrState n n_prev (pre ++ rest) sid (Z.of_nat (length pre) - 1)) →
    n ≠ n_prev →
    (∀ x, x ∈ T → ¬ stamped b sid x) →
    (length T ≤ length rest)%nat →
    ∃ sid',
      nr_steps R b
        (NrState n n_prev (pre ++ rest) sid (Z.of_nat (length pre) - 1))
        (NrState (rcv R n) n (pre ++ T ++ drop (length T) rest) sid'
           (Z.of_nat (length pre) - 1 + Z.of_nat (length T))) ∧
      (∀ x, x ∈ T → stamped b sid' x) ∧
      (∀ x, stamped b sid x → stamped b sid' x) ∧
      (∀ x, node R x → x ∉ T → sid' !! Z.to_nat x = sid !! Z.to_nat x).

(** ** Order in a list *)

(** [a] stands before [b] in [l]. *)
Definition before (l : list Z) (a b : Z) : Prop :=
  ∃ l1 l2 l3, l = l1 ++ a :: l2 ++ b :: l3.


(** ** Receivers with a cycle *)

(** The number of nodes without the stamp of [b]. *)
Definition unmarked (R : list Z) (b : Z) (stack_id : list Z) : nat :=
  length (filter (λ x, ¬ stamped b stack_id x)
            (seqZ 0 (Z.of_nat (length R)))).

(** What the main loop of the non-recursive builder maintains when no
    receiver chain from the current node ends on a base level: the next test
    of the loop condition succeeds, and [s] has room for every node still
    without the stamp. *)
Record nr_astray (R : list Z) (b : Z) (st : nr_state) : Prop := NrAstray {
  nr_astray_node : node R (nr_n st);
  nr_astray_chain : ∀ k, ¬ base R (downstream R k (nr_n st));
  nr_astray_cond : nr_n st ≠ nr_n_prev st;
  nr_astray_len_s : length (nr_s st) = length R;
  nr_astray_len_id : length (nr_stack_id st) = length R;
  nr_astray_inc : 0 ≤ nr_inc st;
  nr_astray_room :
    nr_inc st + Z.of_nat (unmarked R b (nr_stack_id st))
      < Z.of_nat (length R)
}.
(** ** Array accesses inside the bounds *)

Lemma index_nonneg len i :
  0 ≤ i < Z.of_nat len → index len i = Some (Z.to_nat i).
Proof. intros H. unfold index. rewrite bool_decide_true; done. Qed.

Lemma getitem_Ret a i v :
  0 ≤ i → a !! Z.to_nat i = Some v → getitem a i = Ret v.
Proof.
  intros Hi Hv. unfold getitem.
  pose proof (lookup_lt_Some _ _ _ Hv) as Hlt.
  rewrite index_nonneg by lia. by rewrite Hv.
Qed.

Lemma setitem_Ret a i v :
  0 ≤ i < Z.of_nat (length a) → setitem a i v = Ret (<[Z.to_nat i := v]> a).
Proof. intros Hi. unfold setitem. by rewrite index_nonneg. Qed.

Lemma bind_Ret {A B} (f : A → outcome B) (a : A) : (Ret a ≫= f) = f a.
Proof. reflexivity. Qed.

(** In bounds the compiled accesses behave as the interpreted ones. *)
Lemma getitem_njit_checked a i v :
  getitem a i = Ret v → getitem_njit a i = Ret v.
Proof.
  unfold getitem, getitem_njit. destruct (index (length a) i) as [k|]; [|done].
  by destruct (a !! k).
Qed.

Lemma getitem_njit_Ret a i v :
  0 ≤ i → a !! Z.to_nat i = Some v → getitem_njit a i = Ret v.
Proof. intros Hi Hv. by apply getitem_njit_checked, getitem_Ret. Qed.

Lemma setitem_njit_Ret a i v :
  0 ≤ i < Z.of_nat (length a) →
  setitem_njit a i v = Ret (<[Z.to_nat i := v]> a).
Proof. intros Hi. unfold setitem_njit. by rewrite index_nonneg. Qed.

(** ** Loop rules *)

(** The invariant rule of a [for] loop: [I k] holds before iteration [k]. *)
Lemma for_inv {St} (I : nat → St → Prop) (body : Z → St → outcome St) l st :
  I 0%nat st →
  (∀ k i st, l !! k = Some i → I k st →
     ∃ st', body i st = Ret st' ∧ I (S k) st') →
  ∃ st', for_ l body st = Ret st' ∧ I (length l) st'.
Proof.
  revert I st. induction l as [|i l IH]; intros I st H0 Hstep; simpl.
  - eauto.
  - destruct (Hstep 0%nat i st eq_refl H0) as (st1 & -> & H1).
    rewrite bind_Ret.
    apply (IH (λ k, I (S k))); [done|].
    intros k j st2 Hj. apply (Hstep (S k)). done.
Qed.

Lemma for_cons {St} (body : Z → St → outcome St) i l st :
  for_ (i :: l) body st = body i st ≫= for_ l body.
Proof. reflexivity. Qed.

Lemma for_ext {St} (f g : Z → St → outcome St) l st :
  (∀ i st, f i st = g i st) → for_ l f st = for_ l g st.
Proof.
  intros Hfg. revert st. induction l as [|i l IH]; intros st; simpl; [done|].
  rewrite Hfg. destruct (g i st); simpl; auto.
Qed.

(** ** Counting *)

Lemma occ_app v l1 l2 : occ v (l1 ++ l2) = occ v l1 + occ v l2.
Proof. unfold occ. rewrite filter_app, length_app. lia. Qed.

Lemma below_app v l1 l2 : below v (l1 ++ l2) = below v l1 + below v l2.
Proof. unfold below. rewrite filter_app, length_app. lia. Qed.

Lemma occ_nonneg v l : 0 ≤ occ v l.
Proof. unfold occ. lia. Qed.

Lemma below_nonneg v l : 0 ≤ below v l.
Proof. unfold below. lia. Qed.

Lemma occ_singleton v x : occ v [x] = if decide (x = v) then 1 else 0.
Proof.
  unfold occ. rewrite filter_cons, filter_nil.
  destruct (decide (x = v)); reflexivity.
Qed.

Lemma occ_take_S v (R : list Z) k x :
  R !! k = Some x →
  occ v (take (S k) R) = occ v (take k R) + (if decide (x = v) then 1 else 0).
Proof.
  intros Hx. rewrite (take_S_r _ _ _ Hx), occ_app, occ_singleton. done.
Qed.

Lemma occ_take_le v (R : list Z) k : occ v (take k R) ≤ occ v R.
Proof.
  rewrite <- (take_drop k R) at 2. rewrite occ_app.
  pose proof (occ_nonneg v (drop k R)). lia.
Qed.

Lemma occ_take_lt (R : list Z) k x :
  R !! k = Some x → occ x (take k R) < occ x R.
Proof.
  intros Hx. pose proof (occ_take_le x R (S k)) as Hle.
  rewrite (occ_take_S _ _ _ _ Hx) in Hle.
  rewrite decide_True in Hle by done. lia.
Qed.

Lemma below_succ v l : below (v + 1) l = below v l + occ v l.
Proof.
  induction l as [|x l IH]; [done|].
  change (x :: l) with ([x] ++ l). rewrite !below_app, occ_app, IH.
  enough (below (v + 1) [x] = below v [x] + occ v [x]) by lia.
  unfold below, occ. rewrite !filter_cons, !filter_nil.
  repeat case_decide; simpl; lia.
Qed.

Lemma below_mono v v' l : v ≤ v' → below v l ≤ below v' l.
Proof.
  intros Hv. induction l as [|x l IH]; [done|].
  change (x :: l) with ([x] ++ l). rewrite !below_app.
  enough (below v [x] ≤ below v' [x]) by lia.
  unfold below. rewrite !filter_cons, !filter_nil.
  repeat case_decide; simpl; lia.
Qed.

Lemma below_all v l : Forall (λ x, x < v) l → below v l = Z.of_nat (length l).
Proof.
  intros H. unfold below. f_equal. f_equal.
  induction H as [|x l Hx _ IH]; [done|].
  rewrite filter_cons, decide_True by done. by f_equal.
Qed.

Lemma below_none v l : Forall (λ x, v ≤ x) l → below v l = 0.
Proof.
  intros H. unfold below.
  induction H as [|x l Hx _ IH]; [done|].
  rewrite filter_cons, decide_False by lia. done.
Qed.

Lemma below_length (R : list Z) :
  in_range R → below (Z.of_nat (length R)) R = Z.of_nat (length R).
Proof.
  intros H. apply below_all. eapply Forall_impl; [exact H|].
  intros x [_ Hx]. done.
Qed.

Lemma below_zero (R : list Z) : in_range R → below 0 R = 0.
Proof.
  intros H. apply below_none. eapply Forall_impl; [exact H|].
  intros x [Hx _]. done.
Qed.

Lemma in_range_lookup (R : list Z) k x :
  in_range R → R !! k = Some x → node R x.
Proof. intros H Hx. exact (proj1 (Forall_lookup _ _) H _ _ Hx). Qed.

(** ** The histogram pass *)

Lemma lookup_zeros n k : (k < n)%nat → zeros n !! k = Some 0.
Proof. intros H. unfold zeros. by apply lookup_replicate_2. Qed.

Lemma histogram_pass_spec (R : list Z) :
  in_range R →
  ∃ nd, histogram_pass R (zeros (length R)) = Ret nd ∧
        length nd = length R ∧
        ∀ v, node R v → nd !! Z.to_nat v = Some (occ v R).
Proof.
  intros HR. unfold histogram_pass, range.
  destruct (for_inv
    (λ k nd, length nd = length R ∧
             ∀ v, node R v → nd !! Z.to_nat v = Some (occ v (take k R)))
    (λ i nd, ri ← getitem_njit R i; c ← getitem_njit nd ri; setitem_njit nd ri (c + 1))
    (seqZ 0 (Z.of_nat (length R) - 0)) (zeros (length R)))
    as (nd & Hnd & Hlen & Hocc).
  - split; [apply length_replicate|].
    intros v [Hv0 Hv1]. rewrite take_0. apply lookup_zeros. lia.
  - intros k i nd Hi [Hlen Hocc].
    apply lookup_seqZ in Hi as [-> Hk].
    assert (is_Some (R !! k)) as [x Hx] by (apply lookup_lt_is_Some; lia).
    pose proof (in_range_lookup _ _ _ HR Hx) as Hnx.
    rewrite (getitem_njit_Ret R (0 + Z.of_nat k) x); [|lia|by rewrite Z.add_0_l, Nat2Z.id].
    rewrite bind_Ret.
    rewrite (getitem_njit_Ret nd x _ (proj1 Hnx) (Hocc x Hnx)), bind_Ret.
    rewrite setitem_njit_Ret by (unfold node in Hnx; lia).
    eexists; split; [done|]. split; [by rewrite length_insert|].
    intros v Hv. rewrite (occ_take_S _ _ _ _ Hx).
    destruct (decide (x = v)) as [->|Hne].
    + rewrite list_lookup_insert_eq; [done|]. unfold node in Hv; lia.
    + rewrite list_lookup_insert_ne.
      * rewrite Hocc by done. f_equal. lia.
      * unfold node in *. lia.
  - exists nd. split; [done|]. split; [done|].
    intros v Hv. rewrite (Hocc v Hv). rewrite length_seqZ.
    rewrite firstn_all2; [done|lia].
Qed.

(** ** The offsets pass *)

Lemma delta_pass_spec (R nd : list Z) :
  in_range R →
  length nd = length R →
  (∀ v, node R v → nd !! Z.to_nat v = Some (occ v R)) →
  ∃ delta,
    delta_pass (Z.of_nat (length R)) nd (zeros (length R + 1)) = Ret delta ∧
    length delta = S (length R) ∧
    ∀ j, 0 ≤ j ≤ Z.of_nat (length R) →
         delta !! Z.to_nat j = Some (below j R).
Proof.
  intros HR Hlen Hnd. unfold delta_pass, range_down.
  set (N := length R) in *.
  rewrite setitem_njit_Ret by (unfold zeros; rewrite length_replicate; lia).
  rewrite bind_Ret, Nat2Z.id.
  destruct (for_inv
    (λ k delta, length delta = S N ∧
       ∀ j, Z.of_nat N - Z.of_nat k ≤ j ≤ Z.of_nat N →
            delta !! Z.to_nat j = Some (below j R))
    (λ i delta, d ← getitem_njit delta (i + 1); c ← getitem_njit nd i;
                setitem_njit delta i (d - c))
    (reverse (seqZ 0 (Z.of_nat N))) (<[N := Z.of_nat N]> (zeros (N + 1))))
    as (delta & Hdelta & Hlen' & Hbelow).
  - split.
    + rewrite length_insert. unfold zeros. rewrite length_replicate. lia.
    + intros j Hj. assert (j = Z.of_nat N) as -> by lia.
      rewrite Nat2Z.id, list_lookup_insert_eq.
      * f_equal. symmetry. by apply below_length.
      * unfold zeros. rewrite length_replicate. lia.
  - intros k i delta Hi [Hlen' Hbelow].
    apply reverse_lookup_Some in Hi as [Hi Hk].
    rewrite length_seqZ, Nat2Z.id in Hi, Hk.
    apply lookup_seqZ in Hi as [-> _].
    set (i := 0 + Z.of_nat (N - S k)).
    assert (0 ≤ i < Z.of_nat N) as Hi by (unfold i; lia).
    rewrite (getitem_njit_Ret delta (i + 1) (below (i + 1) R));
      [|lia|apply Hbelow; unfold i; lia].
    rewrite bind_Ret.
    rewrite (getitem_njit_Ret nd i (occ i R)); [|lia|by apply Hnd].
    rewrite bind_Ret, setitem_njit_Ret by lia.
    eexists; split; [done|]. split; [by rewrite length_insert|].
    intros j Hj. destruct (decide (j = i)) as [->|Hne].
    + rewrite list_lookup_insert_eq by lia. f_equal.
      rewrite below_succ. lia.
    + rewrite list_lookup_insert_ne by lia. apply Hbelow. unfold i in Hne. lia.
  - exists delta. split; [done|]. split; [done|].
    intros j Hj. apply Hbelow. rewrite length_reverse, length_seqZ. lia.
Qed.

(** ** The scatter pass *)

Lemma rcv_lookup (R : list Z) k x : R !! k = Some x → rcv R (Z.of_nat k) = x.
Proof.
  intros Hx. unfold rcv. rewrite Nat2Z.id. by apply list_lookup_total_correct.
Qed.

Lemma donors_upto_S (R : list Z) v k x :
  R !! k = Some x →
  filter (λ i, rcv R i = v) (seqZ 0 (Z.of_nat (S k))) =
  filter (λ i, rcv R i = v) (seqZ 0 (Z.of_nat k)) ++
    (if decide (x = v) then [Z.of_nat k] else []).
Proof.
  intros Hx. rewrite seqZ_S, filter_app. f_equal.
  rewrite Z.add_0_l, filter_cons, filter_nil, (rcv_lookup _ _ _ Hx).
  destruct (decide (x = v)); done.
Qed.

Lemma length_donors_upto (R : list Z) v k :
  (k ≤ length R)%nat →
  Z.of_nat (length (filter (λ i, rcv R i = v) (seqZ 0 (Z.of_nat k)))) =
  occ v (take k R).
Proof.
  induction k as [|k IH]; intros Hk; [done|].
  assert (is_Some (R !! k)) as [x Hx] by (apply lookup_lt_is_Some; lia).
  rewrite (donors_upto_S _ _ _ _ Hx), (occ_take_S _ _ _ _ Hx), length_app.
  rewrite Nat2Z.inj_add, IH by lia.
  destruct (decide (x = v)); simpl; lia.
Qed.

Lemma length_donors (R : list Z) v :
  Z.of_nat (length (donors R v)) = occ v R.
Proof.
  unfold donors. rewrite length_donors_upto by done.
  by rewrite firstn_all.
Qed.

Lemma scatter_pass_spec (R delta : list Z) :
  in_range R →
  (∀ j, 0 ≤ j ≤ Z.of_nat (length R) →
        delta !! Z.to_nat j = Some (below j R)) →
  ∃ D w,
    scatter_pass R delta (zeros (length R)) (zeros (length R)) = Ret (D, w) ∧
    length D = length R ∧
    ∀ v, node R v → slice D (below v R) (below (v + 1) R) = donors R v.
Proof.
  intros HR Hdelta. unfold scatter_pass, range.
  set (N := length R) in *.
  destruct (for_inv
    (λ k '(D, w), length D = N ∧ length w = N ∧
       (∀ v, node R v → w !! Z.to_nat v = Some (occ v (take k R))) ∧
       (∀ v (j : nat) x, node R v →
          filter (λ i, rcv R i = v) (seqZ 0 (Z.of_nat k)) !! j = Some x →
          D !! (Z.to_nat (below v R) + j)%nat = Some x))
    (λ i '(D, w), ri ← getitem_njit R i; d ← getitem_njit delta ri; k ← getitem_njit w ri;
       D ← setitem_njit D (d + k) i; k ← getitem_njit w ri; w ← setitem_njit w ri (k + 1);
       Ret (D, w))
    (seqZ 0 (Z.of_nat N - 0)) (zeros N, zeros N))
    as ([D w] & HDw & HlenD & Hlenw & Hw & HD).
  - unfold zeros. rewrite !length_replicate. repeat split; try done.
    intros v [Hv0 Hv1]. rewrite take_0. apply lookup_zeros. lia.
  - intros k i [D w] Hi (HlenD & Hlenw & Hw & HD).
    apply lookup_seqZ in Hi as [-> Hk]. rewrite Z.add_0_l.
    assert (is_Some (R !! k)) as [x Hx] by (apply lookup_lt_is_Some; lia).
    pose proof (in_range_lookup _ _ _ HR Hx) as Hnx.
    assert (0 ≤ x < Z.of_nat N) as Hx' by exact Hnx.
    rewrite (getitem_njit_Ret R (Z.of_nat k) x); [|lia|by rewrite Nat2Z.id].
    rewrite bind_Ret.
    rewrite (getitem_njit_Ret delta x (below x R)); [|lia|apply Hdelta; lia].
    rewrite bind_Ret.
    rewrite (getitem_njit_Ret w x _ (proj1 Hnx) (Hw x Hnx)), bind_Ret.
    pose proof (occ_take_lt _ _ _ Hx) as Hlt.
    pose proof (occ_nonneg x (take k R)) as Hge.
    pose proof (below_nonneg x R) as Hb0.
    pose proof (below_succ x R) as Hbs.
    pose proof (below_mono (x + 1) (Z.of_nat N) R ltac:(lia)) as Hbm.
    pose proof (below_length R HR) as HbN. fold N in HbN.
    rewrite setitem_njit_Ret by lia. rewrite !bind_Ret.
    rewrite setitem_njit_Ret by lia. rewrite bind_Ret.
    eexists; split; [done|]. simpl.
    split; [by rewrite length_insert|]. split; [by rewrite length_insert|].
    split.
    + intros v Hv. rewrite (occ_take_S _ _ _ _ Hx).
      destruct (decide (x = v)) as [->|Hne].
      * rewrite list_lookup_insert_eq; [done|]. lia.
      * rewrite list_lookup_insert_ne.
        -- rewrite Hw by done. f_equal. lia.
        -- unfold node in Hv. lia.
    + intros v j y Hv Hy. rewrite (donors_upto_S _ _ _ _ Hx) in Hy.
      pose proof (length_donors_upto R v k ltac:(lia)) as Hlen.
      destruct (decide (x = v)) as [->|Hne].
      * destruct (decide (j < length (filter (λ i, rcv R i = v)
                    (seqZ 0 (Z.of_nat k))))%nat) as [Hj|Hj].
        -- rewrite lookup_app_l in Hy by done.
           rewrite list_lookup_insert_ne by lia. by apply HD.
        -- rewrite lookup_app_r in Hy by lia.
           apply list_lookup_singleton_Some in Hy as [Hj' <-].
           assert (Z.to_nat (below v R + occ v (take k R)) =
                   (Z.to_nat (below v R) + j)%nat) as -> by lia.
           apply list_lookup_insert_eq. lia.
      * rewrite app_nil_r in Hy.
        pose proof (lookup_lt_Some _ _ _ Hy) as Hj.
        pose proof (occ_take_le v R k) as Hle.
        pose proof (below_succ v R) as Hbs'.
        pose proof (below_nonneg v R) as Hbv.
        rewrite list_lookup_insert_ne; [by apply HD|].
        destruct (decide (v < x)).
        -- pose proof (below_mono (v + 1) x R ltac:(lia)). lia.
        -- pose proof (below_mono (x + 1) v R ltac:(lia)). lia.
  - exists D, w. split; [done|]. split; [done|].
    intros v Hv. rewrite length_seqZ in HD.
    replace (Z.of_nat (Z.to_nat (Z.of_nat N - 0))) with (Z.of_nat N) in HD by lia.
    pose proof (length_donors R v) as Hlen.
    pose proof (below_succ v R) as Hbs.
    apply list_eq. intros j. unfold slice.
    destruct (decide (j < length (donors R v))%nat) as [Hj|Hj].
    + rewrite lookup_take_lt by lia. rewrite lookup_drop.
      destruct (lookup_lt_is_Some_2 _ _ Hj) as [y Hy].
      rewrite Hy. by apply HD.
    + rewrite lookup_take_ge by lia. symmetry. apply lookup_ge_None. lia.
Qed.

(** ** The adjacency builder *)

Lemma calculate_temp_arrays_spec (R : list Z) :
  in_range R →
  ∃ nd delta D w,
    _calculate_temp_arrays R (zeros (length R)) (zeros (length R + 1))
      (zeros (length R)) (zeros (length R)) = Ret (nd, delta, D, w) ∧
    length delta = S (length R) ∧ length D = length R ∧
    (∀ j, 0 ≤ j ≤ Z.of_nat (length R) →
          delta !! Z.to_nat j = Some (below j R)) ∧
    (∀ v, node R v → slice D (below v R) (below (v + 1) R) = donors R v).
Proof.
  intros HR. unfold _calculate_temp_arrays.
  destruct (histogram_pass_spec R HR) as (nd & -> & Hlen & Hnd).
  rewrite bind_Ret.
  destruct (delta_pass_spec R nd HR Hlen Hnd) as (delta & -> & Hlend & Hdelta).
  rewrite bind_Ret.
  destruct (scatter_pass_spec R delta HR Hdelta) as (D & w & -> & HlenD & HD).
  rewrite bind_Ret. by exists nd, delta, D, w.
Qed.

Lemma calculate_temp_arrays_adjacency (R : list Z) :
  in_range R →
  ∃ nd delta D w,
    _calculate_temp_arrays R (zeros (length R)) (zeros (length R + 1))
      (zeros (length R)) (zeros (length R)) = Ret (nd, delta, D, w) ∧
    adjacency R delta D.
Proof.
  intros HR.
  destruct (calculate_temp_arrays_spec R HR)
    as (nd & delta & D & w & Hrun & Hlend & HlenD & Hdelta & HD).
  exists nd, delta, D, w. split; [done|]. split; [done|]. split; [done|].
  intros n Hn. exists (below n R), (below (n + 1) R).
  unfold node in Hn.
  pose proof (below_nonneg n R). pose proof (below_succ n R).
  pose proof (occ_nonneg n R).
  pose proof (below_mono (n + 1) (Z.of_nat (length R)) R ltac:(lia)) as Hm.
  rewrite (below_length R HR) in Hm.
  repeat split; try lia; [apply Hdelta; lia..|by apply HD].
Qed.

Lemma StronglySorted_seqZ m n : StronglySorted Z.lt (seqZ m n).
Proof.
  destruct (decide (n ≤ 0)) as [Hn|Hn]; [rewrite seqZ_nil by done; constructor|].
  replace n with (Z.of_nat (Z.to_nat n)) by lia.
  induction (Z.to_nat n) as [|k IH]; [constructor|].
  rewrite seqZ_S. apply StronglySorted_app_2; [|done|repeat constructor].
  intros x y Hx Hy. apply elem_of_seqZ in Hx.
  apply list_elem_of_singleton in Hy. lia.
Qed.

Lemma StronglySorted_filter {A} (Rel : relation A) (P : A → Prop)
    `{∀ x, Decision (P x)} l :
  StronglySorted Rel l → StronglySorted Rel (filter P l).
Proof.
  induction 1 as [|x l Hl IH Hx]; [constructor|].
  rewrite filter_cons. destruct (decide (P x)); [|done].
  constructor; [done|]. apply Forall_forall. intros y Hy.
  apply list_elem_of_filter in Hy as [_ Hy].
  by apply (proj1 (Forall_forall _ _) Hx).
Qed.

Lemma elem_of_donors (R : list Z) n i :
  i ∈ donors R n ↔ node R i ∧ rcv R i = n.
Proof.
  unfold donors, node. rewrite list_elem_of_filter, elem_of_seqZ.
  split; intros; split; try tauto; lia.
Qed.

Lemma donors_sorted (R : list Z) n : StronglySorted Z.lt (donors R n).
Proof. apply StronglySorted_filter, StronglySorted_seqZ. Qed.

(** C5: for a receiver array with all values in [[0, N)], the adjacency
    builder (run on the zero arrays the driver allocates) returns [delta] of
    length [N + 1] and [D] of length [N]; [delta] is non-decreasing with
    [delta[N] = N]; the segment [D[delta[r]:delta[r+1]]] of every node [r]
    holds exactly the nodes whose receiver is [r], in ascending order. *)
Theorem adjacency_builder_correct (R : list Z) :
  in_range R →
  ∃ nd delta D w,
    _calculate_temp_arrays R (zeros (length R)) (zeros (length R + 1))
      (zeros (length R)) (zeros (length R)) = Ret (nd, delta, D, w) ∧
    length delta = S (length R) ∧ length D = length R ∧
    (∀ (i j : nat) di dj, (i ≤ j)%nat →
       delta !! i = Some di → delta !! j = Some dj → di ≤ dj) ∧
    delta !! length R = Some (Z.of_nat (length R)) ∧
    ∀ r, node R r →
      ∃ lo hi, getitem delta r = Ret lo ∧ getitem delta (r + 1) = Ret hi ∧
        (∀ i, i ∈ slice D lo hi ↔ node R i ∧ rcv R i = r) ∧
        StronglySorted Z.lt (slice D lo hi).
Proof.
  intros HR.
  destruct (calculate_temp_arrays_spec R HR)
    as (nd & delta & D & w & Hrun & Hlend & HlenD & Hdelta & HD).
  exists nd, delta, D, w. repeat split; try done.
  - intros i j di dj Hij Hi Hj.
    pose proof (lookup_lt_Some _ _ _ Hi). pose proof (lookup_lt_Some _ _ _ Hj).
    rewrite <- (Nat2Z.id i), Hdelta in Hi by lia.
    rewrite <- (Nat2Z.id j), Hdelta in Hj by lia.
    injection Hi as <-. injection Hj as <-. apply below_mono. lia.
  - pose proof (Hdelta (Z.of_nat (length R)) ltac:(lia)) as HN.
    rewrite Nat2Z.id in HN. rewrite HN. f_equal. by apply below_length.
  - intros r Hr. exists (below r R), (below (r + 1) R).
    unfold node in Hr.
    split; [apply getitem_Ret; [lia|apply Hdelta; lia]|].
    split; [apply getitem_Ret; [lia|apply Hdelta; lia]|].
    rewrite (HD r Hr). split; [apply elem_of_donors|apply donors_sorted].
Qed.

Lemma adjacency_builder_correct_witness :
  ∃ nd delta D w,
    _calculate_temp_arrays example_receivers (zeros 10) (zeros (10 + 1))
      (zeros 10) (zeros 10) = Ret (nd, delta, D, w) ∧
    length delta = 11%nat ∧ length D = 10%nat ∧
    (∀ (i j : nat) di dj, (i ≤ j)%nat →
       delta !! i = Some di → delta !! j = Some dj → di ≤ dj) ∧
    delta !! 10%nat = Some 10 ∧
    ∀ r, node example_receivers r →
      ∃ lo hi, getitem delta r = Ret lo ∧ getitem delta (r + 1) = Ret hi ∧
        (∀ i, i ∈ slice D lo hi ↔
              node example_receivers i ∧ rcv example_receivers i = r) ∧
        StronglySorted Z.lt (slice D lo hi).
Proof.
  apply (adjacency_builder_correct example_receivers).
  repeat constructor; unfold node; simpl; lia.
Defined.

(** ** Receiver values outside the node range *)

Lemma index_Some len i k : index len i = Some k → (k < len)%nat.
Proof.
  unfold index. repeat case_bool_decide; intros [= <-]; lia.
Qed.

Lemma index_None len i :
  index len i = None ↔ ¬ (- Z.of_nat len ≤ i < Z.of_nat len).
Proof.
  unfold index. repeat case_bool_decide; split; try done; lia.
Qed.

Lemma getitem_njit_wrap a i :
  - Z.of_nat (length a) ≤ i < Z.of_nat (length a) →
  ∃ v, getitem_njit a i = Ret v.
Proof.
  intros Hi. unfold getitem_njit.
  destruct (index (length a) i) as [k|] eqn:Hk.
  - apply index_Some in Hk. destruct (lookup_lt_is_Some_2 a k Hk) as [v ->].
    eauto.
  - apply index_None in Hk. tauto.
Qed.

Lemma setitem_njit_wrap a i v :
  - Z.of_nat (length a) ≤ i < Z.of_nat (length a) →
  ∃ a', setitem_njit a i v = Ret a' ∧ length a' = length a.
Proof.
  intros Hi. unfold setitem_njit.
  destruct (index (length a) i) as [k|] eqn:Hk.
  - eexists; split; [done|]. by rewrite length_insert.
  - apply index_None in Hk. tauto.
Qed.

Lemma getitem_njit_outside a i :
  ¬ (- Z.of_nat (length a) ≤ i < Z.of_nat (length a)) →
  getitem_njit a i = Undefined.
Proof.
  intros Hi. unfold getitem_njit. apply index_None in Hi. by rewrite Hi.
Qed.

(** The histogram loop over any indices of [r]: it reads [nd] outside its
    bounds exactly when one of the receivers read is outside [[-N, N)];
    otherwise it runs to its end. *)
Lemma histogram_loop (r : list Z) (idx : list Z) nd :
  length nd = length r →
  Forall (λ i, 0 ≤ i < Z.of_nat (length r)) idx →
  let body := λ i nd, ri ← getitem_njit r i; c ← getitem_njit nd ri;
                      setitem_njit nd ri (c + 1) in
  (Exists (λ i, ¬ (- Z.of_nat (length r) ≤ rcv r i < Z.of_nat (length r))) idx
     ∧ for_ idx body nd = Undefined) ∨
  (Forall (λ i, - Z.of_nat (length r) ≤ rcv r i < Z.of_nat (length r)) idx
     ∧ ∃ nd', for_ idx body nd = Ret nd' ∧ length nd' = length r).
Proof.
  intros Hlen Hidx body. subst body. revert nd Hlen.
  induction Hidx as [|i idx Hi _ IH]; intros nd Hlen.
  - right. split; [constructor|]. by exists nd.
  - assert (is_Some (r !! Z.to_nat i)) as [v Hv]
      by (apply lookup_lt_is_Some; lia).
    assert (rcv r i = v) as Hrcv by (by apply list_lookup_total_correct).
    simpl. rewrite (getitem_njit_Ret r i v) by (done || lia).
    rewrite bind_Ret.
    destruct (decide (- Z.of_nat (length r) ≤ v < Z.of_nat (length r)))
      as [Hin|Hout].
    + destruct (getitem_njit_wrap nd v) as [c ->]; [by rewrite Hlen|].
      rewrite bind_Ret.
      destruct (setitem_njit_wrap nd v (c + 1)) as (nd' & -> & Hlen');
        [by rewrite Hlen|].
      rewrite bind_Ret.
      destruct (IH nd') as [[Hex Hrun]|[Hall Hrun]]; [congruence|..].
      * left. split; [by apply Exists_cons_tl|done].
      * right. split; [|done]. constructor; [by rewrite Hrcv|done].
    + left. split; [apply Exists_cons_hd; by rewrite Hrcv|].
      rewrite getitem_njit_outside by (by rewrite Hlen). done.
Qed.

Lemma histogram_pass_undefined (r : list Z) :
  histogram_pass r (zeros (length r)) = Undefined ↔
  ∃ v, v ∈ r ∧ ¬ (- Z.of_nat (length r) ≤ v < Z.of_nat (length r)).
Proof.
  unfold histogram_pass, range.
  destruct (histogram_loop r (seqZ 0 (Z.of_nat (length r) - 0))
              (zeros (length r))) as [[Hex Hrun]|[Hall (nd & Hrun & _)]].
  - unfold zeros. by rewrite length_replicate.
  - apply Forall_seqZ. lia.
  - split; [intros _|done].
    apply Exists_exists in Hex as (i & Hi & Hbad).
    apply elem_of_seqZ in Hi. exists (rcv r i). split; [|done].
    apply list_elem_of_lookup. exists (Z.to_nat i).
    unfold rcv. apply list_lookup_lookup_total_lt. lia.
  - split; [congruence|]. intros (v & Hv & Hbad). exfalso.
    apply list_elem_of_lookup in Hv as [k Hk].
    pose proof (lookup_lt_Some _ _ _ Hk) as Hlt.
    apply (proj1 (Forall_seqZ _ _ _)) with (m' := Z.of_nat k) in Hall; [|lia].
    rewrite (rcv_lookup _ _ _ Hk) in Hall. done.
Qed.

(** Compiled code raises nothing: an access returns or leaves the bounds,
    and so do the loops of the adjacency builder, whatever the arrays. *)
Lemma getitem_njit_cases a i :
  (∃ v, getitem_njit a i = Ret v) ∨ getitem_njit a i = Undefined.
Proof.
  unfold getitem_njit. destruct (index (length a) i) as [k|]; [|by right].
  destruct (a !! k); [left; by eexists|by right].
Qed.

Lemma setitem_njit_cases a i v :
  (∃ a', setitem_njit a i v = Ret a') ∨ setitem_njit a i v = Undefined.
Proof.
  unfold setitem_njit.
  destruct (index (length a) i); [left; by eexists|by right].
Qed.

Lemma for_no_raise {St} l (body : Z → St → outcome St) st e :
  (∀ i st, body i st ≠ Raise e) → for_ l body st ≠ Raise e.
Proof.
  intros Hbody. revert st. induction l as [|i l IH]; intros st; [done|].
  rewrite for_cons. pose proof (Hbody i st) as Hi.
  destruct (body i st) as [st'|e'| |]; simpl; [apply IH|congruence|done..].
Qed.

Ltac njit_access :=
  match goal with
  | |- context [getitem_njit ?a ?i] =>
      destruct (getitem_njit_cases a i) as [[? ->]| ->];
      [rewrite ?bind_Ret|done]
  | |- context [setitem_njit ?a ?i ?v] =>
      destruct (setitem_njit_cases a i v) as [[? ->]| ->];
      [rewrite ?bind_Ret|done]
  end.

Lemma calculate_temp_arrays_no_raise (r nd delta D w : list Z) e :
  _calculate_temp_arrays r nd delta D w ≠ Raise e.
Proof.
  unfold _calculate_temp_arrays.
  pose proof (for_no_raise (range 0 (Z.of_nat (length r)))
                (λ i nd, ri ← getitem_njit r i; c ← getitem_njit nd ri;
                         setitem_njit nd ri (c + 1)) nd e) as Hh.
  unfold histogram_pass.
  destruct (for_ _ _ nd) as [nd1|e1| |]; simpl; [|intros [= ->]|done..].
  2:{ apply Hh; [|done]. intros i st. by repeat njit_access. }
  clear Hh. unfold delta_pass. njit_access.
  match goal with
  | |- for_ ?l ?f ?st ≫= _ ≠ _ =>
      pose proof (for_no_raise l f st e) as Hd;
      destruct (for_ l f st) as [delta1|e1| |]; simpl;
      [|intros [= ->]|done..]
  end.
  2:{ apply Hd; [|done]. intros i st. by repeat njit_access. }
  clear Hd. unfold scatter_pass.
  match goal with
  | |- for_ ?l ?f ?st ≫= _ ≠ _ =>
      pose proof (for_no_raise l f st e) as Hs;
      destruct (for_ l f st) as [[D1 w1]|e1| |]; simpl;
      [done|intros [= ->]|done..]
  end.
  apply Hs; [|done]. intros i [D0 w0]. by repeat njit_access.
Qed.

(** C8, as amended: the code validates nothing.  On a receiver array with
    some value outside [[0, N)] the adjacency builder raises no error; when
    the value is outside [[-N, N)], the histogram pass indexes [nd] outside
    its bounds in compiled code, where no bounds are checked, so that the
    behaviour of the pass, of the builder and of the driver, whatever the
    roots and the mode, is undefined from there on. *)
Theorem invalid_index_unchecked (limit fuel : nat)
    (receivers baselevels : list Z) (mode : string) (out_stack_ids : bool)
    (v : Z) :
  v ∈ receivers →
  ¬ (0 ≤ v < Z.of_nat (length receivers)) →
  (∀ e, _calculate_temp_arrays receivers (zeros (length receivers))
          (zeros (length receivers + 1)) (zeros (length receivers))
          (zeros (length receivers)) ≠ Raise e) ∧
  (¬ (- Z.of_nat (length receivers) ≤ v < Z.of_nat (length receivers)) →
   histogram_pass receivers (zeros (length receivers)) = Undefined ∧
   _calculate_temp_arrays receivers (zeros (length receivers))
     (zeros (length receivers + 1)) (zeros (length receivers))
     (zeros (length receivers)) = Undefined ∧
   order_nodes_numba limit fuel receivers baselevels mode out_stack_ids
     = Undefined).
Proof.
  intros Hv _. split; [intros e; apply calculate_temp_arrays_no_raise|].
  intros Hbad.
  assert (histogram_pass receivers (zeros (length receivers)) = Undefined)
    as Hh by (apply histogram_pass_undefined; eauto).
  split; [done|].
  unfold order_nodes_numba, _calculate_temp_arrays. by rewrite Hh.
Qed.

Lemma invalid_index_unchecked_witness :
  (∀ e, _calculate_temp_arrays [0; 2] (zeros 2) (zeros (2 + 1)) (zeros 2)
          (zeros 2) ≠ Raise e) ∧
  (¬ (- 2 ≤ 2 < 2) →
   histogram_pass [0; 2] (zeros 2) = Undefined ∧
   _calculate_temp_arrays [0; 2] (zeros 2) (zeros (2 + 1)) (zeros 2) (zeros 2)
     = Undefined ∧
   order_nodes_numba 10 10 [0; 2] [0] "recursive" false = Undefined).
Proof.
  apply (invalid_index_unchecked 10 10 [0; 2] [0] "recursive" false 2).
  - apply list_elem_of_In. simpl. tauto.
  - simpl. lia.
Defined.

(** C8 as stated fails: a negative receiver in [[-N, 0)] is read as an index
    from the end of the arrays, and the driver returns a stack. *)
Lemma negative_receiver_not_detected :
  (-2) ∈ [-2; 1] ∧ ¬ (0 ≤ -2 < Z.of_nat (length [-2; 1])) ∧
  histogram_pass [-2; 1] (zeros 2) = Ret [1; 1] ∧
  order_nodes_numba 10 10 [-2; 1] [1] "recursive" false = Ret (Stack [1; 0]).
Proof.
  split; [apply list_elem_of_In; simpl; tauto|].
  split; [simpl; lia|]. split; vm_compute; reflexivity.
Qed.
(** ** Trees of the receiver relation *)

Section receiver_chains.
Context (R : list Z) (HR : in_range R).

Lemma rcv_node i : node R i → node R (rcv R i).
Proof.
  intros Hi. unfold rcv. eapply in_range_lookup; [done|].
  apply list_lookup_lookup_total_lt. unfold node in Hi. lia.
Qed.

Lemma downstream_node k i : node R i → node R (downstream R k i).
Proof. revert i. induction k; simpl; auto using rcv_node. Qed.

Lemma downstream_S_r k i :
  downstream R (S k) i = rcv R (downstream R k i).
Proof. revert i. induction k as [|k IH]; intros i; [done|]. apply IH. Qed.

Lemma downstream_add a b i :
  downstream R (a + b) i = downstream R b (downstream R a i).
Proof. revert i. induction a as [|a IH]; intros i; [done|]. apply IH. Qed.

Lemma base_downstream k b : base R b → downstream R k b = b.
Proof. intros Hb. induction k as [|k IH]; [done|]. simpl. by rewrite Hb. Qed.

Lemma base_downstream_le j k i :
  (j ≤ k)%nat → base R (downstream R j i) → downstream R k i = downstream R j i.
Proof.
  intros Hjk Hb. replace k with (j + (k - j))%nat by lia.
  rewrite downstream_add. by apply base_downstream.
Qed.

(** The first base-level node on the chain of [i]. *)
Lemma first_base k i :
  base R (downstream R k i) →
  ∃ d, (d ≤ k)%nat ∧ base R (downstream R d i) ∧
       ∀ j, (j < d)%nat → ¬ base R (downstream R j i).
Proof.
  revert i. induction k as [|k IH]; intros i Hb.
  - exists 0%nat. split; [done|]. split; [done|]. lia.
  - destruct (decide (base R i)) as [Hi|Hi].
    + exists 0%nat. split; [lia|]. split; [done|]. lia.
    + destruct (IH _ Hb) as (d & Hd & Hbd & Hmin).
      exists (S d). split; [lia|]. split; [done|].
      intros [|j] Hj; [done|]. apply Hmin. lia.
Qed.

Lemma steps_to_base_first fuel i d :
  base R (downstream R d i) →
  (∀ j, (j < d)%nat → ¬ base R (downstream R j i)) →
  (d ≤ fuel)%nat →
  steps_to_base R fuel i = d.
Proof.
  revert i d. induction fuel as [|fuel IH]; intros i d Hb Hmin Hd.
  - simpl. lia.
  - simpl. case_bool_decide as Hi.
    + destruct d as [|d]; [done|]. destruct (Hmin 0%nat); [lia|done].
    + destruct d as [|d]; [done|]. f_equal. apply IH; [done| |lia].
      intros j Hj. apply (Hmin (S j)). lia.
Qed.

(** Before the first base-level node the chain does not repeat a node. *)
Lemma chain_injective i d a b :
  base R (downstream R d i) →
  (∀ j, (j < d)%nat → ¬ base R (downstream R j i)) →
  (a < b)%nat → (b ≤ d)%nat →
  downstream R a i ≠ downstream R b i.
Proof.
  intros Hb Hmin Hab Hbd Heq.
  apply (Hmin (a + (d - b))%nat); [lia|].
  rewrite downstream_add, Heq, <- downstream_add.
  by replace (b + (d - b))%nat with d by lia.
Qed.

Lemma chain_short i d :
  node R i →
  base R (downstream R d i) →
  (∀ j, (j < d)%nat → ¬ base R (downstream R j i)) →
  (d < length R)%nat.
Proof.
  intros Hi Hb Hmin.
  assert (NoDup ((λ j, downstream R j i) <$> seq 0 (S d))) as Hnd.
  { apply NoDup_fmap_2_strong; [|apply NoDup_seq].
    intros a b Ha Hb' Heq. apply elem_of_seq in Ha, Hb'.
    destruct (decide (a = b)) as [|Hne]; [done|]. exfalso.
    destruct (decide (a < b)%nat).
    - by apply (chain_injective i d a b Hb Hmin); [lia..|].
    - by apply (chain_injective i d b a Hb Hmin); [lia..|]. }
  apply NoDup_submseteq with (k := seqZ 0 (Z.of_nat (length R))) in Hnd.
  - apply submseteq_length in Hnd.
    rewrite length_fmap, length_seq, length_seqZ in Hnd. lia.
  - intros x (j & -> & _)%list_elem_of_fmap. apply elem_of_seqZ.
    pose proof (downstream_node j i Hi) as Hn. unfold node in Hn. lia.
Qed.
End receiver_chains.

Section forest_facts.
Context (R : list Z) (HF : forest R).

Lemma forest_in_range : in_range R.
Proof. exact (proj1 HF). Qed.

Lemma forest_rcv_node i : node R i → node R (rcv R i).
Proof. apply rcv_node, forest_in_range. Qed.

Lemma depth_spec i :
  node R i →
  (depth R i < length R)%nat ∧ base R (downstream R (depth R i) i) ∧
  ∀ j, (j < depth R i)%nat → ¬ base R (downstream R j i).
Proof.
  intros Hi. destruct (proj2 HF i Hi) as [k Hk].
  destruct (first_base R k i Hk) as (d & _ & Hb & Hmin).
  pose proof (chain_short R forest_in_range i d Hi Hb Hmin) as Hlt.
  unfold depth. rewrite (steps_to_base_first R (length R) i d); [done..|lia].
Qed.

Lemma depth_lt i : node R i → (depth R i < length R)%nat.
Proof. intros Hi. by apply depth_spec. Qed.

Lemma depth_first i d :
  node R i → base R (downstream R d i) →
  (∀ j, (j < d)%nat → ¬ base R (downstream R j i)) →
  depth R i = d.
Proof.
  intros Hi Hb Hmin. apply steps_to_base_first; [done..|].
  pose proof (chain_short R forest_in_range i d Hi Hb Hmin). lia.
Qed.

Lemma depth_base b : node R b → base R b → depth R b = 0%nat.
Proof. intros Hn Hb. apply depth_first; [done..|lia]. Qed.

Lemma depth_0_base i : node R i → depth R i = 0%nat → base R i.
Proof.
  intros Hi Hd. destruct (depth_spec i Hi) as (_ & Hb & _).
  by rewrite Hd in Hb.
Qed.

Lemma depth_rcv i :
  node R i → ¬ base R i → depth R i = S (depth R (rcv R i)).
Proof.
  intros Hi Hnb.
  destruct (depth_spec (rcv R i) (forest_rcv_node i Hi)) as (_ & Hb & Hmin).
  apply depth_first; [done..|].
  intros [|j] Hj; [done|]. apply Hmin. lia.
Qed.

Lemma depth_rcv_le i : node R i → (depth R (rcv R i) ≤ depth R i)%nat.
Proof.
  intros Hi. destruct (decide (base R i)) as [Hb|Hb].
  - rewrite Hb. lia.
  - rewrite (depth_rcv i Hi Hb). lia.
Qed.

Lemma depth_downstream_le k i :
  node R i → (depth R (downstream R k i) ≤ depth R i)%nat.
Proof.
  revert i. induction k as [|k IH]; intros i Hi; [done|]. simpl.
  pose proof (IH _ (forest_rcv_node i Hi)). pose proof (depth_rcv_le i Hi). lia.
Qed.

(** A chain that ends in a node above the base level has met no base
    level on its way. *)
Lemma depth_downstream k i :
  node R i → ¬ base R (downstream R k i) →
  depth R i = (k + depth R (downstream R k i))%nat.
Proof.
  revert i. induction k as [|k IH]; intros i Hi Hnb; [done|]. simpl in *.
  assert (¬ base R i) as Hnbi.
  { intros Hb. apply Hnb. rewrite Hb.
    by rewrite (base_downstream R k i Hb). }
  rewrite (depth_rcv i Hi Hnbi). f_equal.
  apply IH; [by apply forest_rcv_node|done].
Qed.

Lemma root_of_node i : node R i → node R (root_of R i).
Proof. apply downstream_node, forest_in_range. Qed.

Lemma root_of_downstream i :
  node R i → root_of R i = downstream R (depth R i) i.
Proof.
  intros Hi. destruct (depth_spec i Hi) as (Hlt & Hb & _).
  unfold root_of. apply base_downstream_le; [lia|done].
Qed.

Lemma root_of_base_level i : node R i → base R (root_of R i).
Proof.
  intros Hi. rewrite (root_of_downstream i Hi). by apply depth_spec.
Qed.

Lemma root_of_base b : base R b → root_of R b = b.
Proof. apply base_downstream. Qed.

Lemma root_of_rcv i : node R i → root_of R (rcv R i) = root_of R i.
Proof.
  intros Hi. pose proof (root_of_base_level i Hi) as Hb.
  unfold root_of in *.
  change (downstream R (length R) (rcv R i))
    with (downstream R (S (length R)) i).
  by rewrite downstream_S_r.
Qed.

Lemma root_of_chain k i :
  node R i → root_of R (downstream R k i) = root_of R i.
Proof.
  revert i. induction k as [|k IH]; intros i Hi; [done|]. simpl.
  rewrite IH by (by apply forest_rcv_node). by apply root_of_rcv.
Qed.

(** The subtree of a base-level node is the set of nodes draining to it. *)
Lemma in_subtree_root b x :
  base R b → in_subtree R b x ↔ node R x ∧ root_of R x = b.
Proof.
  intros Hb. split; intros [Hx H]; (split; [done|]).
  - destruct H as [k <-]. rewrite <- (root_of_chain k x Hx).
    by apply root_of_base.
  - exists (length R). exact H.
Qed.
End forest_facts.

Section preorder_facts.
Context (R : list Z) (HF : forest R).

Lemma elem_of_children n c :
  c ∈ children R n ↔ node R c ∧ rcv R c = n ∧ c ≠ n.
Proof.
  unfold children. rewrite list_elem_of_filter, elem_of_donors. tauto.
Qed.

Lemma NoDup_donors n : NoDup (donors R n).
Proof. apply NoDup_filter, NoDup_seqZ. Qed.

Lemma NoDup_children n : NoDup (children R n).
Proof. apply NoDup_filter, NoDup_donors. Qed.

Lemma child_not_base n c : c ∈ children R n → ¬ base R c.
Proof. intros (_ & Hr & Hne)%elem_of_children Hb. congruence. Qed.

Lemma child_depth n c :
  c ∈ children R n → depth R c = S (depth R n).
Proof.
  intros Hc. pose proof (child_not_base n c Hc) as Hnb.
  apply elem_of_children in Hc as (Hn & <- & _).
  by apply depth_rcv.
Qed.

Lemma child_node n c : c ∈ children R n → node R c.
Proof. by intros (? & _)%elem_of_children. Qed.

Lemma parent_node n c : c ∈ children R n → node R n.
Proof.
  intros (Hc & <- & _)%elem_of_children. by apply forest_rcv_node.
Qed.

Lemma elem_of_preorder_aux fuel n x :
  node R n → (length R ≤ fuel + depth R n)%nat →
  x ∈ preorder_aux R fuel n ↔ in_subtree R n x.
Proof.
  revert n x. induction fuel as [|fuel IH]; intros n x Hn Hfuel.
  { pose proof (depth_lt R HF n Hn). lia. }
  simpl. rewrite elem_of_cons, list_elem_of_bind. split.
  - intros [->|(c & Hx & Hc)].
    + split; [done|]. by exists 0%nat.
    + apply IH in Hx as [Hx [k Hk]].
      * split; [done|]. exists (S k).
        rewrite (downstream_S_r R), Hk.
        by apply elem_of_children in Hc as (_ & ? & _).
      * by eapply child_node.
      * rewrite (child_depth n c Hc). lia.
  - intros [Hx [k Hk]]. revert Hk. induction k as [|k IHk]; intros Hk.
    { by left. }
    rewrite (downstream_S_r R) in Hk.
    destruct (decide (downstream R k x = n)) as [Heq|Hne]; [by apply IHk|].
    right. exists (downstream R k x).
    assert (downstream R k x ∈ children R n) as Hc.
    { apply elem_of_children. split; [|done].
      apply downstream_node; [apply (forest_in_range R HF)|done]. }
    split; [|done]. apply IH.
    + by eapply child_node.
    + rewrite (child_depth n _ Hc). lia.
    + split; [done|]. by exists k.
Qed.

Lemma elem_of_preorder n x :
  node R n → x ∈ preorder R n ↔ in_subtree R n x.
Proof. intros Hn. apply elem_of_preorder_aux; [done|lia]. Qed.

(** Nodes upstream of two different children of one node are different. *)
Lemma subtree_children_disjoint n c1 c2 x :
  c1 ∈ children R n → c2 ∈ children R n →
  in_subtree R c1 x → in_subtree R c2 x → c1 = c2.
Proof.
  intros Hc1 Hc2 [Hx [k1 Hk1]] [_ [k2 Hk2]].
  pose proof (child_not_base _ _ Hc1) as Hb1.
  pose proof (child_not_base _ _ Hc2) as Hb2.
  pose proof (depth_downstream R HF k1 x Hx) as Hd1.
  pose proof (depth_downstream R HF k2 x Hx) as Hd2.
  rewrite Hk1 in Hd1. rewrite Hk2 in Hd2.
  rewrite (child_depth n c1 Hc1) in Hd1 by done.
  rewrite (child_depth n c2 Hc2) in Hd2 by done.
  assert (k1 = k2) as -> by (specialize (Hd1 Hb1); specialize (Hd2 Hb2); lia).
  congruence.
Qed.

Lemma NoDup_preorder_aux fuel n :
  node R n → (length R ≤ fuel + depth R n)%nat →
  NoDup (preorder_aux R fuel n).
Proof.
  revert n. induction fuel as [|fuel IH]; intros n Hn Hfuel.
  { constructor. }
  assert (∀ c, c ∈ children R n →
               (length R ≤ fuel + depth R c)%nat) as Hfc.
  { intros c Hc. rewrite (child_depth n c Hc). lia. }
  simpl. apply NoDup_cons. split.
  - intros (c & Hx & Hc)%list_elem_of_bind.
    apply elem_of_preorder_aux in Hx as [_ [k Hk]];
      [|by eapply child_node|by apply Hfc].
    pose proof (depth_downstream_le R HF k n Hn) as Hle.
    rewrite Hk, (child_depth n c Hc) in Hle. lia.
  - apply NoDup_bind; [|intros c Hc|apply NoDup_children].
    + intros c1 c2 x Hc1 Hc2 Hx1 Hx2.
      apply elem_of_preorder_aux in Hx1;
        [|by eapply child_node|by apply Hfc].
      apply elem_of_preorder_aux in Hx2;
        [|by eapply child_node|by apply Hfc].
      by eapply subtree_children_disjoint.
    + apply IH; [by eapply child_node|by apply Hfc].
Qed.

Lemma NoDup_preorder n : node R n → NoDup (preorder R n).
Proof. intros Hn. apply NoDup_preorder_aux; [done|lia]. Qed.

Lemma preorder_aux_nodes fuel n :
  node R n → Forall (node R) (preorder_aux R fuel n).
Proof.
  revert n. induction fuel as [|fuel IH]; intros n Hn; [constructor|].
  simpl. constructor; [done|]. apply Forall_bind, Forall_forall.
  intros c Hc. apply IH. by eapply child_node.
Qed.

Lemma length_preorder_aux fuel n :
  node R n → (length R ≤ fuel + depth R n)%nat →
  (length (preorder_aux R fuel n) ≤ length R)%nat.
Proof.
  intros Hn Hfuel.
  pose proof (NoDup_preorder_aux fuel n Hn Hfuel) as Hnd.
  apply NoDup_submseteq with (k := seqZ 0 (Z.of_nat (length R))) in Hnd.
  - apply submseteq_length in Hnd. rewrite length_seqZ in Hnd. lia.
  - intros x Hx. apply elem_of_seqZ.
    pose proof (proj1 (Forall_forall _ _) (preorder_aux_nodes fuel n Hn) x Hx)
      as Hnx.
    unfold node in Hnx. lia.
Qed.
End preorder_facts.

(** ** The recursive stack builder *)

(** A loop over [range(lo, hi)] that reads [D[i]] is a loop over the segment
    [D[lo:hi]]. *)
Lemma for_range_slice {St} (D : list Z) (g : Z → St → outcome St) lo hi st :
  0 ≤ lo → lo ≤ hi → hi ≤ Z.of_nat (length D) →
  for_ (range lo hi) (λ i st, m ← getitem D i; g m st) st
  = for_ (slice D lo hi) g st.
Proof.
  intros Hlo Hhi Hlen. unfold range, slice.
  replace (hi - lo) with (Z.of_nat (Z.to_nat (hi - lo))) at 1 by lia.
  assert (lo + Z.of_nat (Z.to_nat (hi - lo)) ≤ Z.of_nat (length D)) as Hn by lia.
  revert Hn. generalize (Z.to_nat (hi - lo)) as n. clear hi Hhi Hlen.
  intros n. revert lo st Hlo. induction n as [|n IH]; intros lo st Hlo Hn.
  { by rewrite take_0. }
  rewrite seqZ_cons by lia.
  assert (is_Some (D !! Z.to_nat lo)) as [x Hx]
    by (apply lookup_lt_is_Some; lia).
  rewrite (drop_S _ _ _ Hx). simpl.
  rewrite (getitem_Ret D lo x) by done. rewrite bind_Ret.
  destruct (g x st) as [st'| | |]; simpl; [|done..].
  replace (Z.pred (Z.of_nat (S n))) with (Z.of_nat n) by lia.
  rewrite IH by lia. do 3 f_equal. lia.
Qed.

Section build_stack.
Context (R delta D : list Z) (HF : forest R) (Hadj : adjacency R delta D).

Lemma donor_segment n :
  node R n →
  ∃ lo hi, getitem delta n = Ret lo ∧ getitem delta (n + 1) = Ret hi ∧
           0 ≤ lo ∧ lo ≤ hi ∧ hi ≤ Z.of_nat (length D) ∧
           slice D lo hi = donors R n.
Proof.
  intros Hn. destruct Hadj as (Hlend & HlenD & Hseg).
  destruct (Hseg n Hn) as (lo & hi & Hlo & Hhi & H0 & H1 & H2 & Hs).
  exists lo, hi. unfold node in Hn.
  repeat split; try done; try lia; by apply getitem_Ret; [lia|].
Qed.

Lemma donor_cases n c : c ∈ donors R n → c = n ∨ c ∈ children R n.
Proof.
  intros Hc. destruct (decide (c = n)) as [|Hne]; [by left|right].
  unfold children. by apply list_elem_of_filter.
Qed.

Lemma setitem_app pre rest v :
  (0 < length rest)%nat →
  setitem (pre ++ rest) (Z.of_nat (length pre)) v
  = Ret (pre ++ v :: drop 1 rest).
Proof.
  intros Hrest. rewrite setitem_Ret by (rewrite length_app; lia).
  rewrite Nat2Z.id. destruct rest as [|r0 rest]; [simpl in Hrest; lia|].
  f_equal. rewrite <- (Nat.add_0_r (length pre)) at 1.
  by rewrite insert_app_r.
Qed.

Lemma build_stack_spec fuel n limit pre rest :
  node R n → (length R ≤ fuel + depth R n)%nat →
  (height_aux R fuel n ≤ limit)%nat →
  (length pre + length rest = length R)%nat →
  (length (preorder_aux R fuel n) ≤ length rest)%nat →
  _build_stack limit n D delta (pre ++ rest) (Z.of_nat (length pre))
  = Ret (pre ++ preorder_aux R fuel n
           ++ drop (length (preorder_aux R fuel n)) rest,
         Z.of_nat (length pre)
           + Z.of_nat (length (preorder_aux R fuel n)) - 1).
Proof.
  revert n limit pre rest.
  induction fuel as [|fuel IH]; intros n limit pre rest Hn Hfuel Hlim Hlen Hfit.
  { pose proof (depth_lt R HF n Hn). lia. }
  destruct limit as [|limit]; [simpl in Hlim; lia|].
  cbn [_build_stack height_aux preorder_aux] in *.
  rewrite setitem_app by (simpl in Hfit; lia). rewrite bind_Ret.
  destruct (donor_segment n Hn) as (lo & hi & -> & -> & Hlo & Hhi & HlenD & Hs).
  rewrite !bind_Ret.
  set (g := λ m (st : list Z * Z),
         if bool_decide (m ≠ n)
         then _build_stack limit m D delta st.1 (st.2 + 1)
         else Ret st).
  rewrite (for_ext _ (λ i st, m ← getitem D i; g m st));
    [|by intros i [s inc]].
  rewrite for_range_slice by done. rewrite Hs.
  assert (∀ ms pre' rest',
    Forall (λ c, c = n ∨ c ∈ children R n) ms →
    (length pre' + length rest' = length R)%nat →
    (length (filter (λ m, m ≠ n) ms ≫= preorder_aux R fuel)
       ≤ length rest')%nat →
    for_ ms g (pre' ++ rest', Z.of_nat (length pre') - 1)
    = Ret (pre' ++ (filter (λ m, m ≠ n) ms ≫= preorder_aux R fuel)
             ++ drop (length
                  (filter (λ m, m ≠ n) ms ≫= preorder_aux R fuel)) rest',
           Z.of_nat (length pre')
             + Z.of_nat (length
                  (filter (λ m, m ≠ n) ms ≫= preorder_aux R fuel)) - 1))
    as Hloop.
  { clear pre rest Hlen Hfit. intros ms.
    induction ms as [|c ms IHms]; intros pre rest Hms Hlen Hfit.
    { simpl. rewrite drop_0. do 2 f_equal. lia. }
    apply Forall_cons in Hms as [Hc Hms]. rewrite filter_cons in *.
    rewrite for_cons.
    change (g c (pre ++ rest, Z.of_nat (length pre) - 1))
      with (if bool_decide (c ≠ n)
            then _build_stack limit c D delta (pre ++ rest)
                   (Z.of_nat (length pre) - 1 + 1)
            else Ret (pre ++ rest, Z.of_nat (length pre) - 1)).
    destruct (decide (c ≠ n)) as [Hne|Heq].
    - destruct Hc as [|Hc]; [done|].
      rewrite bind_cons, length_app in Hfit.
      rewrite bool_decide_true by done.
      replace (Z.of_nat (length pre) - 1 + 1)
        with (Z.of_nat (length pre)) by lia.
      rewrite IH; [|by eapply child_node
                   |rewrite (child_depth R HF n c Hc); lia
                   | |done|lia].
      2:{ etrans; [|apply le_S_n, Hlim]. apply max_list_elem_of_le.
          by apply list_elem_of_fmap_2. }
      rewrite bind_Ret.
      set (P := preorder_aux R fuel c) in *.
      replace (Z.of_nat (length pre) + Z.of_nat (length P) - 1)
        with (Z.of_nat (length (pre ++ P)) - 1)
        by (rewrite length_app; lia).
      rewrite (assoc_L (++) pre P).
      rewrite IHms; [|done|rewrite length_app, length_drop; lia
                     |rewrite length_drop; lia].
      rewrite bind_cons, drop_drop, !length_app. fold P.
      rewrite <- !(assoc_L (++)). do 2 f_equal. lia.
    - rewrite bool_decide_false by done. rewrite bind_Ret.
      by apply IHms. }
  replace (Z.of_nat (length pre)) with (Z.of_nat (length (pre ++ [n])) - 1)
    at 1 by (rewrite length_app; simpl; lia).
  replace (pre ++ n :: drop 1 rest) with ((pre ++ [n]) ++ drop 1 rest)
    by (by rewrite <- (assoc_L (++))).
  change (filter (λ m, m ≠ n) (donors R n)) with (children R n) in Hloop.
  rewrite Hloop.
  - rewrite drop_drop, length_app, <- !(assoc_L (++)). simpl.
    unfold children. do 2 f_equal. lia.
  - apply Forall_forall. intros c Hc. by apply donor_cases.
  - rewrite length_app, length_drop. simpl in *. lia.
  - rewrite length_drop. simpl in *. unfold children in Hfit. lia.
Qed.
End build_stack.

(** ** Checking the forest shape *)

Lemma forestb_forest (R : list Z) : forestb R = true ↔ forest R.
Proof.
  unfold forestb. rewrite andb_true_iff, !forallb_forall.
  setoid_rewrite <- list_elem_of_In. split.
  - intros [Hin Hroot]. split.
    + apply Forall_forall. intros v Hv.
      exact (bool_decide_eq_true_1 _ (Hin v Hv)).
    + intros i Hi. exists (length R).
      apply (bool_decide_eq_true_1 (base R (root_of R i))), Hroot, elem_of_seqZ.
      unfold node in Hi. lia.
  - intros HF. split.
    + intros v Hv. apply bool_decide_eq_true_2.
      by apply (proj1 (Forall_forall _ _) (proj1 HF)).
    + intros i Hi%elem_of_seqZ. apply bool_decide_eq_true_2.
      apply root_of_base_level; [done|]. unfold node. lia.
Qed.

Lemma temp_arrays_adjacency (R nd delta D w : list Z) :
  in_range R → temp_arrays R = Ret (nd, delta, D, w) → adjacency R delta D.
Proof.
  intros HR Hrun.
  destruct (calculate_temp_arrays_adjacency R HR)
    as (nd' & delta' & D' & w' & Hrun' & Hadj).
  unfold temp_arrays in Hrun. congruence.
Qed.

(** The recursive builder in terms of the array it is given. *)
Lemma build_stack_at (R delta D s : list Z) (b inc : Z) (limit : nat) :
  forest R → adjacency R delta D →
  node R b →
  length s = length R →
  0 ≤ inc →
  inc + Z.of_nat (length (preorder R b)) ≤ Z.of_nat (length R) →
  (height R b ≤ limit)%nat →
  _build_stack limit b D delta s inc
  = Ret (take (Z.to_nat inc) s ++ preorder R b
           ++ drop (Z.to_nat inc + length (preorder R b)) s,
         inc + Z.of_nat (length (preorder R b)) - 1).
Proof.
  intros HF Hadj Hb Hlen Hinc Hfit Hlim.
  pose proof (build_stack_spec R delta D HF Hadj (length R) b limit
                (take (Z.to_nat inc) s) (drop (Z.to_nat inc) s)) as Hspec.
  rewrite take_drop, length_take, length_drop, drop_drop in Hspec.
  replace (Z.of_nat (length (take (Z.to_nat inc) s) `min` length s))
    with inc in Hspec by (rewrite length_take; lia).
  replace (Z.of_nat (Z.to_nat inc `min` length s)) with inc in Hspec by lia.
  apply Hspec; try done; unfold preorder in Hfit; lia.
Qed.

(** C10, as amended: on a well-formed forest, with [delta] and [D] from the
    adjacency builder, the recursive builder started at a node [b] (a root
    in particular) and a write position [inc] with room for the subtree, and
    allowed as many nested calls as the subtree has levels, writes the
    preorder sequence of the subtree of [b] at positions [inc], [inc + 1],
    ..., leaves the rest of [s] as it was, and returns the last position
    written, [inc + size - 1]; the preorder sequence lists each node of the
    subtree once. *)
Theorem build_stack_preorder (R nd delta D w s : list Z) (b inc : Z)
    (limit : nat) :
  forest R →
  temp_arrays R = Ret (nd, delta, D, w) →
  node R b →
  length s = length R →
  0 ≤ inc →
  inc + Z.of_nat (length (preorder R b)) ≤ Z.of_nat (length R) →
  (height R b ≤ limit)%nat →
  _build_stack limit b D delta s inc
  = Ret (take (Z.to_nat inc) s ++ preorder R b
           ++ drop (Z.to_nat inc + length (preorder R b)) s,
         inc + Z.of_nat (length (preorder R b)) - 1)
  ∧ NoDup (preorder R b)
  ∧ ∀ x, x ∈ preorder R b ↔ in_subtree R b x.
Proof.
  intros HF Hrun Hb Hlen Hinc Hfit Hlim.
  pose proof (temp_arrays_adjacency R nd delta D w (proj1 HF) Hrun) as Hadj.
  split; [by apply build_stack_at|].
  split; [by apply NoDup_preorder|intros x; by apply elem_of_preorder].
Qed.

Lemma build_stack_preorder_witness :
  _build_stack 4 4 [0; 2; 1; 4; 5; 7; 6; 3; 8; 9]
    [0; 0; 2; 2; 2; 6; 7; 9; 10; 10; 10] (zeros 10) 0
  = Ret (expected_order, 9).
Proof.
  refine (eq_trans (proj1 (build_stack_preorder example_receivers
    [0; 2; 0; 0; 4; 1; 2; 1; 0; 0] [0; 0; 2; 2; 2; 6; 7; 9; 10; 10; 10]
    [0; 2; 1; 4; 5; 7; 6; 3; 8; 9] [0; 2; 0; 0; 4; 1; 2; 1; 0; 0]
    (zeros 10) 4 0 4 _ _ _ _ _ _ _)) _).
  - apply forestb_forest. vm_compute. reflexivity.
  - vm_compute. reflexivity.
  - unfold node. simpl. lia.
  - reflexivity.
  - lia.
  - vm_compute. discriminate.
  - vm_compute. lia.
  - vm_compute. reflexivity.
Defined.

(** C10 as stated fails: on the one-node network the builder started at
    position 0 returns 0, the position it wrote, and not the next free
    position 1. *)
Lemma build_stack_returns_last_written :
  forest [0] ∧ base [0] 0 ∧
  temp_arrays [0] = Ret ([1], [0; 1], [0], [1]) ∧
  length (preorder [0] 0) = 1%nat ∧
  _build_stack 10 0 [0] [0; 1] (zeros 1) 0 = Ret ([0], 0) ∧
  0 ≠ 0 + Z.of_nat (length (preorder [0] 0)).
Proof.
  split; [apply forestb_forest; vm_compute; reflexivity|].
  repeat split; vm_compute; congruence.
Qed.

(** ** The non-recursive stack builder *)

Lemma length_filter_ext_in (P Q : Z → Prop) `{∀ x, Decision (P x)}
    `{∀ x, Decision (Q x)} (l : list Z) :
  (∀ x, x ∈ l → (P x ↔ Q x)) →
  length (filter P l) = length (filter Q l).
Proof.
  induction l as [|x l IH]; intros Hext; [done|].
  rewrite !filter_cons.
  pose proof (Hext x (list_elem_of_here _ _)) as Hx.
  assert (length (filter P l) = length (filter Q l)) as Hl.
  { apply IH. intros y Hy. apply Hext. by apply list_elem_of_further. }
  destruct (decide (P x)), (decide (Q x)); simpl; tauto || lia.
Qed.

Lemma length_filter_le (P Q : Z → Prop) `{∀ x, Decision (P x)}
    `{∀ x, Decision (Q x)} (l : list Z) :
  (∀ x, x ∈ l → Q x → P x) →
  (length (filter Q l) ≤ length (filter P l))%nat.
Proof.
  induction l as [|x l IH]; intros Himp; [done|].
  rewrite !filter_cons.
  pose proof (Himp x (list_elem_of_here _ _)) as Hx.
  assert (length (filter Q l) ≤ length (filter P l))%nat as Hl.
  { apply IH. intros y Hy. apply Himp. by apply list_elem_of_further. }
  destruct (decide (P x)), (decide (Q x)); simpl; tauto || lia.
Qed.

Lemma length_filter_lt (P Q : Z → Prop) `{∀ x, Decision (P x)}
    `{∀ x, Decision (Q x)} (l : list Z) m :
  (∀ x, x ∈ l → Q x → P x) → m ∈ l → P m → ¬ Q m →
  (length (filter Q l) < length (filter P l))%nat.
Proof.
  induction l as [|x l IH]; intros Himp Hm HP HQ.
  { by apply not_elem_of_nil in Hm. }
  rewrite !filter_cons.
  pose proof (Himp x (list_elem_of_here _ _)) as Hx.
  assert (length (filter Q l) ≤ length (filter P l))%nat as Hle.
  { apply length_filter_le. intros y Hy. apply Himp.
    by apply list_elem_of_further. }
  apply elem_of_cons in Hm as [<-|Hm].
  - destruct (decide (P m)), (decide (Q m)); simpl; tauto || lia.
  - assert (length (filter Q l) < length (filter P l))%nat as Hl.
    { apply IH; [|done..]. intros y Hy. apply Himp.
      by apply list_elem_of_further. }
    destruct (decide (P x)), (decide (Q x)); simpl; tauto || lia.
Qed.

(** Removing one element of a duplicate-free list from the filter. *)
Lemma length_filter_remove (P Q : Z → Prop) `{∀ x, Decision (P x)}
    `{∀ x, Decision (Q x)} (l : list Z) m :
  NoDup l → m ∈ l → P m → ¬ Q m →
  (∀ x, x ∈ l → x ≠ m → (P x ↔ Q x)) →
  length (filter P l) = S (length (filter Q l)).
Proof.
  induction l as [|x l IH]; intros Hnd Hm HP HQ Hext.
  { by apply not_elem_of_nil in Hm. }
  apply NoDup_cons in Hnd as [Hx Hnd]. rewrite !filter_cons.
  apply elem_of_cons in Hm as [<-|Hm].
  - destruct (decide (P m)), (decide (Q m)); try tauto. simpl.
    f_equal. apply length_filter_ext_in. intros y Hy. apply Hext.
    + by apply list_elem_of_further.
    + intros ->. done.
  - assert (length (filter P l) = S (length (filter Q l))) as Hl.
    { apply IH; [done..|]. intros y Hy. apply Hext.
      by apply list_elem_of_further. }
    assert (x ≠ m) as Hxm by (intros ->; done).
    pose proof (Hext x (list_elem_of_here _ _) Hxm) as Hiff.
    destruct (decide (P x)), (decide (Q x)); simpl; tauto || lia.
Qed.

Lemma unstamped_insert (R : list Z) b (sid : list Z) m v :
  node R m → root_of R m = b →
  sid !! Z.to_nat m = Some v → v ≠ b →
  unstamped R b sid = S (unstamped R b (<[Z.to_nat m := b]> sid)).
Proof.
  intros Hm Hroot Hv Hne. unfold unstamped.
  apply (length_filter_remove _ _ _ m).
  - apply NoDup_seqZ.
  - apply elem_of_seqZ. unfold node in Hm. lia.
  - split; [done|]. unfold stamped. congruence.
  - intros [_ Hns]. apply Hns. unfold stamped.
    apply list_lookup_insert_eq. by eapply lookup_lt_Some.
  - intros x Hx%elem_of_seqZ Hxm. unfold stamped, node in *.
    rewrite list_lookup_insert_ne by lia. done.
Qed.

(** The nodes draining to a base level are the nodes of its preorder
    sequence. *)
Lemma subtree_count (R : list Z) b :
  forest R → node R b → base R b →
  length (filter (λ x, root_of R x = b) (seqZ 0 (Z.of_nat (length R))))
  = length (preorder R b).
Proof.
  intros HF Hb Hbase. apply Permutation_length, NoDup_Permutation.
  - apply NoDup_filter, NoDup_seqZ.
  - by apply NoDup_preorder.
  - intros x. rewrite list_elem_of_filter, elem_of_seqZ.
    rewrite (elem_of_preorder R HF b x Hb), (in_subtree_root R HF b x Hbase).
    unfold node. split; intros; split; try tauto; lia.
Qed.

Lemma unstamped_room (R : list Z) b (sid : list Z) :
  forest R → node R b → base R b → stamped b sid b →
  (unstamped R b sid < length (preorder R b))%nat.
Proof.
  intros HF Hb Hbase Hsb. rewrite <- (subtree_count R b HF Hb Hbase).
  unfold unstamped. apply (length_filter_lt _ _ _ b).
  - intros x _ [Hx _]. done.
  - apply elem_of_seqZ. unfold node in Hb. lia.
  - by apply root_of_base.
  - intros [_ Hns]. done.
Qed.

Lemma stamped_insert b (sid : list Z) m x :
  stamped b sid x → stamped b (<[m := b]> sid) x.
Proof.
  unfold stamped. intros Hx.
  destruct (decide (m = Z.to_nat x)) as [->|Hne].
  - rewrite list_lookup_insert_eq; [done|]. by eapply lookup_lt_Some.
  - by rewrite list_lookup_insert_ne.
Qed.

Lemma scan_donors_seqZ b (D s sid : list Z) inc lo (n : nat) :
  0 ≤ lo → lo + Z.of_nat n ≤ Z.of_nat (length D) →
  Forall (λ m, 0 ≤ m < Z.of_nat (length sid)) (take n (drop (Z.to_nat lo) D)) →
  (Forall (stamped b sid) (take n (drop (Z.to_nat lo) D)) ∧
   scan_donors b D (seqZ lo (Z.of_nat n)) s sid inc = Ret (None, s, sid, inc)) ∨
  (∃ ms1 m ms2 v,
     take n (drop (Z.to_nat lo) D) = ms1 ++ m :: ms2 ∧
     Forall (stamped b sid) ms1 ∧
     sid !! Z.to_nat m = Some v ∧ v ≠ b ∧
     scan_donors b D (seqZ lo (Z.of_nat n)) s sid inc
     = (s' ← setitem_njit s (inc + 1) m;
        Ret (Some m, s', <[Z.to_nat m := b]> sid, inc + 1))).
Proof.
  revert lo. induction n as [|n IH]; intros lo Hlo Hn Hms.
  { left. rewrite take_0. split; [constructor|done]. }
  rewrite seqZ_cons by lia.
  assert (is_Some (D !! Z.to_nat lo)) as [m Hm]
    by (apply lookup_lt_is_Some; lia).
  rewrite (drop_S _ _ _ Hm) in *. cbn [take] in *.
  apply Forall_cons in Hms as [Hm_range Hms].
  cbn [scan_donors]. rewrite (getitem_njit_Ret D lo m) by done. rewrite bind_Ret.
  assert (is_Some (sid !! Z.to_nat m)) as [v Hv]
    by (apply lookup_lt_is_Some; lia).
  rewrite (getitem_njit_Ret sid m v) by (done || lia). rewrite bind_Ret.
  destruct (decide (v = b)) as [->|Hne].
  - rewrite bool_decide_false by (intros ?; done).
    replace (Z.pred (Z.of_nat (S n))) with (Z.of_nat n) by lia.
    replace (S (Z.to_nat lo)) with (Z.to_nat (Z.succ lo)) in * by lia.
    destruct (IH (Z.succ lo)) as [[Hall Hrun]|Hfound]; [lia|lia|done|..].
    + left. split; [by constructor|done].
    + right.
      destruct Hfound as (ms1 & m' & ms2 & v' & Heq & Hall & Hv' & Hne & Hrun).
      exists (m :: ms1), m', ms2, v'. rewrite Heq.
      split; [done|]. split; [by constructor|]. done.
  - right. rewrite bool_decide_true by done.
    exists [], m, (take n (drop (S (Z.to_nat lo)) D)), v.
    split; [done|]. split; [constructor|]. split; [done|]. split; [done|].
    cbn zeta. destruct (setitem_njit s (inc + 1) m) as [s'| | |]; [|done..].
    rewrite !bind_Ret. rewrite setitem_njit_Ret by lia. done.
Qed.

(** The scan of a donor segment: it finds the first donor without the
    stamp, or there is none. *)
Lemma scan_donors_spec b (D s sid : list Z) inc lo hi :
  0 ≤ lo → lo ≤ hi → hi ≤ Z.of_nat (length D) →
  Forall (λ m, 0 ≤ m < Z.of_nat (length sid)) (slice D lo hi) →
  (Forall (stamped b sid) (slice D lo hi) ∧
   scan_donors b D (range lo hi) s sid inc = Ret (None, s, sid, inc)) ∨
  (∃ ms1 m ms2 v,
     slice D lo hi = ms1 ++ m :: ms2 ∧ Forall (stamped b sid) ms1 ∧
     sid !! Z.to_nat m = Some v ∧ v ≠ b ∧
     scan_donors b D (range lo hi) s sid inc
     = (s' ← setitem_njit s (inc + 1) m;
        Ret (Some m, s', <[Z.to_nat m := b]> sid, inc + 1))).
Proof.
  intros Hlo Hhi Hlen Hms. unfold range, slice in *.
  replace (hi - lo) with (Z.of_nat (Z.to_nat (hi - lo))) by lia.
  rewrite Nat2Z.id. apply scan_donors_seqZ; [done|lia|done].
Qed.

(** The donor segment of a node as the compiled code reads it. *)
Lemma donor_segment_njit (R delta D : list Z) (Hadj : adjacency R delta D) n :
  node R n →
  ∃ lo hi, getitem_njit delta n = Ret lo ∧
           getitem_njit delta (n + 1) = Ret hi ∧
           0 ≤ lo ∧ lo ≤ hi ∧ hi ≤ Z.of_nat (length D) ∧
           slice D lo hi = donors R n.
Proof.
  intros Hn.
  destruct (donor_segment R delta D Hadj n Hn)
    as (lo & hi & Hlo & Hhi & H).
  exists lo, hi. split; [by apply getitem_njit_checked|].
  split; [by apply getitem_njit_checked|done].
Qed.

Section build_stack_nr.
Context (R delta D : list Z) (b : Z).
Context (HF : forest R) (Hadj : adjacency R delta D).

Lemma getitem_rcv n : node R n → getitem_njit R n = Ret (rcv R n).
Proof.
  intros Hn. unfold node in Hn. apply getitem_njit_Ret; [lia|].
  apply list_lookup_lookup_total_lt. lia.
Qed.

Lemma donors_before n ms1 m ms2 c :
  donors R n = ms1 ++ m :: ms2 → c ∈ donors R n → c < m → c ∈ ms1.
Proof.
  intros Heq Hc Hlt. pose proof (donors_sorted R n) as Hs.
  rewrite Heq in Hs, Hc.
  apply elem_of_app in Hc as [Hc|Hc]; [done|].
  apply StronglySorted_app_1_r, StronglySorted_cons in Hs as [Hs _].
  apply elem_of_cons in Hc as [->|Hc]; [lia|].
  pose proof (proj1 (Forall_forall _ _) Hs c Hc). lia.
Qed.

(** One turn of the loop is one step of the relation. *)
Lemma nr_body_step st :
  nr_inv R b st →
  ∃ st', nr_body b R D delta st = Ret st' ∧ nr_step R b st st'.
Proof.
  destruct st as [n n_prev s sid inc].
  intros [Hn Hroot Hpath Hls Hlid Hinc Hroom]; simpl in *.
  unfold nr_body; simpl.
  destruct (donor_segment_njit R delta D Hadj n Hn)
    as (lo & hi & -> & -> & Hlo & Hhi & HlenD & Hs).
  rewrite !bind_Ret.
  destruct (scan_donors_spec b D s sid inc lo hi Hlo Hhi HlenD)
    as [[Hall ->]|(ms1 & m & ms2 & v & Heq & Hall & Hv & Hne & ->)].
  - rewrite Hs. apply Forall_forall. intros m [Hm _]%elem_of_donors.
    unfold node in Hm. lia.
  - rewrite bind_Ret, (getitem_rcv n Hn), bind_Ret.
    eexists; split; [done|]. constructor.
    intros c Hc. rewrite Hs in Hall.
    by apply (proj1 (Forall_forall _ _) Hall).
  - rewrite Hs in Heq.
    assert (m ∈ donors R n) as Hm
      by (rewrite Heq, elem_of_app, elem_of_cons; auto).
    assert (m ∈ children R n) as Hc.
    { unfold children. apply list_elem_of_filter. split; [|done].
      intros ->. specialize (Hpath 0%nat). unfold stamped in Hpath.
      simpl in Hpath. congruence. }
    apply elem_of_donors in Hm as [Hnm Hr].
    assert (root_of R m = b) as Hrm
      by (by rewrite <- (root_of_rcv R HF m Hnm), Hr).
    pose proof (unstamped_insert R b sid m v Hnm Hrm Hv Hne) as Hu.
    rewrite setitem_njit_Ret by lia. rewrite bind_Ret.
    eexists; split; [done|]. econstructor; [done..|].
    intros c Hcd Hlt.
    apply (proj1 (Forall_forall _ _) Hall).
    by eapply donors_before.
Qed.

Lemma nr_step_inv st st' : nr_inv R b st → nr_step R b st st' → nr_inv R b st'.
Proof.
  intros [Hn Hroot Hpath Hls Hlid Hinc Hroom] Hstep.
  destruct Hstep as [n n_prev s sid inc m v Hm Hv Hne _|n n_prev s sid inc _];
    simpl in *.
  - pose proof (child_node R n m Hm) as Hnm.
    apply elem_of_children in Hm as (_ & Hr & _).
    assert (root_of R m = b) as Hrm
      by (by rewrite <- (root_of_rcv R HF m Hnm), Hr).
    pose proof (unstamped_insert R b sid m v Hnm Hrm Hv Hne) as Hu.
    split; simpl; [done|done| |by rewrite length_insert..|lia|lia].
    intros [|k]; simpl.
    + unfold stamped. apply list_lookup_insert_eq.
      by eapply lookup_lt_Some.
    + rewrite Hr. by apply stamped_insert.
  - split; simpl; [by apply forest_rcv_node| | |done..].
    + by rewrite (root_of_rcv R HF n Hn).
    + intros k. apply (Hpath (S k)).
Qed.

Lemma nr_step_measure st st' :
  nr_inv R b st → nr_step R b st st' →
  nr_n st' = nr_n_prev st' ∨ (nr_measure R b st' < nr_measure R b st)%nat.
Proof.
  intros [Hn Hroot Hpath Hls Hlid Hinc Hroom] Hstep.
  destruct Hstep as [n n_prev s sid inc m v Hm Hv Hne _|n n_prev s sid inc _];
    simpl in *; unfold nr_measure; simpl.
  - right. pose proof (child_node R n m Hm) as Hnm.
    pose proof (depth_lt R HF m Hnm).
    apply elem_of_children in Hm as (_ & Hr & _).
    assert (root_of R m = b) as Hrm
      by (by rewrite <- (root_of_rcv R HF m Hnm), Hr).
    rewrite (unstamped_insert R b sid m v Hnm Hrm Hv Hne). nia.
  - destruct (decide (base R n)) as [Hb|Hb]; [by left|right].
    rewrite (depth_rcv R HF n Hn Hb). lia.
Qed.

(** The rule of the main loop: it ends, in a state where the invariant
    holds together with every property [J] that the steps keep. *)
Lemma nr_loop_rule (J : nr_state → Prop) :
  (∀ st st', nr_inv R b st → J st → nr_step R b st st' → J st') →
  ∀ fuel st,
    nr_inv R b st → J st → (nr_measure R b st + 1 < fuel)%nat →
    ∃ st', nr_loop fuel b R D delta st = Ret st' ∧
           nr_inv R b st' ∧ J st' ∧ nr_n st' = nr_n_prev st'.
Proof.
  intros HJ fuel. induction fuel as [|fuel IH]; intros st Hinv HJst Hfuel.
  { lia. }
  simpl. case_bool_decide as Hcond; [|by exists st].
  destruct (nr_body_step st Hinv) as (st1 & -> & Hstep).
  rewrite bind_Ret.
  pose proof (nr_step_inv st st1 Hinv Hstep) as Hinv1.
  pose proof (HJ st st1 Hinv HJst Hstep) as HJ1.
  destruct (nr_step_measure st st1 Hinv Hstep) as [Hexit|Hlt].
  - exists st1. destruct fuel as [|fuel]; [lia|]. simpl.
    rewrite bool_decide_false by (intros ?; done). done.
  - apply IH; [done..|lia].
Qed.

(** A state has one successor. *)
Lemma nr_step_det st st1 st2 :
  nr_step R b st st1 → nr_step R b st st2 → st1 = st2.
Proof.
  intros H1 H2.
  destruct H1 as [n n_prev s sid inc m1 v1 Hm1 Hv1 Hne1 Hlt1
                 |n n_prev s sid inc Hall1];
    inversion H2 as [? ? ? ? ? m2 v2 Hm2 Hv2 Hne2 Hlt2|? ? ? ? ? Hall2];
    subst; try done.
  - assert (m1 = m2) as ->; [|done].
    apply (proj1 (list_elem_of_filter _ _ _)) in Hm1 as [_ Hd1].
    apply (proj1 (list_elem_of_filter _ _ _)) in Hm2 as [_ Hd2].
    destruct (Z.lt_trichotomy m1 m2) as [Hlt|[Heq|Hlt]]; [|done|].
    + specialize (Hlt2 m1 Hd1 Hlt). unfold stamped in Hlt2. congruence.
    + specialize (Hlt1 m2 Hd2 Hlt). unfold stamped in Hlt1. congruence.
  - apply (proj1 (list_elem_of_filter _ _ _)) in Hm1 as [_ Hd1].
    specialize (Hall2 m1 Hd1). unfold stamped in Hall2. congruence.
  - apply (proj1 (list_elem_of_filter _ _ _)) in Hm2 as [_ Hd2].
    specialize (Hall1 m2 Hd2). unfold stamped in Hall1. congruence.
Qed.

Lemma nr_steps_trans st1 st2 st3 :
  nr_steps R b st1 st2 → nr_steps R b st2 st3 → nr_steps R b st1 st3.
Proof.
  induction 1 as [|st st1 st2 Hne Hstep _ IH]; [done|].
  intros H23. eapply nr_steps_step; [done..|]. by apply IH.
Qed.

Lemma nr_steps_inv st st' :
  nr_steps R b st st' → nr_inv R b st → nr_inv R b st'.
Proof.
  induction 1 as [|st st1 st2 Hne Hstep _ IH]; [done|].
  intros Hinv. apply IH. by eapply nr_step_inv.
Qed.

(** Turns of the relation are turns of the loop. *)
Lemma nr_steps_loop st st' :
  nr_steps R b st st' → nr_inv R b st →
  ∃ k, ∀ fuel, nr_loop (k + fuel) b R D delta st = nr_loop fuel b R D delta st'.
Proof.
  induction 1 as [|st st1 st2 Hne Hstep _ IH]; intros Hinv.
  { by exists 0%nat. }
  destruct IH as [k Hk]; [by eapply nr_step_inv|].
  exists (S k). intros fuel. simpl.
  rewrite bool_decide_true by done.
  destruct (nr_body_step st Hinv) as (st1' & -> & Hstep').
  rewrite bind_Ret, (nr_step_det st st1' st1 Hstep' Hstep). apply Hk.
Qed.
End build_stack_nr.

Section build_stack_nr_result.
Context (R delta D : list Z) (b : Z).
Context (HF : forest R) (Hadj : adjacency R delta D).
Context (Hb : node R b) (Hbase : base R b).

Lemma nr_init_inv (s sid : list Z) inc :
  length s = length R → length sid = length R → 0 ≤ inc →
  inc + Z.of_nat (length (preorder R b)) ≤ Z.of_nat (length R) →
  nr_inv R b (NrState b (-1) (<[Z.to_nat inc := b]> s)
                (<[Z.to_nat b := b]> sid) inc).
Proof.
  intros Hls Hlid Hinc Hroom. unfold node in Hb.
  assert (stamped b (<[Z.to_nat b := b]> sid) b) as Hsb
    by (unfold stamped; apply list_lookup_insert_eq; lia).
  split; simpl; [done|by apply root_of_base|
                 |by rewrite length_insert..|done|].
  - intros k. by rewrite (base_downstream R k b Hbase).
  - pose proof (unstamped_room R b _ HF Hb Hbase Hsb). lia.
Qed.

Lemma nr_init_measure (sid : list Z) :
  length sid = length R →
  (nr_measure R b (NrState b (-1) [] (<[Z.to_nat b := b]> sid) 0) + 1
     ≤ length R * length R)%nat.
Proof.
  intros Hlid. unfold nr_measure. simpl.
  rewrite (depth_base R HF b Hb Hbase).
  assert (stamped b (<[Z.to_nat b := b]> sid) b) as Hsb
    by (unfold stamped, node in *; apply list_lookup_insert_eq; lia).
  pose proof (unstamped_room R b _ HF Hb Hbase Hsb) as Hu.
  pose proof (length_preorder_aux R HF (length R) b Hb ltac:(lia)) as Hp.
  fold (preorder R b) in Hp. nia.
Qed.

Lemma build_stack_nr_run (J : nr_state → Prop) (s sid : list Z) inc fuel :
  (∀ st st', nr_inv R b st → J st → nr_step R b st st' → J st') →
  length s = length R → length sid = length R → 0 ≤ inc →
  inc + Z.of_nat (length (preorder R b)) ≤ Z.of_nat (length R) →
  (length R * length R < fuel)%nat →
  J (NrState b (-1) (<[Z.to_nat inc := b]> s) (<[Z.to_nat b := b]> sid) inc) →
  ∃ st', _build_stack_nr fuel b R D delta s sid inc
           = Ret (nr_s st', nr_stack_id st', nr_inc st') ∧
         nr_inv R b st' ∧ J st' ∧ nr_n st' = nr_n_prev st'.
Proof.
  intros HJ Hls Hlid Hinc Hroom Hfuel HJ0.
  pose proof (NoDup_preorder R HF b Hb) as Hnd.
  assert (0 < length (preorder R b))%nat as Hpos.
  { unfold preorder. unfold node in Hb.
    destruct (length R) as [|N] eqn:HN; [lia|]. simpl. lia. }
  unfold _build_stack_nr. unfold node in Hb.
  rewrite (setitem_njit_Ret s inc b) by lia. rewrite bind_Ret.
  rewrite (setitem_njit_Ret sid b b) by lia. rewrite bind_Ret.
  destruct (nr_loop_rule R delta D b HF Hadj J HJ fuel
    (NrState b (-1) (<[Z.to_nat inc := b]> s) (<[Z.to_nat b := b]> sid) inc))
    as (st' & -> & Hinv & HJ' & Hexit).
  - by apply nr_init_inv.
  - done.
  - pose proof (nr_init_measure sid Hlid) as Hm.
    unfold nr_measure in *. simpl in *. lia.
  - exists st'. by rewrite bind_Ret.
Qed.

Lemma nr_closed_step sid0 st st' :
  nr_inv R b st → nr_closed R b sid0 st → nr_step R b st st' →
  nr_closed R b sid0 st'.
Proof.
  intros [Hn Hroot Hpath _ Hlid _ _] [Hdon Hframe Hexit] Hstep.
  destruct Hstep as [n n_prev s sid inc m v Hm Hv Hne _|n n_prev s sid inc Hall];
    simpl in *.
  - pose proof (child_node R n m Hm) as Hnm.
    apply elem_of_children in Hm as (_ & Hr & Hmn).
    split; simpl.
    + intros x Hx Hsx. destruct (decide (x = m)) as [->|Hxm].
      { left. by exists 0%nat. }
      unfold stamped in Hsx. unfold node in Hx, Hnm.
      rewrite list_lookup_insert_ne in Hsx by lia.
      destruct (Hdon x Hx Hsx) as [[k Hk]|Hcl].
      * left. exists (S k). simpl. by rewrite Hr.
      * right. intros y Hy. by apply stamped_insert, Hcl.
    + intros x Hx Hrx. unfold node in Hx, Hnm.
      rewrite list_lookup_insert_ne; [by apply Hframe|].
      intros Heq. apply Hrx.
      assert (x = m) as -> by lia.
      by rewrite <- (root_of_rcv R HF m Hnm), Hr.
    + done.
  - split; simpl.
    + intros x Hx Hsx. destruct (Hdon x Hx Hsx) as [[[|k] Hk]|Hcl].
      * right. simpl in Hk. by subst x.
      * left. by exists k.
      * by right.
    + done.
    + intros Heq. rewrite Heq. done.
Qed.

(** When every stamped node has its donors stamped, the whole subtree of a
    stamped base level is stamped. *)
Lemma closed_subtree (sid : list Z) :
  (∀ x, node R x → stamped b sid x → ∀ y, y ∈ donors R x → stamped b sid y) →
  stamped b sid b →
  ∀ x, node R x → root_of R x = b → stamped b sid x.
Proof.
  intros Hcl Hsb x. remember (depth R x) as d eqn:Hd.
  revert x Hd. induction d as [|d IH]; intros x Hd Hx Hroot.
  - symmetry in Hd. apply (depth_0_base R HF x Hx) in Hd.
    rewrite (root_of_base R x Hd) in Hroot. by rewrite Hroot.
  - assert (¬ base R x) as Hnb.
    { intros Hbx. rewrite (depth_base R HF x Hx Hbx) in Hd. lia. }
    pose proof (forest_rcv_node R HF x Hx) as Hrx.
    apply (Hcl (rcv R x) Hrx).
    + apply IH; [|done|by rewrite (root_of_rcv R HF x Hx)].
      rewrite (depth_rcv R HF x Hx Hnb) in Hd. lia.
    + by apply elem_of_donors.
Qed.

(** The stamps after one call: the subtree of [b] carries the stamp of
    [b], every other cell is as before. *)
Lemma build_stack_nr_stamps (s sid0 : list Z) inc fuel :
  length s = length R → length sid0 = length R → 0 ≤ inc →
  inc + Z.of_nat (length (preorder R b)) ≤ Z.of_nat (length R) →
  (length R * length R < fuel)%nat →
  (∀ x, node R x → stamped b sid0 x →
        ∀ y, y ∈ donors R x → stamped b sid0 y) →
  ∃ s' sid' inc',
    _build_stack_nr fuel b R D delta s sid0 inc = Ret (s', sid', inc') ∧
    length s' = length R ∧ length sid' = length R ∧
    ∀ x, node R x →
      sid' !! Z.to_nat x
      = if decide (root_of R x = b) then Some b else sid0 !! Z.to_nat x.
Proof.
  intros Hls Hlid Hinc Hroom Hfuel Hpre.
  destruct (build_stack_nr_run (nr_closed R b (<[Z.to_nat b := b]> sid0))
              s sid0 inc fuel)
    as (st' & Hrun & Hinv & Hcl & Hexit); try done.
  { intros st st'. apply nr_closed_step. }
  { split; simpl.
    - intros x Hx Hsx. destruct (decide (x = b)) as [->|Hxb].
      { left. by exists 0%nat. }
      right. unfold stamped in Hsx. unfold node in Hx, Hb.
      rewrite list_lookup_insert_ne in Hsx by lia.
      intros y Hy. by apply stamped_insert, (Hpre x).
    - done.
    - intros Heq. unfold node in Hb. lia. }
  exists (nr_s st'), (nr_stack_id st'), (nr_inc st').
  destruct Hinv as [Hn Hroot Hpath Hls' Hlid' _ _].
  destruct Hcl as [Hdon Hframe Hex].
  destruct (Hex Hexit) as [Hbn Hall].
  assert (nr_n st' = b) as Hnb
    by (by rewrite (root_of_base R _ Hbn) in Hroot).
  rewrite Hnb in *.
  split; [done|]. split; [done|]. split; [done|].
  intros x Hx. destruct (decide (root_of R x = b)) as [Hrx|Hrx].
  - apply closed_subtree; [|apply (Hpath 0%nat)|done..].
    intros z Hz Hsz. destruct (Hdon z Hz Hsz) as [[k Hk]|Hclz]; [|done].
    rewrite (base_downstream R k b Hbase) in Hk. by subst z.
  - rewrite (Hframe x Hx Hrx). unfold node in Hx, Hb.
    apply list_lookup_insert_ne. intros Heq. apply Hrx.
    assert (x = b) as -> by lia. by apply root_of_base.
Qed.
End build_stack_nr_result.

(** C7: on a well-formed forest, with [delta] and [D] from the adjacency
    builder, the non-recursive builder called on a root [b] with
    [R[b] = b], arrays of length [N] and a write position [inc] that leaves
    room in [s] for the subtree of [b] returns: its main loop ends within
    [N * N] turns, whatever the stamps it starts from. *)
Theorem build_stack_nr_terminates (R nd delta D w s stack_id : list Z)
    (b inc : Z) (fuel : nat) :
  forest R →
  temp_arrays R = Ret (nd, delta, D, w) →
  node R b → base R b →
  length s = length R → length stack_id = length R →
  0 ≤ inc →
  inc + Z.of_nat (length (preorder R b)) ≤ Z.of_nat (length R) →
  (length R * length R < fuel)%nat →
  ∃ s' stack_id' inc',
    _build_stack_nr fuel b R D delta s stack_id inc = Ret (s', stack_id', inc').
Proof.
  intros HF Hrun Hb Hbase Hls Hlid Hinc Hroom Hfuel.
  pose proof (temp_arrays_adjacency R nd delta D w (proj1 HF) Hrun) as Hadj.
  destruct (build_stack_nr_run R delta D b HF Hadj Hb Hbase (λ _, True)
              s stack_id inc fuel) as (st' & Hst' & _); try done.
  by exists (nr_s st'), (nr_stack_id st'), (nr_inc st').
Qed.

Lemma build_stack_nr_terminates_witness :
  ∃ s' stack_id' inc',
    _build_stack_nr 101 4 example_receivers [0; 2; 1; 4; 5; 7; 6; 3; 8; 9]
      [0; 0; 2; 2; 2; 6; 7; 9; 10; 10; 10] (zeros 10) (replicate 10 (-1)) 0
    = Ret (s', stack_id', inc').
Proof.
  apply (build_stack_nr_terminates example_receivers
    [0; 2; 0; 0; 4; 1; 2; 1; 0; 0] [0; 0; 2; 2; 2; 6; 7; 9; 10; 10; 10]
    [0; 2; 1; 4; 5; 7; 6; 3; 8; 9] [0; 2; 0; 0; 4; 1; 2; 1; 0; 0]).
  - apply forestb_forest. vm_compute. reflexivity.
  - vm_compute. reflexivity.
  - unfold node. simpl. lia.
  - reflexivity.
  - reflexivity.
  - reflexivity.
  - lia.
  - vm_compute. discriminate.
  - simpl. lia.
Defined.

(** ** The driver in non-recursive mode *)

Lemma bstack_step_nr limit fuel R D delta b s sid inc :
  bstack_step limit fuel "non-recursive" R D delta b (s, sid, inc)
  = ('(s, sid, inc) ← _build_stack_nr fuel b R D delta s sid 0;
     Ret (s, sid, inc + 1)).
Proof. reflexivity. Qed.

Section driver_nr.
Context (R delta D : list Z) (limit fuel : nat).
Context (HF : forest R) (Hadj : adjacency R delta D).
Context (Hfuel : (length R * length R < fuel)%nat).

Lemma driver_nr_loop (roots seen s sid : list Z) inc :
  Forall (λ b, node R b ∧ base R b) roots →
  length s = length R → length sid = length R →
  (∀ x, node R x →
     sid !! Z.to_nat x
     = Some (if decide (root_of R x ∈ seen) then root_of R x else -1)) →
  ∃ s' sid' inc',
    for_ roots (bstack_step limit fuel "non-recursive" R D delta)
      (s, sid, inc) = Ret (s', sid', inc') ∧
    length s' = length R ∧ length sid' = length R ∧
    ∀ x, node R x →
      sid' !! Z.to_nat x
      = Some (if decide (root_of R x ∈ seen ++ roots)
              then root_of R x else -1).
Proof.
  intros Hroots. revert seen s sid inc.
  induction Hroots as [|b roots [Hb Hbase] _ IH];
    intros seen s sid inc Hls Hlid Hsid.
  { exists s, sid, inc. rewrite app_nil_r. done. }
  rewrite for_cons, bstack_step_nr.
  destruct (build_stack_nr_stamps R delta D b HF Hadj Hb Hbase s sid 0 fuel)
    as (s1 & sid1 & inc1 & -> & Hls1 & Hlid1 & Hsid1); try done.
  { pose proof (length_preorder_aux R HF (length R) b Hb ltac:(lia)) as Hp.
    fold (preorder R b) in Hp. lia. }
  { intros x Hx Hsx y [Hy Hr]%elem_of_donors. unfold stamped in *.
    rewrite (Hsid x Hx) in Hsx. rewrite (Hsid y Hy).
    rewrite <- (root_of_rcv R HF y Hy), Hr.
    destruct (decide (root_of R x ∈ seen)); [done|].
    unfold node in Hb. injection Hsx as Hsx. lia. }
  rewrite !bind_Ret.
  destruct (IH (seen ++ [b]) s1 sid1 (inc1 + 1) Hls1 Hlid1)
    as (s' & sid' & inc' & Hrun & Hls' & Hlid' & Hsid').
  { intros x Hx. rewrite (Hsid1 x Hx), (Hsid x Hx).
    destruct (decide (root_of R x = b)) as [Hr|Hr].
    - rewrite decide_True; [by rewrite Hr|].
      rewrite elem_of_app, list_elem_of_singleton. by right.
    - f_equal. destruct (decide (root_of R x ∈ seen)) as [Hin|Hin].
      + rewrite decide_True; [done|]. rewrite elem_of_app. by left.
      + rewrite decide_False; [done|].
        rewrite elem_of_app, list_elem_of_singleton. tauto. }
  exists s', sid', inc'. rewrite <- (assoc_L (++)) in Hsid'. done.
Qed.
End driver_nr.

(** C9: on a well-formed forest, the driver run in non-recursive mode over
    any sequence of roots [b] with [R[b] = b] returns a [stack_id] array in
    which every node of a supplied root's subtree holds that root's id and
    every other node still holds [-1]; the array is carried from one root
    to the next without being reset. *)
Theorem stack_ids_are_roots (R baselevels : list Z) (limit fuel : nat) :
  forest R →
  Forall (λ b, node R b ∧ base R b) baselevels →
  (length R * length R < fuel)%nat →
  ∃ s stack_id,
    order_nodes_numba limit fuel R baselevels "non-recursive" true
      = Ret (StackAndIds s stack_id) ∧
    length stack_id = length R ∧
    ∀ x, node R x →
      stack_id !! Z.to_nat x
      = Some (if decide (root_of R x ∈ baselevels) then root_of R x else -1).
Proof.
  intros HF Hroots Hfuel. unfold order_nodes_numba.
  destruct (calculate_temp_arrays_adjacency R (proj1 HF))
    as (nd & delta & D & w & -> & Hadj).
  rewrite bind_Ret.
  destruct (driver_nr_loop R delta D limit fuel HF Hadj Hfuel baselevels []
              (zeros (length R)) (replicate (length R) (-1)) 0 Hroots)
    as (s & sid & inc & -> & Hls & Hlid & Hsid).
  - unfold zeros. by rewrite length_replicate.
  - by rewrite length_replicate.
  - intros x Hx. rewrite decide_False by (by apply not_elem_of_nil).
    apply lookup_replicate_2. unfold node in Hx. lia.
  - rewrite bind_Ret. simpl. exists s, sid. done.
Qed.

Lemma stack_ids_are_roots_witness :
  ∃ s stack_id,
    order_nodes_numba 0 50 [0; 0; 2; 2; 4; 4] [2; 0] "non-recursive" true
      = Ret (StackAndIds s stack_id) ∧
    length stack_id = 6%nat ∧
    ∀ x, node [0; 0; 2; 2; 4; 4] x →
      stack_id !! Z.to_nat x
      = Some (if decide (root_of [0; 0; 2; 2; 4; 4] x ∈ [2; 0])
              then root_of [0; 0; 2; 2; 4; 4] x else -1).
Proof.
  apply (stack_ids_are_roots [0; 0; 2; 2; 4; 4] [2; 0] 0 50).
  - apply forestb_forest. vm_compute. reflexivity.
  - repeat constructor; unfold node; simpl; lia.
  - simpl. lia.
Defined.
(** ** More recursion depth or more loop turns do not change a result *)

Lemma for_mono {St} (f g : Z → St → outcome St) l st v :
  (∀ i st v, f i st = Ret v → g i st = Ret v) →
  for_ l f st = Ret v → for_ l g st = Ret v.
Proof.
  intros Hfg. revert st. induction l as [|i l IH]; intros st; [done|].
  rewrite !for_cons. destruct (f i st) as [st'| | |] eqn:Hf; [|done..].
  rewrite (Hfg _ _ _ Hf), !bind_Ret. apply IH.
Qed.

Lemma build_stack_mono limit limit' n D delta s inc v :
  (limit ≤ limit')%nat →
  _build_stack limit n D delta s inc = Ret v →
  _build_stack limit' n D delta s inc = Ret v.
Proof.
  revert limit' n s inc v.
  induction limit as [|limit IH]; intros limit' n s inc v Hle; [done|].
  destruct limit' as [|limit']; [lia|]. cbn [_build_stack].
  destruct (setitem s inc n) as [s1| | |]; [|done..]. rewrite !bind_Ret.
  destruct (getitem delta n) as [lo| | |]; [|done..]. rewrite !bind_Ret.
  destruct (getitem delta (n + 1)) as [hi| | |]; [|done..]. rewrite !bind_Ret.
  apply for_mono. intros i [s2 inc2] v2.
  destruct (getitem D i) as [m| | |]; [|done..]. rewrite !bind_Ret.
  case_bool_decide; [|done]. apply IH. lia.
Qed.

Lemma nr_loop_mono fuel fuel' b r D delta st st' :
  (fuel ≤ fuel')%nat →
  nr_loop fuel b r D delta st = Ret st' →
  nr_loop fuel' b r D delta st = Ret st'.
Proof.
  revert fuel' st. induction fuel as [|fuel IH]; intros fuel' st Hle; [done|].
  destruct fuel' as [|fuel']; [lia|]. cbn [nr_loop].
  case_bool_decide; [|done].
  destruct (nr_body b r D delta st) as [st1| | |]; [|done..].
  rewrite !bind_Ret. apply IH. lia.
Qed.

Lemma build_stack_nr_mono fuel fuel' b r D delta s sid inc v :
  (fuel ≤ fuel')%nat →
  _build_stack_nr fuel b r D delta s sid inc = Ret v →
  _build_stack_nr fuel' b r D delta s sid inc = Ret v.
Proof.
  intros Hle. unfold _build_stack_nr.
  destruct (setitem_njit s inc b) as [s1| | |]; [|done..]. rewrite !bind_Ret.
  destruct (setitem_njit sid b b) as [sid1| | |]; [|done..]. rewrite !bind_Ret.
  destruct (nr_loop fuel b r D delta _) as [st'| | |] eqn:Hloop; [|done..].
  by rewrite (nr_loop_mono _ _ _ _ _ _ _ _ Hle Hloop).
Qed.

Lemma order_nodes_numba_mono limit limit' fuel fuel' receivers baselevels
    mode out_stack_ids v :
  (limit ≤ limit')%nat → (fuel ≤ fuel')%nat →
  order_nodes_numba limit fuel receivers baselevels mode out_stack_ids = Ret v →
  order_nodes_numba limit' fuel' receivers baselevels mode out_stack_ids = Ret v.
Proof.
  intros Hl Hf. unfold order_nodes_numba.
  destruct (_calculate_temp_arrays _ _ _ _ _) as [[[[nd delta] D] w]| | |];
    [|done..].
  rewrite !bind_Ret.
  destruct (for_ baselevels (bstack_step limit fuel mode receivers D delta) _)
    as [st| | |] eqn:Hloop; [|done..].
  eapply (for_mono _ (bstack_step limit' fuel' mode receivers D delta)) in Hloop.
  { by rewrite Hloop. }
  intros b [[s sid] inc] st'. unfold bstack_step.
  repeat case_bool_decide; try done.
  - destruct (_build_stack limit b D delta s inc) as [[s1 inc1]| | |] eqn:Hb;
      [|done..].
    by rewrite (build_stack_mono _ _ _ _ _ _ _ _ Hl Hb).
  - destruct (_build_stack_nr fuel b receivers D delta s sid 0)
      as [[[s1 sid1] inc1]| | |] eqn:Hb; [|done..].
    by rewrite (build_stack_nr_mono _ _ _ _ _ _ _ _ _ _ Hf Hb).
Qed.

(** ** The worked example *)

(** C6: on the receivers [1,4,1,6,4,4,5,4,6,7] with the single root 4, the
    driver returns the stack [4,1,0,2,5,6,3,8,7,9] in recursive mode (from
    four nested calls on) and in non-recursive mode (from twenty loop tests
    on). *)
Theorem worked_example (k j : nat) :
  order_nodes_numba (4 + k) (20 + j) example_receivers [4] "recursive" false
    = Ret (Stack expected_order) ∧
  order_nodes_numba (4 + k) (20 + j) example_receivers [4] "non-recursive" false
    = Ret (Stack expected_order).
Proof.
  split; apply (order_nodes_numba_mono 4 (4 + k) 20 (20 + j)); try lia;
    vm_compute; reflexivity.
Qed.
(** ** The driver in recursive mode *)

Lemma before_app_l l k a b : before l a b → before (l ++ k) a b.
Proof.
  intros (l1 & l2 & l3 & ->). exists l1, l2, (l3 ++ k).
  by repeat (rewrite <- (assoc_L (++)); simpl).
Qed.

Lemma before_app_r l k a b : before l a b → before (k ++ l) a b.
Proof.
  intros (l1 & l2 & l3 & ->). exists (k ++ l1), l2, l3.
  by rewrite <- (assoc_L (++)).
Qed.

Lemma before_lookup l a b :
  before l a b → ∃ p q, l !! p = Some a ∧ l !! q = Some b ∧ (p < q)%nat.
Proof.
  intros (l1 & l2 & l3 & ->).
  exists (length l1), (length l1 + S (length l2))%nat.
  split; [by rewrite list_lookup_middle|]. split; [|lia].
  rewrite lookup_app_r by lia.
  replace (length l1 + S (length l2) - length l1)%nat
    with (S (length l2)) by lia.
  simpl. by rewrite list_lookup_middle.
Qed.

Lemma bstack_step_rec limit fuel R D delta b s sid inc :
  bstack_step limit fuel "recursive" R D delta b (s, sid, inc)
  = ('(s, inc) ← _build_stack limit b D delta s inc; Ret (s, sid, inc + 1)).
Proof. reflexivity. Qed.

Section driver_rec.
Context (R delta D : list Z) (limit fuel : nat).
Context (HF : forest R) (Hadj : adjacency R delta D).

Lemma preorder_receiver_first fuel' n x :
  node R n → (length R ≤ fuel' + depth R n)%nat →
  x ∈ preorder_aux R fuel' n → x ≠ n →
  before (preorder_aux R fuel' n) (rcv R x) x.
Proof.
  revert n x. induction fuel' as [|f IH]; intros n x Hn Hfuel Hx Hne.
  { by apply not_elem_of_nil in Hx. }
  simpl in *. apply elem_of_cons in Hx as [->|Hx]; [done|].
  apply list_elem_of_bind in Hx as (c & Hx & Hc).
  pose proof (child_node R n c Hc) as Hnc.
  assert (length R ≤ f + depth R c)%nat as Hfc
    by (rewrite (child_depth R HF n c Hc); lia).
  apply list_elem_of_split in Hc as Hsplit.
  destruct Hsplit as (cs1 & cs2 & Hcs). rewrite Hcs, bind_app, bind_cons.
  destruct (decide (x = c)) as [->|Hxc].
  - apply elem_of_children in Hc as (_ & -> & _).
    destruct f as [|f]; [by apply not_elem_of_nil in Hx|]. simpl.
    exists [], (cs1 ≫= preorder_aux R (S f)),
      ((children R c ≫= preorder_aux R f) ++ (cs2 ≫= preorder_aux R (S f))).
    simpl. by repeat (rewrite <- (assoc_L (++)); simpl).
  - apply (before_app_r _ [n]), before_app_r, before_app_l. by apply IH.
Qed.

Lemma driver_rec_loop (roots pre rest sid : list Z) :
  Forall (λ b, node R b ∧ (height R b ≤ limit)%nat) roots →
  (length pre + length rest = length R)%nat →
  (length (roots ≫= preorder R) ≤ length rest)%nat →
  for_ roots (bstack_step limit fuel "recursive" R D delta)
    (pre ++ rest, sid, Z.of_nat (length pre))
  = Ret (pre ++ (roots ≫= preorder R)
           ++ drop (length (roots ≫= preorder R)) rest,
         sid,
         Z.of_nat (length pre) + Z.of_nat (length (roots ≫= preorder R))).
Proof.
  intros Hroots. revert pre rest.
  induction Hroots as [|b roots [Hb Hlim] _ IH]; intros pre rest Hlen Hfit.
  { simpl. rewrite drop_0. do 2 f_equal. lia. }
  rewrite bind_cons, length_app in *. rewrite for_cons, bstack_step_rec.
  rewrite (build_stack_spec R delta D HF Hadj (length R) b limit pre rest);
    [|done|lia|done|done|unfold preorder in Hfit; lia].
  rewrite !bind_Ret. fold (preorder R b).
  set (P := preorder R b) in *.
  replace (Z.of_nat (length pre) + Z.of_nat (length P) - 1 + 1)
    with (Z.of_nat (length (pre ++ P))) by (rewrite length_app; lia).
  rewrite (assoc_L (++) pre P).
  rewrite IH; [|rewrite length_app, length_drop; lia|rewrite length_drop; lia].
  rewrite drop_drop, length_app, <- !(assoc_L (++)). do 2 f_equal. lia.
Qed.
End driver_rec.

(** The run of the driver in recursive mode. *)
Lemma recursive_mode_run (R baselevels : list Z) (limit fuel : nat)
    (out_stack_ids : bool) :
  forest R →
  Forall (λ b, node R b ∧ (height R b ≤ limit)%nat) baselevels →
  (length (baselevels ≫= preorder R) ≤ length R)%nat →
  order_nodes_numba limit fuel R baselevels "recursive" out_stack_ids
  = Ret (Stack ((baselevels ≫= preorder R)
                  ++ zeros (length R - length (baselevels ≫= preorder R)))).
Proof.
  intros HF Hroots Hfit. unfold order_nodes_numba.
  destruct (calculate_temp_arrays_adjacency R (proj1 HF))
    as (nd & delta & D & w & -> & Hadj).
  rewrite bind_Ret.
  pose proof (driver_rec_loop R delta D limit fuel HF Hadj baselevels []
                (zeros (length R)) (replicate (length R) (-1)) Hroots) as Hloop.
  change (Z.of_nat (length (@nil Z))) with 0 in Hloop.
  rewrite !app_nil_l, Z.add_0_l in Hloop. rewrite Hloop.
  - rewrite bind_Ret, andb_false_r. unfold zeros.
    by rewrite drop_replicate.
  - unfold zeros. by rewrite length_replicate.
  - unfold zeros. by rewrite length_replicate.
Qed.

Section all_roots.
Context (R baselevels : list Z) (HF : forest R).
Context (Hroots : baselevels ≡ₚ filter (base R) (seqZ 0 (Z.of_nat (length R)))).

Lemma elem_of_baselevels b : b ∈ baselevels ↔ node R b ∧ base R b.
Proof.
  rewrite Hroots, list_elem_of_filter, elem_of_seqZ. unfold node.
  split; intros; split; try tauto; lia.
Qed.

Lemma NoDup_all_preorders : NoDup (baselevels ≫= preorder R).
Proof.
  apply NoDup_bind.
  - intros b1 b2 x [Hb1 Hbase1]%elem_of_baselevels [Hb2 Hbase2]%elem_of_baselevels
      Hx1 Hx2.
    apply (elem_of_preorder R HF b1 x Hb1), in_subtree_root in Hx1; [|done..].
    apply (elem_of_preorder R HF b2 x Hb2), in_subtree_root in Hx2; [|done..].
    destruct Hx1 as [_ <-]. by destruct Hx2 as [_ <-].
  - intros b [Hb _]%elem_of_baselevels. by apply NoDup_preorder.
  - rewrite Hroots. apply NoDup_filter, NoDup_seqZ.
Qed.

Lemma all_preorders_nodes x :
  x ∈ baselevels ≫= preorder R ↔ x ∈ seqZ 0 (Z.of_nat (length R)).
Proof.
  rewrite list_elem_of_bind, elem_of_seqZ. split.
  - intros (b & Hx & [Hb _]%elem_of_baselevels).
    apply (elem_of_preorder R HF b x Hb) in Hx as [Hx _].
    unfold node in Hx. lia.
  - intros Hx. assert (node R x) as Hnx by (unfold node; lia).
    exists (root_of R x). split.
    + apply elem_of_preorder; [done|by apply root_of_node|].
      split; [done|]. by exists (length R).
    + apply elem_of_baselevels.
      split; [by apply root_of_node|by apply root_of_base_level].
Qed.

Lemma all_preorders_permutation :
  baselevels ≫= preorder R ≡ₚ seqZ 0 (Z.of_nat (length R)).
Proof.
  apply NoDup_Permutation;
    [apply NoDup_all_preorders|apply NoDup_seqZ|apply all_preorders_nodes].
Qed.

Lemma all_preorders_receiver_first i :
  node R i → ¬ base R i → before (baselevels ≫= preorder R) (rcv R i) i.
Proof.
  intros Hi Hnb.
  assert (i ∈ baselevels ≫= preorder R) as Hin
    by (apply all_preorders_nodes, elem_of_seqZ; unfold node in Hi; lia).
  apply list_elem_of_bind in Hin as (b & Hin & Hb).
  apply list_elem_of_split in Hb as Hsplit.
  destruct Hsplit as (bs1 & bs2 & Hsplit).
  apply elem_of_baselevels in Hb as [Hb Hbase].
  rewrite Hsplit, bind_app, bind_cons. apply before_app_r, before_app_l.
  apply preorder_receiver_first; [done..|lia|done|congruence].
Qed.
End all_roots.

(** In recursive mode, with every base-level node supplied once as a root,
    the returned stack is a permutation of the node ids in which every
    non-base node stands after its receiver. *)
Theorem recursive_mode_stack_order (R baselevels : list Z) (limit fuel : nat)
    (out_stack_ids : bool) :
  forest R →
  baselevels ≡ₚ filter (base R) (seqZ 0 (Z.of_nat (length R))) →
  Forall (λ b, (height R b ≤ limit)%nat) baselevels →
  ∃ s,
    order_nodes_numba limit fuel R baselevels "recursive" out_stack_ids
      = Ret (Stack s) ∧
    s = baselevels ≫= preorder R ∧
    s ≡ₚ seqZ 0 (Z.of_nat (length R)) ∧
    ∀ i, node R i → ¬ base R i →
      ∃ p q, s !! p = Some (rcv R i) ∧ s !! q = Some i ∧ (p < q)%nat.
Proof.
  intros HF Hroots Hlim.
  pose proof (all_preorders_permutation R baselevels HF Hroots) as Hperm.
  pose proof (Permutation_length Hperm) as Hlen. rewrite length_seqZ in Hlen.
  exists (baselevels ≫= preorder R). split; [|split; [done|split; [done|]]].
  - rewrite (recursive_mode_run R baselevels limit fuel); [|done| |lia].
    + replace (length R - length (baselevels ≫= preorder R))%nat
        with 0%nat by lia.
      unfold zeros. simpl. by rewrite app_nil_r.
    + apply Forall_forall. intros b Hb. split.
      * by apply (elem_of_baselevels R baselevels Hroots).
      * by apply (proj1 (Forall_forall _ _) Hlim).
  - intros i Hi Hnb. apply before_lookup.
    by apply all_preorders_receiver_first.
Qed.

Lemma recursive_mode_stack_order_witness :
  ∃ s,
    order_nodes_numba 4 0 example_receivers [4] "recursive" false
      = Ret (Stack s) ∧
    s = [4] ≫= preorder example_receivers ∧
    s ≡ₚ seqZ 0 10 ∧
    ∀ i, node example_receivers i → ¬ base example_receivers i →
      ∃ p q, s !! p = Some (rcv example_receivers i) ∧ s !! q = Some i ∧
             (p < q)%nat.
Proof.
  apply (recursive_mode_stack_order example_receivers [4] 4 0 false).
  - apply forestb_forest. vm_compute. reflexivity.
  - vm_compute. reflexivity.
  - constructor; [vm_compute; lia|constructor].
Defined.

(** ** The two builders write the same sequence *)

Section emit.
Context (R : list Z) (b : Z) (HF : forest R).

Lemma children_sorted n : StronglySorted Z.lt (children R n).
Proof. apply StronglySorted_filter, donors_sorted. Qed.

Lemma nr_steps_one st st' :
  nr_n st ≠ nr_n_prev st → nr_step R b st st' → nr_steps R b st st'.
Proof. intros Hne Hstep. eapply nr_steps_step; [done..|constructor]. Qed.

Lemma nr_steps_eq st1 st1' st2 st2' :
  st1 = st1' → st2 = st2' → nr_steps R b st1' st2' → nr_steps R b st1 st2.
Proof. by intros -> ->. Qed.

Lemma unstamped_lookup (sid : list Z) x :
  node R x → length sid = length R → ¬ stamped b sid x →
  ∃ v, sid !! Z.to_nat x = Some v ∧ v ≠ b.
Proof.
  intros Hx Hlen Hns. unfold node in Hx.
  destruct (lookup_lt_is_Some_2 sid (Z.to_nat x)) as [v Hv]; [lia|].
  exists v. split; [done|]. intros ->. done.
Qed.

Lemma stamped_insert_ne (sid : list Z) c x :
  0 ≤ c → 0 ≤ x → x ≠ c →
  stamped b (<[Z.to_nat c := b]> sid) x ↔ stamped b sid x.
Proof.
  intros Hc Hx Hne. unfold stamped.
  by rewrite list_lookup_insert_ne by lia.
Qed.

(** The walk emits the sequences of the children one after the other. *)
Lemma emits_children n (P : Z → list Z) :
  node R n →
  NoDup (children R n ≫= P) →
  Forall (node R) (children R n ≫= P) →
  (∀ c, c ∈ children R n → ∃ Tc, P c = c :: Tc ∧ emits R b c Tc) →
  emits R b n (children R n ≫= P).
Proof.
  intros Hn Hnd Hnodes Hsub.
  assert (∀ cs2 cs1 n_prev pre rest sid,
    children R n = cs1 ++ cs2 →
    nr_inv R b (NrState n n_prev (pre ++ rest) sid (Z.of_nat (length pre) - 1)) →
    n ≠ n_prev →
    (∀ c, c ∈ cs1 → stamped b sid c) →
    (∀ x, x ∈ cs2 ≫= P → ¬ stamped b sid x) →
    (length (cs2 ≫= P) ≤ length rest)%nat →
    ∃ sid',
      nr_steps R b
        (NrState n n_prev (pre ++ rest) sid (Z.of_nat (length pre) - 1))
        (NrState (rcv R n) n (pre ++ (cs2 ≫= P) ++ drop (length (cs2 ≫= P)) rest)
           sid' (Z.of_nat (length pre) - 1 + Z.of_nat (length (cs2 ≫= P)))) ∧
      (∀ x, x ∈ cs2 ≫= P → stamped b sid' x) ∧
      (∀ x, stamped b sid x → stamped b sid' x) ∧
      (∀ x, node R x → x ∉ cs2 ≫= P →
            sid' !! Z.to_nat x = sid !! Z.to_nat x)) as Hloop.
  { intros cs2. induction cs2 as [|c cs2 IH];
      intros cs1 n_prev pre rest sid Hsplit Hinv Hne Hcs1 Hfresh Hfit.
    - exists sid. split; [|split; [|done]].
      2:{ intros x Hx. by apply not_elem_of_nil in Hx. }
      change ([] ≫= P) with (@nil Z). simpl. rewrite drop_0, Z.add_0_r.
      apply nr_steps_one; [done|]. constructor.
      intros d Hd. destruct (decide (d = n)) as [->|Hdn].
      + apply (nr_inv_path _ _ _ Hinv 0%nat).
      + apply Hcs1. rewrite app_nil_r in Hsplit. rewrite <- Hsplit.
        unfold children. by apply list_elem_of_filter.
    - assert (c ∈ children R n) as Hc
        by (rewrite Hsplit, elem_of_app, elem_of_cons; auto).
      destruct (Hsub c Hc) as (Tc & HPc & Hemit).
      pose proof (child_node R n c Hc) as Hnc.
      pose proof Hinv as [_ _ Hpath Hls Hlid _ _]. simpl in Hpath, Hls, Hlid.
      rewrite Hsplit, bind_app, bind_cons, HPc in Hnd, Hnodes.
      rewrite bind_cons, HPc in Hfresh, Hfit. simpl in Hfit.
      rewrite length_app in Hfit.
      apply NoDup_app in Hnd as (_ & _ & Hnd).
      apply NoDup_app in Hnd as (HndPc & Hdisj & _).
      apply NoDup_cons in HndPc as [HcTc _].
      apply Forall_app in Hnodes as [_ Hnodes].
      apply Forall_app in Hnodes as [HnPc Hncs2].
      apply Forall_cons in HnPc as [_ HnTc].
      destruct (unstamped_lookup sid c Hnc Hlid) as (v & Hv & Hvb).
      { apply Hfresh. by left. }
      destruct rest as [|r0 rest]; [simpl in Hfit; lia|]. simpl in Hfit.
      (* the turn upstream to [c] *)
      assert (nr_step R b
        (NrState n n_prev (pre ++ r0 :: rest) sid (Z.of_nat (length pre) - 1))
        (NrState c n ((pre ++ [c]) ++ rest) (<[Z.to_nat c := b]> sid)
           (Z.of_nat (length (pre ++ [c])) - 1))) as Hup.
      { replace ((pre ++ [c]) ++ rest)
          with (<[Z.to_nat (Z.of_nat (length pre) - 1 + 1) := c]>
                  (pre ++ r0 :: rest)).
        2:{ replace (Z.to_nat (Z.of_nat (length pre) - 1 + 1))
              with (length pre + 0)%nat by lia.
            rewrite insert_app_r. simpl. by rewrite <- (assoc_L (++)). }
        replace (Z.of_nat (length (pre ++ [c])) - 1)
          with (Z.of_nat (length pre) - 1 + 1)
          by (rewrite length_app; simpl; lia).
        econstructor; [done..|].
        intros d Hd Hlt. destruct (decide (d = n)) as [->|Hdn].
        { apply (Hpath 0%nat). }
        assert (d ∈ children R n) as Hdc
          by (unfold children; by apply list_elem_of_filter).
        rewrite Hsplit in Hdc.
        apply elem_of_app in Hdc as [Hdc|Hdc]; [by apply Hcs1|].
        apply elem_of_cons in Hdc as [->|Hdc]; [lia|].
        pose proof (children_sorted n) as Hs. rewrite Hsplit in Hs.
        apply StronglySorted_app_1_r, StronglySorted_cons in Hs as [Hs _].
        pose proof (proj1 (Forall_forall _ _) Hs d Hdc). lia. }
      assert (nr_inv R b
        (NrState c n ((pre ++ [c]) ++ rest) (<[Z.to_nat c := b]> sid)
           (Z.of_nat (length (pre ++ [c])) - 1))) as Hinv1.
      { eapply (nr_steps_inv R b HF); [|exact Hinv].
        by apply nr_steps_one. }
      assert (c ≠ n) as Hcn
        by (by apply elem_of_children in Hc as (_ & _ & ?)).
      (* the walk above [c] *)
      destruct (Hemit n (pre ++ [c]) rest (<[Z.to_nat c := b]> sid))
        as (sid2 & Hsteps2 & Hst2 & Hmono2 & Hframe2); [done|done| |lia|].
      { intros x Hx. pose proof (proj1 (Forall_forall _ _) HnTc x Hx) as Hnx.
        unfold node in Hnx, Hnc.
        rewrite stamped_insert_ne by (lia || (intros ->; done)).
        apply Hfresh. right. rewrite elem_of_app. by left. }
      assert (rcv R c = n) as Hrc
        by (by apply elem_of_children in Hc as (_ & ? & _)).
      rewrite Hrc in Hsteps2.
      (* the remaining children *)
      destruct (IH (cs1 ++ [c]) c ((pre ++ [c]) ++ Tc) (drop (length Tc) rest)
                  sid2) as (sid3 & Hsteps3 & Hst3 & Hmono3 & Hframe3).
      + by rewrite <- (assoc_L (++)).
      + eapply (nr_steps_inv R b HF); [|exact Hinv1].
        replace (Z.of_nat (length ((pre ++ [c]) ++ Tc)) - 1)
          with (Z.of_nat (length (pre ++ [c])) - 1 + Z.of_nat (length Tc))
          by (rewrite !length_app; simpl; lia).
        by rewrite <- (assoc_L (++) (pre ++ [c]) Tc).
      + done.
      + intros x Hx. apply Hmono2.
        apply elem_of_app in Hx as [Hx|Hx%list_elem_of_singleton].
        * by apply stamped_insert, Hcs1.
        * subst x. unfold stamped. apply list_lookup_insert_eq.
          by eapply lookup_lt_Some.
      + intros x Hx.
        pose proof (proj1 (Forall_forall _ _) Hncs2 x Hx) as Hnx.
        assert (x ≠ c) as Hxc.
        { intros ->. apply (Hdisj c); [by left|done]. }
        assert (x ∉ Tc) as HxTc.
        { intros HxT. apply (Hdisj x); [by right|done]. }
        unfold stamped. rewrite (Hframe2 x Hnx HxTc).
        unfold node in Hnx, Hnc. rewrite list_lookup_insert_ne by lia.
        apply Hfresh. right. rewrite elem_of_app. by right.
      + rewrite length_drop. lia.
      + exists sid3. split; [|split; [|split]].
        * eapply nr_steps_step; [done|exact Hup|].
          eapply nr_steps_trans; [exact Hsteps2|].
          eapply nr_steps_eq; [| |exact Hsteps3].
          -- f_equal.
             ++ by rewrite <- (assoc_L (++) (pre ++ [c]) Tc).
             ++ rewrite !length_app. simpl. lia.
          -- f_equal.
             ++ rewrite bind_cons, HPc, drop_drop, !length_app. simpl.
                by repeat (rewrite <- (assoc_L (++)); simpl).
             ++ rewrite bind_cons, HPc, !length_app. simpl. lia.
        * intros x Hx. rewrite bind_cons, HPc in Hx.
          apply elem_of_app in Hx as [Hx|Hx]; [|by apply Hst3].
          apply Hmono3. apply elem_of_cons in Hx as [->|Hx]; [|by apply Hst2].
          apply Hmono2. unfold stamped. apply list_lookup_insert_eq.
          by eapply lookup_lt_Some.
        * intros x Hx. by apply Hmono3, Hmono2, stamped_insert.
        * intros x Hnx Hx.
          rewrite bind_cons, HPc, elem_of_app, elem_of_cons in Hx.
          rewrite Hframe3 by tauto. rewrite Hframe2 by tauto.
          unfold node in Hnx, Hnc. apply list_lookup_insert_ne.
          intros Heq. apply Hx. left. left. lia. }
  intros n_prev pre rest sid Hinv Hne Hfresh Hfit.
  apply (Hloop (children R n) []); try done.
  intros c Hc. by apply not_elem_of_nil in Hc.
Qed.

Lemma emits_preorder fuel n :
  node R n → (length R ≤ S fuel + depth R n)%nat →
  emits R b n (children R n ≫= preorder_aux R fuel).
Proof.
  revert n. induction fuel as [|fuel IH]; intros n Hn Hfuel.
  - apply emits_children; [done| | |].
    + exact (NoDup_cons_1_2 _ _ (NoDup_preorder_aux R HF 1 n Hn Hfuel)).
    + exact (Forall_inv_tail (preorder_aux_nodes R 1 n Hn)).
    + intros c Hc. pose proof (child_depth R HF n c Hc) as Hd.
      pose proof (depth_lt R HF c (child_node R n c Hc)). lia.
  - apply emits_children; [done| | |].
    + exact (NoDup_cons_1_2 _ _ (NoDup_preorder_aux R HF (S (S fuel)) n Hn Hfuel)).
    + exact (Forall_inv_tail (preorder_aux_nodes R (S (S fuel)) n Hn)).
    + intros c Hc. pose proof (child_depth R HF n c Hc) as Hd.
      exists (children R c ≫= preorder_aux R fuel). split; [done|].
      apply IH; [by eapply child_node|lia].
Qed.
End emit.

Section build_stack_nr_preorder.
Context (R delta D : list Z) (b : Z).
Context (HF : forest R) (Hadj : adjacency R delta D).
Context (Hb : node R b) (Hbase : base R b).

Lemma preorder_root :
  preorder R b = b :: (children R b ≫= preorder_aux R (length R - 1)).
Proof.
  unfold preorder, node in *.
  destruct (length R) as [|N]; [lia|]. simpl. by rewrite Nat.sub_0_r.
Qed.

(** The non-recursive builder writes the preorder sequence of the subtree of
    [b] from position [inc] on, when no node above [b] carries the stamp of
    [b] yet. *)
Lemma build_stack_nr_spec (s sid : list Z) inc fuel :
  length s = length R → length sid = length R → 0 ≤ inc →
  inc + Z.of_nat (length (preorder R b)) ≤ Z.of_nat (length R) →
  (∀ x, x ∈ preorder R b → x ≠ b → ¬ stamped b sid x) →
  (length R * length R < fuel)%nat →
  ∃ sid',
    _build_stack_nr fuel b R D delta s sid inc
    = Ret (take (Z.to_nat inc) s ++ preorder R b
             ++ drop (Z.to_nat inc + length (preorder R b)) s,
           sid',
           inc + Z.of_nat (length (preorder R b)) - 1).
Proof.
  intros Hls Hlid Hinc Hroom Hfresh Hfuel.
  pose proof (NoDup_preorder R HF b Hb) as Hnd.
  pose proof (preorder_aux_nodes R (length R) b Hb) as Hnodes.
  fold (preorder R b) in Hnodes.
  rewrite preorder_root in *.
  set (T := children R b ≫= preorder_aux R (length R - 1)) in *.
  simpl in Hroom. apply NoDup_cons in Hnd as [HbT _].
  apply Forall_cons in Hnodes as [_ HnT].
  set (pre := take (Z.to_nat inc) s ++ [b]).
  set (rest := drop (S (Z.to_nat inc)) s).
  assert (<[Z.to_nat inc := b]> s = pre ++ rest) as Hs0.
  { unfold pre, rest. rewrite insert_take_drop by lia.
    by rewrite <- (assoc_L (++)). }
  assert (Z.of_nat (length pre) - 1 = inc) as Hpre.
  { unfold pre. rewrite length_app, length_take. simpl. lia. }
  pose proof (nr_init_inv R b HF Hb Hbase s sid inc Hls Hlid Hinc) as Hinv.
  rewrite preorder_root in Hinv. fold T in Hinv. simpl in Hinv.
  specialize (Hinv ltac:(lia)). rewrite Hs0, <- Hpre in Hinv.
  destruct (emits_preorder R b HF (length R - 1) b Hb ltac:(unfold node in Hb; lia)
              (-1) pre rest (<[Z.to_nat b := b]> sid) Hinv)
    as (sid' & Hsteps & _).
  { unfold node in Hb. lia. }
  { intros x Hx. pose proof (proj1 (Forall_forall _ _) HnT x Hx) as Hnx.
    unfold node in Hnx, Hb.
    rewrite stamped_insert_ne by (lia || (intros ->; done)).
    apply Hfresh; [by right|]. intros ->. done. }
  { fold T. unfold rest. rewrite length_drop. lia. }
  destruct (nr_steps_loop R delta D b HF Hadj _ _ Hsteps Hinv) as [k Hk].
  specialize (Hk 1%nat). rewrite Hbase in Hk. simpl in Hk.
  rewrite bool_decide_false in Hk by (intros ?; done).
  assert (_build_stack_nr (k + 1) b R D delta s sid inc
          = Ret (pre ++ T ++ drop (length T) rest, sid',
                 Z.of_nat (length pre) - 1 + Z.of_nat (length T))) as Hrun'.
  { unfold _build_stack_nr. unfold node in Hb.
    rewrite (setitem_njit_Ret s inc b) by lia. rewrite bind_Ret.
    rewrite (setitem_njit_Ret sid b b) by lia. rewrite bind_Ret.
    rewrite Hs0, <- Hpre, Hk. done. }
  destruct (build_stack_nr_run R delta D b HF Hadj Hb Hbase (λ _, True)
              s sid inc fuel) as (st' & Hrun & _); try done.
  { rewrite preorder_root. fold T. simpl. lia. }
  pose proof (build_stack_nr_mono fuel (fuel `max` (k + 1))
                _ _ _ _ _ _ _ _ ltac:(lia) Hrun) as H1.
  pose proof (build_stack_nr_mono (k + 1) (fuel `max` (k + 1))
                _ _ _ _ _ _ _ _ ltac:(lia) Hrun') as H2.
  rewrite H1 in H2. rewrite Hrun, H2.
  exists sid'. rewrite Hpre. unfold pre, rest. simpl.
  rewrite drop_drop, <- !(assoc_L (++)). simpl.
  do 2 f_equal; [|lia]. do 5 f_equal. lia.
Qed.
End build_stack_nr_preorder.

(** Called on the same arrays at the same write position, for a root none
    of whose upstream nodes carries its stamp yet, the two builders write
    the same sequence and return the same position. *)
Theorem builders_agree (R nd delta D w s stack_id : list Z) (b inc : Z)
    (limit fuel : nat) :
  forest R →
  temp_arrays R = Ret (nd, delta, D, w) →
  node R b → base R b →
  length s = length R → length stack_id = length R →
  0 ≤ inc →
  inc + Z.of_nat (length (preorder R b)) ≤ Z.of_nat (length R) →
  (∀ x, x ∈ preorder R b → x ≠ b → ¬ stamped b stack_id x) →
  (height R b ≤ limit)%nat →
  (length R * length R < fuel)%nat →
  ∃ s' inc' stack_id',
    _build_stack limit b D delta s inc = Ret (s', inc') ∧
    _build_stack_nr fuel b R D delta s stack_id inc
      = Ret (s', stack_id', inc') ∧
    s' = take (Z.to_nat inc) s ++ preorder R b
           ++ drop (Z.to_nat inc + length (preorder R b)) s.
Proof.
  intros HF Hrun Hb Hbase Hls Hlid Hinc Hroom Hfresh Hlim Hfuel.
  pose proof (temp_arrays_adjacency R nd delta D w (proj1 HF) Hrun) as Hadj.
  pose proof (build_stack_at R delta D s b inc limit HF Hadj Hb Hls Hinc
                Hroom Hlim) as Hrec.
  destruct (build_stack_nr_spec R delta D b HF Hadj Hb Hbase s stack_id
              inc fuel) as (sid' & Hnr); try done.
  eexists _, _, sid'. split; [exact Hrec|]. split; [exact Hnr|done].
Qed.

Lemma builders_agree_witness :
  ∃ s' inc' stack_id',
    _build_stack 4 4 [0; 2; 1; 4; 5; 7; 6; 3; 8; 9]
      [0; 0; 2; 2; 2; 6; 7; 9; 10; 10; 10] (zeros 10) 0 = Ret (s', inc') ∧
    _build_stack_nr 101 4 example_receivers [0; 2; 1; 4; 5; 7; 6; 3; 8; 9]
      [0; 0; 2; 2; 2; 6; 7; 9; 10; 10; 10] (zeros 10) (replicate 10 (-1)) 0
      = Ret (s', stack_id', inc') ∧
    s' = take 0 (zeros 10) ++ preorder example_receivers 4
           ++ drop (0 + length (preorder example_receivers 4)) (zeros 10).
Proof.
  apply (builders_agree example_receivers
    [0; 2; 0; 0; 4; 1; 2; 1; 0; 0] [0; 0; 2; 2; 2; 6; 7; 9; 10; 10; 10]
    [0; 2; 1; 4; 5; 7; 6; 3; 8; 9] [0; 2; 0; 0; 4; 1; 2; 1; 0; 0]
    (zeros 10) (replicate 10 (-1)) 4 0 4 101).
  - apply forestb_forest. vm_compute. reflexivity.
  - vm_compute. reflexivity.
  - unfold node. simpl. lia.
  - reflexivity.
  - reflexivity.
  - reflexivity.
  - lia.
  - vm_compute. discriminate.
  - intros x Hx _ Hs. apply list_elem_of_In in Hx. vm_compute in Hx.
    repeat destruct Hx as [<-|Hx]; try discriminate Hs. done.
  - vm_compute. lia.
  - simpl. lia.
Defined.

(** With a single root the two modes of the driver return the same stack:
    the preorder sequence of the root's subtree, followed by zeros. *)
Theorem single_root_modes_agree (R : list Z) (b : Z) (limit fuel : nat) :
  forest R → node R b → base R b →
  (height R b ≤ limit)%nat →
  (length R * length R < fuel)%nat →
  order_nodes_numba limit fuel R [b] "recursive" false
    = Ret (Stack (preorder R b ++ zeros (length R - length (preorder R b)))) ∧
  order_nodes_numba limit fuel R [b] "non-recursive" false
    = Ret (Stack (preorder R b ++ zeros (length R - length (preorder R b)))).
Proof.
  intros HF Hb Hbase Hlim Hfuel.
  pose proof (length_preorder_aux R HF (length R) b Hb ltac:(lia)) as Hlen.
  fold (preorder R b) in Hlen.
  assert ([b] ≫= preorder R = preorder R b) as Hbind
    by (rewrite bind_cons; apply app_nil_r).
  split.
  - rewrite (recursive_mode_run R [b] limit fuel false HF); rewrite ?Hbind.
    + done.
    + constructor; [by split|constructor].
    + done.
  - unfold order_nodes_numba.
    destruct (calculate_temp_arrays_adjacency R (proj1 HF))
      as (nd & delta & D & w & -> & Hadj).
    rewrite bind_Ret, for_cons, bstack_step_nr.
    destruct (build_stack_nr_spec R delta D b HF Hadj Hb Hbase
                (zeros (length R)) (replicate (length R) (-1)) 0 fuel)
      as (sid' & ->); try done.
    + unfold zeros. by rewrite length_replicate.
    + by rewrite length_replicate.
    + lia.
    + intros x _ _ Hs. unfold stamped in Hs.
      apply lookup_replicate_1 in Hs as [Hs _]. unfold node in Hb. lia.
    + rewrite !bind_Ret. simpl. unfold zeros.
      by rewrite drop_replicate.
Qed.

Lemma single_root_modes_agree_witness :
  order_nodes_numba 4 101 example_receivers [4] "recursive" false
    = Ret (Stack (preorder example_receivers 4
                    ++ zeros (10 - length (preorder example_receivers 4)))) ∧
  order_nodes_numba 4 101 example_receivers [4] "non-recursive" false
    = Ret (Stack (preorder example_receivers 4
                    ++ zeros (10 - length (preorder example_receivers 4)))).
Proof.
  apply (single_root_modes_agree example_receivers 4 4 101).
  - apply forestb_forest. vm_compute. reflexivity.
  - unfold node. simpl. lia.
  - reflexivity.
  - vm_compute. lia.
  - simpl. lia.
Defined.

(** ** The write position of the non-recursive mode *)

(** The driver's closure for the non-recursive mode passes the constant [0]
    as write position, so with more than one root each block is written
    over the previous one.  The following evaluations show the effect. *)

(** C1 at two roots: the two modes return different stacks. *)
Theorem modes_differ_on_two_roots :
  forest [0; 1] ∧ base [0; 1] 0 ∧ base [0; 1] 1 ∧
  order_nodes_numba 10 10 [0; 1] [0; 1] "recursive" false
    = Ret (Stack [0; 1]) ∧
  order_nodes_numba 10 10 [0; 1] [0; 1] "non-recursive" false
    = Ret (Stack [1; 0]).
Proof.
  split; [apply forestb_forest; vm_compute; reflexivity|].
  repeat split; vm_compute; reflexivity.
Qed.

(** C2 at two roots: in non-recursive mode the block of the second root
    overwrites the block of the first; node 1 of the first root's subtree
    is lost, while the recursive mode lays the blocks side by side. *)
Theorem nr_blocks_overwritten :
  forest [0; 0; 0; 3; 3] ∧
  preorder [0; 0; 0; 3; 3] 0 = [0; 1; 2] ∧
  preorder [0; 0; 0; 3; 3] 3 = [3; 4] ∧
  order_nodes_numba 10 30 [0; 0; 0; 3; 3] [0; 3] "recursive" false
    = Ret (Stack [0; 1; 2; 3; 4]) ∧
  order_nodes_numba 10 30 [0; 0; 0; 3; 3] [0; 3] "non-recursive" false
    = Ret (Stack [3; 4; 2; 0; 0]).
Proof.
  split; [apply forestb_forest; vm_compute; reflexivity|].
  repeat split; vm_compute; reflexivity.
Qed.

(** C3 at two roots: in non-recursive mode the returned stack is not a
    permutation of the node ids. *)
Theorem nr_not_a_permutation :
  forest [0; 0; 2; 2] ∧
  filter (base [0; 0; 2; 2]) (seqZ 0 4) = [0; 2] ∧
  ∃ s, order_nodes_numba 10 30 [0; 0; 2; 2] [0; 2] "non-recursive" false
         = Ret (Stack s) ∧
       ¬ s ≡ₚ seqZ 0 4.
Proof.
  split; [apply forestb_forest; vm_compute; reflexivity|].
  split; [vm_compute; reflexivity|].
  exists [2; 3; 0; 0]. split; [vm_compute; reflexivity|].
  intros Hp. assert (1 ∈ [2; 3; 0; 0]) as Hin.
  { rewrite Hp. apply elem_of_seqZ. lia. }
  apply list_elem_of_In in Hin. simpl in Hin.
  repeat destruct Hin as [Hin|Hin]; done.
Qed.

(** C4 at two roots: in non-recursive mode node 1, whose receiver is 0,
    stands before the only occurrence of 0. *)
Theorem nr_donor_before_receiver :
  forest [0; 0; 2] ∧
  rcv [0; 0; 2] 1 = 0 ∧
  ∃ s, order_nodes_numba 10 30 [0; 0; 2] [0; 2] "non-recursive" false
         = Ret (Stack s) ∧
       s !! 1%nat = Some 1 ∧
       ∀ p, s !! p = Some 0 → (1 < p)%nat.
Proof.
  split; [apply forestb_forest; vm_compute; reflexivity|].
  split; [reflexivity|].
  exists [2; 1; 0]. split; [vm_compute; reflexivity|].
  split; [reflexivity|].
  intros [|[|p]] Hp; simpl in Hp; try discriminate. lia.
Qed.

(** ** More on the driver in recursive mode *)

(** In recursive mode the driver lays the preorder sequences of the roots
    side by side from position 0, in the order of the roots, and leaves the
    rest of [s] zero; it returns [s] alone whatever [out_stack_ids]. *)
Theorem recursive_mode_blocks (R baselevels : list Z) (limit fuel : nat)
    (out_stack_ids : bool) :
  forest R →
  Forall (λ b, node R b ∧ (height R b ≤ limit)%nat) baselevels →
  (length (baselevels ≫= preorder R) ≤ length R)%nat →
  order_nodes_numba limit fuel R baselevels "recursive" out_stack_ids
  = Ret (Stack ((baselevels ≫= preorder R)
                  ++ zeros (length R - length (baselevels ≫= preorder R)))).
Proof. apply recursive_mode_run. Qed.

Lemma recursive_mode_blocks_witness :
  order_nodes_numba 2 0 [0; 0; 0; 3; 3; 5] [3; 0] "recursive" true
  = Ret (Stack (([3; 0] ≫= preorder [0; 0; 0; 3; 3; 5])
                  ++ zeros (6 - length ([3; 0] ≫= preorder [0; 0; 0; 3; 3; 5])))).
Proof.
  apply (recursive_mode_blocks [0; 0; 0; 3; 3; 5] [3; 0] 2 0 true).
  - apply forestb_forest. vm_compute. reflexivity.
  - repeat constructor; unfold node; simpl; try lia; vm_compute; lia.
  - vm_compute. lia.
Defined.

(** A node of the preorder sequence of [b] heads a block of that sequence
    holding exactly the subtree of the node. *)
Lemma preorder_block (R : list Z) (HF : forest R) fuel b n :
  node R b → (length R ≤ fuel + depth R b)%nat →
  n ∈ preorder_aux R fuel b →
  ∃ l1 l2 fuel',
    preorder_aux R fuel b = l1 ++ preorder_aux R fuel' n ++ l2 ∧
    node R n ∧ (length R ≤ fuel' + depth R n)%nat.
Proof.
  revert b. induction fuel as [|fuel IH]; intros b Hb Hfuel Hn.
  { by apply not_elem_of_nil in Hn. }
  simpl in Hn. apply elem_of_cons in Hn as [->|Hn].
  { exists [], [], (S fuel). by rewrite app_nil_r. }
  apply list_elem_of_bind in Hn as (c & Hn & Hc).
  apply list_elem_of_split in Hc as Hsplit.
  destruct Hsplit as (cs1 & cs2 & Hcs).
  destruct (IH c) as (l1 & l2 & fuel' & Heq & Hnn & Hf');
    [by eapply child_node|rewrite (child_depth R HF b c Hc); lia|done|].
  exists (b :: (cs1 ≫= preorder_aux R fuel) ++ l1),
    (l2 ++ (cs2 ≫= preorder_aux R fuel)), fuel'.
  split; [|done]. simpl. rewrite Hcs, bind_app, bind_cons, Heq.
  by repeat (rewrite <- (assoc_L (++)); simpl).
Qed.

(** In recursive mode, with every base-level node supplied once as a root,
    every node heads a contiguous block of the returned stack that holds
    exactly the node and the nodes upstream of it. *)
Theorem recursive_mode_subtree_blocks (R baselevels : list Z)
    (limit fuel : nat) (out_stack_ids : bool) :
  forest R →
  baselevels ≡ₚ filter (base R) (seqZ 0 (Z.of_nat (length R))) →
  Forall (λ b, (height R b ≤ limit)%nat) baselevels →
  ∃ s,
    order_nodes_numba limit fuel R baselevels "recursive" out_stack_ids
      = Ret (Stack s) ∧
    NoDup s ∧
    ∀ n, node R n →
      ∃ l1 t l2, s = l1 ++ (n :: t) ++ l2 ∧
                 ∀ x, x ∈ n :: t ↔ in_subtree R n x.
Proof.
  intros HF Hroots Hlim.
  pose proof (all_preorders_permutation R baselevels HF Hroots) as Hperm.
  pose proof (Permutation_length Hperm) as Hlen. rewrite length_seqZ in Hlen.
  exists (baselevels ≫= preorder R). split; [|split].
  - rewrite (recursive_mode_run R baselevels limit fuel); [|done| |lia].
    + replace (length R - length (baselevels ≫= preorder R))%nat
        with 0%nat by lia.
      unfold zeros. simpl. by rewrite app_nil_r.
    + apply Forall_forall. intros b Hb. split.
      * by apply (elem_of_baselevels R baselevels Hroots).
      * by apply (proj1 (Forall_forall _ _) Hlim).
  - by apply NoDup_all_preorders.
  - intros n Hn.
    assert (n ∈ baselevels ≫= preorder R) as Hin
      by (apply (all_preorders_nodes R baselevels HF Hroots), elem_of_seqZ;
          unfold node in Hn; lia).
    apply list_elem_of_bind in Hin as (b & Hin & Hb).
    apply list_elem_of_split in Hb as Hsplit.
    destruct Hsplit as (bs1 & bs2 & Hsplit).
    apply (elem_of_baselevels R baselevels Hroots) in Hb as [Hb _].
    destruct (preorder_block R HF (length R) b n Hb ltac:(lia) Hin)
      as (l1 & l2 & fuel' & Heq & _ & Hf').
    pose proof (depth_lt R HF n Hn) as Hd.
    destruct fuel' as [|fuel']; [lia|].
    exists ((bs1 ≫= preorder R) ++ l1),
      (children R n ≫= preorder_aux R fuel'),
      (l2 ++ (bs2 ≫= preorder R)).
    split.
    + rewrite Hsplit, bind_app, bind_cons. unfold preorder at 2.
      rewrite Heq. simpl.
      by repeat (rewrite <- (assoc_L (++)); simpl).
    + intros x. by apply (elem_of_preorder_aux R HF (S fuel') n x Hn).
Qed.

Lemma recursive_mode_subtree_blocks_witness :
  ∃ s,
    order_nodes_numba 4 0 example_receivers [4] "recursive" false
      = Ret (Stack s) ∧
    NoDup s ∧
    ∀ n, node example_receivers n →
      ∃ l1 t l2, s = l1 ++ (n :: t) ++ l2 ∧
                 ∀ x, x ∈ n :: t ↔ in_subtree example_receivers n x.
Proof.
  apply (recursive_mode_subtree_blocks example_receivers [4] 4 0 false).
  - apply forestb_forest. vm_compute. reflexivity.
  - vm_compute. reflexivity.
  - constructor; [vm_compute; lia|constructor].
Defined.

(** ** The recursion depth of the recursive builder *)

Lemma for_app {St} (body : Z → St → outcome St) l1 l2 st :
  for_ (l1 ++ l2) body st = for_ l1 body st ≫= for_ l2 body.
Proof.
  revert st. induction l1 as [|i l1 IH]; intros st; simpl; [done|].
  destruct (body i st); simpl; auto.
Qed.

Lemma max_list_lt_elem (ns : list nat) k :
  (k < max_list ns)%nat → ∃ x, x ∈ ns ∧ (k < x)%nat.
Proof.
  induction ns as [|a ns IH]; simpl; [lia|]. intros Hk.
  destruct (decide (k < a)%nat) as [Ha|Ha].
  - exists a. split; [by left|done].
  - destruct IH as (x & Hx & Hlt); [lia|]. exists x. split; [by right|done].
Qed.

Lemma first_such (P : Z → Prop) `{∀ x, Decision (P x)} (l : list Z) x :
  x ∈ l → P x →
  ∃ l1 y l2, l = l1 ++ y :: l2 ∧ P y ∧ Forall (λ z, ¬ P z) l1.
Proof.
  induction l as [|a l IH]; intros Hx HP.
  { by apply not_elem_of_nil in Hx. }
  destruct (decide (P a)) as [Ha|Ha].
  { exists [], a, l. split; [done|]. split; [done|constructor]. }
  apply elem_of_cons in Hx as [->|Hx]; [done|].
  destruct (IH Hx HP) as (l1 & y & l2 & -> & Hy & Hl1).
  exists (a :: l1), y, l2. split; [done|]. split; [done|by constructor].
Qed.

Section recursion_depth.
Context (R delta D : list Z) (HF : forest R) (Hadj : adjacency R delta D).

(** The loop of the builder over donors that all fit the recursion limit. *)
Lemma build_stack_children fuel n limit ms pre rest :
  Forall (λ c, c = n ∨
               (c ∈ children R n ∧ (height_aux R fuel c ≤ limit)%nat)) ms →
  (length R ≤ S fuel + depth R n)%nat →
  (length pre + length rest = length R)%nat →
  (length (filter (λ m, m ≠ n) ms ≫= preorder_aux R fuel)
     ≤ length rest)%nat →
  for_ ms (λ m (st : list Z * Z),
             if bool_decide (m ≠ n)
             then _build_stack limit m D delta st.1 (st.2 + 1)
             else Ret st)
    (pre ++ rest, Z.of_nat (length pre) - 1)
  = Ret (pre ++ (filter (λ m, m ≠ n) ms ≫= preorder_aux R fuel)
           ++ drop (length (filter (λ m, m ≠ n) ms ≫= preorder_aux R fuel))
                rest,
         Z.of_nat (length pre)
           + Z.of_nat (length (filter (λ m, m ≠ n) ms ≫= preorder_aux R fuel))
           - 1).
Proof.
  intros Hms Hfuel. revert pre rest.
  induction Hms as [|c ms Hc _ IH]; intros pre rest Hlen Hfit.
  { simpl. rewrite drop_0. do 2 f_equal. lia. }
  rewrite filter_cons in *. rewrite for_cons. cbn [fst snd].
  destruct (decide (c ≠ n)) as [Hne|Heq].
  - destruct Hc as [|[Hc Hh]]; [done|].
    rewrite bind_cons, length_app in Hfit.
    rewrite bool_decide_true by done.
    replace (Z.of_nat (length pre) - 1 + 1)
      with (Z.of_nat (length pre)) by lia.
    rewrite (build_stack_spec R delta D HF Hadj fuel c limit pre rest);
      [|by eapply child_node|rewrite (child_depth R HF n c Hc); lia
       |done|done|lia].
    rewrite bind_Ret.
    set (P := preorder_aux R fuel c) in *.
    replace (Z.of_nat (length pre) + Z.of_nat (length P) - 1)
      with (Z.of_nat (length (pre ++ P)) - 1)
      by (rewrite length_app; lia).
    rewrite (assoc_L (++) pre P).
    rewrite IH; [|rewrite length_app, length_drop; lia
                 |rewrite length_drop; lia].
    rewrite bind_cons, drop_drop, !length_app. fold P.
    rewrite <- !(assoc_L (++)). do 2 f_equal. lia.
  - rewrite bool_decide_false by done. rewrite bind_Ret. by apply IH.
Qed.

(** With fewer nested calls than the subtree has levels the builder runs
    into the recursion limit. *)
Lemma build_stack_too_deep fuel n limit pre rest :
  node R n → (length R ≤ fuel + depth R n)%nat →
  (limit < height_aux R fuel n)%nat →
  (length pre + length rest = length R)%nat →
  (length (preorder_aux R fuel n) ≤ length rest)%nat →
  _build_stack limit n D delta (pre ++ rest) (Z.of_nat (length pre))
  = Raise RecursionError.
Proof.
  revert n limit pre rest.
  induction fuel as [|fuel IH]; intros n limit pre rest Hn Hfuel Hlim Hlen Hfit.
  { pose proof (depth_lt R HF n Hn). lia. }
  destruct limit as [|limit]; [done|].
  cbn [_build_stack height_aux preorder_aux] in *.
  rewrite setitem_app by (simpl in Hfit; lia). rewrite bind_Ret.
  destruct (donor_segment R delta D Hadj n Hn)
    as (lo & hi & -> & -> & Hlo & Hhi & HlenD & Hs).
  rewrite !bind_Ret.
  set (g := λ m (st : list Z * Z),
         if bool_decide (m ≠ n)
         then _build_stack limit m D delta st.1 (st.2 + 1)
         else Ret st).
  rewrite (for_ext _ (λ i st, m ← getitem D i; g m st));
    [|by intros i [s inc]].
  rewrite for_range_slice by done. rewrite Hs.
  destruct (max_list_lt_elem (height_aux R fuel <$> children R n) limit
              ltac:(lia)) as (h & Hh & Hlt).
  apply list_elem_of_fmap in Hh as (c0 & -> & Hc0).
  destruct (first_such
              (λ c, c ≠ n ∧ (limit < height_aux R fuel c)%nat)
              (donors R n) c0)
    as (ds1 & c & ds2 & Hsplit & [Hcn Hch] & Hds1).
  { unfold children in Hc0. by apply list_elem_of_filter in Hc0 as [_ ?]. }
  { split; [|done]. by apply elem_of_children in Hc0 as (_ & _ & ?). }
  assert (c ∈ children R n) as Hc.
  { unfold children. apply list_elem_of_filter. split; [done|].
    rewrite Hsplit, elem_of_app, elem_of_cons. auto. }
  simpl in Hfit. unfold children in Hfit.
  rewrite Hsplit, filter_app, filter_cons, decide_True, bind_app, bind_cons,
    !length_app in Hfit by done.
  rewrite Hsplit, for_app.
  replace (Z.of_nat (length pre)) with (Z.of_nat (length (pre ++ [n])) - 1)
    by (rewrite length_app; simpl; lia).
  replace (pre ++ n :: drop 1 rest) with ((pre ++ [n]) ++ drop 1 rest)
    by (by rewrite <- (assoc_L (++))).
  unfold g at 2.
  rewrite (build_stack_children fuel n limit ds1);
    [| |lia|rewrite length_app, length_drop; simpl; lia
     |rewrite length_drop; lia].
  2:{ apply Forall_forall. intros d Hd.
      pose proof (proj1 (Forall_forall _ _) Hds1 d Hd) as Hnot.
      destruct (decide (d = n)) as [|Hdn]; [by left|right]. split.
      - unfold children. apply list_elem_of_filter. split; [done|].
        rewrite Hsplit, elem_of_app. by left.
      - destruct (decide (height_aux R fuel d ≤ limit)%nat); [done|].
        exfalso. apply Hnot. split; [done|lia]. }
  rewrite bind_Ret, for_cons.
  match goal with
  | |- g c (?s1, ?i1) ≫= _ = _ =>
      assert (g c (s1, i1) = Raise RecursionError) as ->; [|done]
  end.
  unfold g. cbn [fst snd]. rewrite bool_decide_true by done.
  set (X := filter (λ m, m ≠ n) ds1 ≫= preorder_aux R fuel) in *.
  replace (Z.of_nat (length (pre ++ [n])) + Z.of_nat (length X) - 1 + 1)
    with (Z.of_nat (length ((pre ++ [n]) ++ X)))
    by (rewrite !length_app; simpl; lia).
  rewrite (assoc_L (++) (pre ++ [n]) X).
  apply IH; [by eapply child_node
            |rewrite (child_depth R HF n c Hc); lia|done
            |rewrite !length_app, !length_drop; simpl; lia
            |rewrite !length_drop; lia].
Qed.
End recursion_depth.

(** On a well-formed forest the recursive builder, started at a node [b]
    with room for its subtree, needs exactly as many nested calls as the
    subtree has levels: with that many it returns, with fewer it raises
    [RecursionError]. *)
Theorem recursion_limit_threshold (R nd delta D w s : list Z) (b inc : Z)
    (limit : nat) :
  forest R →
  temp_arrays R = Ret (nd, delta, D, w) →
  node R b →
  length s = length R →
  0 ≤ inc →
  inc + Z.of_nat (length (preorder R b)) ≤ Z.of_nat (length R) →
  ((height R b ≤ limit)%nat →
     ∃ v, _build_stack limit b D delta s inc = Ret v) ∧
  ((limit < height R b)%nat →
     _build_stack limit b D delta s inc = Raise RecursionError).
Proof.
  intros HF Hrun Hb Hlen Hinc Hfit.
  pose proof (temp_arrays_adjacency R nd delta D w (proj1 HF) Hrun) as Hadj.
  split; intros Hlim.
  - eexists. by apply (build_stack_at R delta D s b inc limit).
  - pose proof (build_stack_too_deep R delta D HF Hadj (length R) b limit
                  (take (Z.to_nat inc) s) (drop (Z.to_nat inc) s)) as Hdeep.
    rewrite take_drop, length_take, length_drop in Hdeep.
    replace (Z.of_nat (Z.to_nat inc `min` length s)) with inc in Hdeep by lia.
    apply Hdeep; try done; unfold preorder in Hfit; lia.
Qed.

Lemma recursion_limit_threshold_witness :
  ((height example_receivers 4 ≤ 3)%nat →
     ∃ v, _build_stack 3 4 [0; 2; 1; 4; 5; 7; 6; 3; 8; 9]
            [0; 0; 2; 2; 2; 6; 7; 9; 10; 10; 10] (zeros 10) 0 = Ret v) ∧
  ((3 < height example_receivers 4)%nat →
     _build_stack 3 4 [0; 2; 1; 4; 5; 7; 6; 3; 8; 9]
       [0; 0; 2; 2; 2; 6; 7; 9; 10; 10; 10] (zeros 10) 0
     = Raise RecursionError).
Proof.
  apply (recursion_limit_threshold example_receivers
    [0; 2; 0; 0; 4; 1; 2; 1; 0; 0] [0; 0; 2; 2; 2; 6; 7; 9; 10; 10; 10]
    [0; 2; 1; 4; 5; 7; 6; 3; 8; 9] [0; 2; 0; 0; 4; 1; 2; 1; 0; 0]
    (zeros 10) 4 0 3).
  - apply forestb_forest. vm_compute. reflexivity.
  - vm_compute. reflexivity.
  - unfold node. simpl. lia.
  - reflexivity.
  - lia.
  - vm_compute. discriminate.
Defined.

(** ** Receivers with a cycle *)

(** The recursive builder raises nothing but [IndexError] and
    [RecursionError], and it always comes to an end. *)
Lemma getitem_cases a i :
  (∃ v, getitem a i = Ret v) ∨ getitem a i = Raise IndexError.
Proof.
  unfold getitem. destruct (index (length a) i) as [k|]; [|by right].
  destruct (a !! k); [left; by eexists|by right].
Qed.

Lemma setitem_cases a i v :
  (∃ a', setitem a i v = Ret a') ∨ setitem a i v = Raise IndexError.
Proof.
  unfold setitem. destruct (index (length a) i); [left; by eexists|by right].
Qed.

Lemma for_cases {St} (P : exn → Prop) l (body : Z → St → outcome St) st :
  (∀ i st, (∃ st', body i st = Ret st') ∨ ∃ e, body i st = Raise e ∧ P e) →
  (∃ st', for_ l body st = Ret st') ∨ ∃ e, for_ l body st = Raise e ∧ P e.
Proof.
  intros Hbody. revert st. induction l as [|i l IH]; intros st.
  { left. by eexists. }
  rewrite for_cons.
  destruct (Hbody i st) as [[st' ->]|(e & -> & He)]; [apply IH|].
  right. by exists e.
Qed.

Lemma build_stack_cases limit n D delta s inc :
  (∃ v, _build_stack limit n D delta s inc = Ret v) ∨
  ∃ e, _build_stack limit n D delta s inc = Raise e ∧
       (e = RecursionError ∨ e = IndexError).
Proof.
  revert n s inc. induction limit as [|limit IH]; intros n s inc.
  { right. exists RecursionError. auto. }
  cbn [_build_stack].
  destruct (setitem_cases s inc n) as [[s1 ->]| ->];
    [|right; exists IndexError; auto].
  destruct (getitem_cases delta n) as [[lo ->]| ->];
    [|right; exists IndexError; auto].
  destruct (getitem_cases delta (n + 1)) as [[hi ->]| ->];
    [|right; exists IndexError; auto].
  rewrite !bind_Ret. apply for_cases. intros i [s2 i2].
  destruct (getitem_cases D i) as [[m ->]| ->];
    [|right; exists IndexError; auto].
  rewrite bind_Ret. case_bool_decide; [apply IH|left; by eexists].
Qed.

Lemma unmarked_insert (R : list Z) b (sid : list Z) m v :
  node R m → sid !! Z.to_nat m = Some v → v ≠ b →
  unmarked R b sid = S (unmarked R b (<[Z.to_nat m := b]> sid)).
Proof.
  intros Hm Hv Hne. unfold unmarked.
  apply (length_filter_remove _ _ _ m).
  - apply NoDup_seqZ.
  - apply elem_of_seqZ. unfold node in Hm. lia.
  - unfold stamped. congruence.
  - intros Hns. apply Hns. unfold stamped.
    apply list_lookup_insert_eq. by eapply lookup_lt_Some.
  - intros x Hx%elem_of_seqZ Hxm. unfold stamped, node in *.
    rewrite list_lookup_insert_ne by lia. done.
Qed.

Lemma unmarked_stamped (R : list Z) b (sid : list Z) x :
  node R x → stamped b sid x → (unmarked R b sid < length R)%nat.
Proof.
  intros Hx Hs. unfold unmarked, node in *.
  pose proof (length_filter_lt (λ _, True) (λ y, ¬ stamped b sid y)
                (seqZ 0 (Z.of_nat (length R))) x) as Hlt.
  pose proof (length_filter (λ _ : Z, True) (seqZ 0 (Z.of_nat (length R))))
    as Hle.
  rewrite length_seqZ in Hle.
  specialize (Hlt ltac:(done) ltac:(apply elem_of_seqZ; lia) I ltac:(tauto)).
  lia.
Qed.

Section cycles.
Context (R delta D : list Z) (HR : in_range R) (Hadj : adjacency R delta D).

Lemma cycle_turns n k j :
  downstream R k n = n → downstream R (j * k) n = n.
Proof.
  intros Hk. induction j as [|j IH]; [done|].
  change (S j * k)%nat with (k + j * k)%nat.
  by rewrite downstream_add, Hk.
Qed.

(** From a node on a cycle no receiver chain ends on a base level. *)
Lemma cycle_endless n k :
  (0 < k)%nat → downstream R k n = n → ¬ base R n →
  ∀ j, ¬ base R (downstream R j n).
Proof.
  intros Hk Hcyc Hnb j Hb. apply Hnb.
  pose proof (cycle_turns n k j Hcyc) as Hn.
  replace (j * k)%nat with (j + (j * k - j))%nat in Hn by nia.
  rewrite downstream_add, (base_downstream R _ _ Hb) in Hn.
  by rewrite <- Hn.
Qed.

(** The node before [n] on its cycle is one of its donors. *)
Lemma cycle_donor n k :
  node R n → (0 < k)%nat → downstream R k n = n → ¬ base R n →
  ∃ p, p ∈ children R n ∧ node R p ∧ downstream R k p = p ∧ ¬ base R p.
Proof.
  intros Hn Hk Hcyc Hnb. exists (downstream R (k - 1) n).
  assert (rcv R (downstream R (k - 1) n) = n) as Hr.
  { rewrite <- downstream_S_r. by replace (S (k - 1)) with k by lia. }
  assert (downstream R (k - 1) n ≠ n) as Hne.
  { intros Heq. rewrite Heq in Hr. done. }
  pose proof (downstream_node R HR (k - 1) n Hn) as Hp.
  split; [|split; [done|split]].
  - by apply elem_of_children.
  - rewrite <- downstream_add.
    replace (k - 1 + k)%nat with (k + (k - 1))%nat by lia.
    by rewrite downstream_add, Hcyc.
  - unfold base. rewrite Hr. done.
Qed.

(** The recursive builder does not return from a node on a cycle. *)
Lemma build_stack_cycle k limit n s inc :
  (0 < k)%nat → node R n → downstream R k n = n → ¬ base R n →
  ∃ e, _build_stack limit n D delta s inc = Raise e ∧
       (e = RecursionError ∨ e = IndexError).
Proof.
  intros Hk. revert n s inc.
  induction limit as [|limit IH]; intros n s inc Hn Hcyc Hnb.
  { exists RecursionError. auto. }
  destruct (build_stack_cases (S limit) n D delta s inc) as [[v Hv]|]; [|done].
  exfalso. revert Hv. cbn [_build_stack].
  destruct (setitem s inc n) as [s1| | |]; [|done..]. rewrite bind_Ret.
  destruct (donor_segment R delta D Hadj n Hn)
    as (lo & hi & -> & -> & Hlo & Hhi & HlenD & Hs).
  rewrite !bind_Ret.
  set (g := λ m (st : list Z * Z),
         if bool_decide (m ≠ n)
         then _build_stack limit m D delta st.1 (st.2 + 1)
         else Ret st).
  rewrite (for_ext _ (λ i st, m ← getitem D i; g m st));
    [|by intros i [s2 i2]].
  rewrite for_range_slice by done. rewrite Hs.
  destruct (cycle_donor n k Hn Hk Hcyc Hnb) as (p & Hp & Hnp & Hcp & Hbp).
  assert (p ∈ donors R n) as Hpd.
  { unfold children in Hp. by apply list_elem_of_filter in Hp as [_ ?]. }
  apply list_elem_of_split in Hpd as (l1 & l2 & ->).
  rewrite for_app.
  destruct (for_ l1 g (s1, inc)) as [[s2 i2]| | |]; [|done..].
  rewrite bind_Ret, for_cons.
  assert (g p (s2, i2) = _build_stack limit p D delta s2 (i2 + 1)) as ->.
  { unfold g. cbn [fst snd]. rewrite bool_decide_true; [done|].
    by apply elem_of_children in Hp as (_ & _ & ?). }
  destruct (IH p s2 (i2 + 1) Hnp Hcp Hbp) as (e & -> & _). done.
Qed.

(** One turn of the loop of the non-recursive builder away from every base
    level. *)
Lemma nr_body_astray b st :
  nr_astray R b st →
  ∃ st', nr_body b R D delta st = Ret st' ∧ nr_astray R b st'.
Proof.
  destruct st as [n n_prev s sid inc].
  intros [Hn Hchain Hcond Hls Hlid Hinc Hroom]; simpl in *.
  pose proof (Hchain 0%nat) as Hnb. simpl in Hnb.
  unfold nr_body; simpl.
  destruct (donor_segment_njit R delta D Hadj n Hn)
    as (lo & hi & -> & -> & Hlo & Hhi & HlenD & Hs).
  rewrite !bind_Ret.
  destruct (scan_donors_spec b D s sid inc lo hi Hlo Hhi HlenD)
    as [[Hall ->]|(ms1 & m & ms2 & v & Heq & Hall & Hv & Hne & ->)].
  - rewrite Hs. apply Forall_forall. intros m [Hm _]%elem_of_donors.
    unfold node in Hm. lia.
  - rewrite bind_Ret, (getitem_rcv R n Hn), bind_Ret.
    eexists; split; [done|]. split; simpl; try done.
    + by apply rcv_node.
    + intros k. apply (Hchain (S k)).
  - rewrite Hs in Heq.
    assert (m ∈ donors R n) as Hm
      by (rewrite Heq, elem_of_app, elem_of_cons; auto).
    apply elem_of_donors in Hm as [Hnm Hr].
    pose proof (unmarked_insert R b sid m v Hnm Hv Hne) as Hu.
    rewrite setitem_njit_Ret by lia. rewrite bind_Ret.
    eexists; split; [done|].
    assert (m ≠ n) as Hmn by (intros ->; done).
    split; simpl; [done| |done|by rewrite length_insert..|lia|lia].
    intros [|k]; simpl.
    + unfold base. by rewrite Hr.
    + rewrite Hr. apply Hchain.
Qed.

Lemma nr_loop_astray b fuel st :
  nr_astray R b st → nr_loop fuel b R D delta st = Diverge.
Proof.
  revert st. induction fuel as [|fuel IH]; intros st Hinv; [done|].
  simpl. rewrite bool_decide_true by apply Hinv.
  destruct (nr_body_astray b st Hinv) as (st' & -> & Hinv').
  rewrite bind_Ret. by apply IH.
Qed.

(** The non-recursive builder started on a cycle never leaves its loop. *)
Lemma build_stack_nr_cycle k b s sid inc fuel :
  (0 < k)%nat → node R b → downstream R k b = b → ¬ base R b →
  length s = length R → length sid = length R →
  0 ≤ inc →
  inc + Z.of_nat (unmarked R b (<[Z.to_nat b := b]> sid))
    < Z.of_nat (length R) →
  _build_stack_nr fuel b R D delta s sid inc = Diverge.
Proof.
  intros Hk Hb Hcyc Hnb Hls Hlid Hinc Hroom.
  unfold _build_stack_nr. unfold node in Hb.
  rewrite (setitem_njit_Ret s inc b) by lia. rewrite bind_Ret.
  rewrite (setitem_njit_Ret sid b b) by lia. rewrite bind_Ret.
  rewrite nr_loop_astray; [done|].
  split; simpl; [done| |lia|by rewrite length_insert..|done|done].
  by apply (cycle_endless b k).
Qed.
End cycles.

(** On receivers with a cycle the recursive builder, called on a node [n] of
    the cycle, never returns: whatever the recursion limit and the arrays,
    the call ends in [RecursionError] or [IndexError]. *)
Theorem build_stack_cycle_raises (R nd delta D w s : list Z) (n inc : Z)
    (k limit : nat) :
  in_range R →
  temp_arrays R = Ret (nd, delta, D, w) →
  node R n → (0 < k)%nat → downstream R k n = n → ¬ base R n →
  _build_stack limit n D delta s inc = Raise RecursionError ∨
  _build_stack limit n D delta s inc = Raise IndexError.
Proof.
  intros HR Hrun Hn Hk Hcyc Hnb.
  pose proof (temp_arrays_adjacency R nd delta D w HR Hrun) as Hadj.
  destruct (build_stack_cycle R delta D HR Hadj k limit n s inc)
    as (e & -> & [->| ->]); auto.
Qed.

Lemma build_stack_cycle_raises_witness :
  _build_stack 5 0 [1; 0] [0; 1; 2] [0; 0] 0 = Raise RecursionError ∨
  _build_stack 5 0 [1; 0] [0; 1; 2] [0; 0] 0 = Raise IndexError.
Proof.
  apply (build_stack_cycle_raises [1; 0] [1; 1] [0; 1; 2] [1; 0] [1; 1]
           [0; 0] 0 0 2 5).
  - repeat constructor; unfold node; simpl; lia.
  - vm_compute. reflexivity.
  - unfold node. simpl. lia.
  - lia.
  - reflexivity.
  - unfold base. vm_compute. discriminate.
Defined.

(** On receivers with a cycle the non-recursive builder, called on a node
    [b] of the cycle with room in [s] for the nodes not yet stamped, never
    leaves its [while] loop: however many turns it is given, it is still
    running. *)
Theorem build_stack_nr_cycle_diverges (R nd delta D w s stack_id : list Z)
    (b inc : Z) (k fuel : nat) :
  in_range R →
  temp_arrays R = Ret (nd, delta, D, w) →
  node R b → (0 < k)%nat → downstream R k b = b → ¬ base R b →
  length s = length R → length stack_id = length R →
  0 ≤ inc →
  inc + Z.of_nat (unmarked R b (<[Z.to_nat b := b]> stack_id))
    < Z.of_nat (length R) →
  _build_stack_nr fuel b R D delta s stack_id inc = Diverge.
Proof.
  intros HR Hrun Hb Hk Hcyc Hnb Hls Hlid Hinc Hroom.
  pose proof (temp_arrays_adjacency R nd delta D w HR Hrun) as Hadj.
  by apply (build_stack_nr_cycle R delta D HR Hadj k).
Qed.

Lemma build_stack_nr_cycle_diverges_witness :
  _build_stack_nr 1000 0 [1; 0] [1; 0] [0; 1; 2] [0; 0] [-1; -1] 0 = Diverge.
Proof.
  apply (build_stack_nr_cycle_diverges [1; 0] [1; 1] [0; 1; 2] [1; 0] [1; 1]
           [0; 0] [-1; -1] 0 0 2 1000).
  - repeat constructor; unfold node; simpl; lia.
  - vm_compute. reflexivity.
  - unfold node. simpl. lia.
  - lia.
  - reflexivity.
  - unfold base. vm_compute. discriminate.
  - reflexivity.
  - reflexivity.
  - lia.
  - vm_compute. reflexivity.
Defined.

(** The driver on receivers with a cycle: when the first entry of
    [baselevels] is on a cycle, the recursive mode raises [RecursionError]
    or [IndexError] and the non-recursive mode never returns. *)
Theorem cycle_modes (R baselevels : list Z) (b : Z) (k limit fuel : nat)
    (out_stack_ids : bool) :
  in_range R →
  node R b → (0 < k)%nat → downstream R k b = b → ¬ base R b →
  (order_nodes_numba limit fuel R (b :: baselevels) "recursive" out_stack_ids
     = Raise RecursionError ∨
   order_nodes_numba limit fuel R (b :: baselevels) "recursive" out_stack_ids
     = Raise IndexError) ∧
  order_nodes_numba limit fuel R (b :: baselevels) "non-recursive"
    out_stack_ids = Diverge.
Proof.
  intros HR Hb Hk Hcyc Hnb. unfold order_nodes_numba.
  destruct (calculate_temp_arrays_adjacency R HR)
    as (nd & delta & D & w & -> & Hadj).
  rewrite !bind_Ret, !for_cons. split.
  - rewrite bstack_step_rec.
    destruct (build_stack_cycle R delta D HR Hadj k limit b
                (zeros (length R)) 0 Hk Hb Hcyc Hnb)
      as (e & -> & [->| ->]); auto.
  - rewrite bstack_step_nr.
    rewrite (build_stack_nr_cycle R delta D HR Hadj k); try done.
    + unfold zeros. by rewrite length_replicate.
    + by rewrite length_replicate.
    + pose proof (unmarked_stamped R b
                    (<[Z.to_nat b := b]> (replicate (length R) (-1))) b Hb)
        as Hlt.
      unfold node in Hb.
      specialize (Hlt ltac:(unfold stamped; apply list_lookup_insert_eq;
                            rewrite length_replicate; lia)).
      lia.
Qed.

Lemma cycle_modes_witness :
  (order_nodes_numba 100 1000 [1; 0; 1] [0] "recursive" true
     = Raise RecursionError ∨
   order_nodes_numba 100 1000 [1; 0; 1] [0] "recursive" true
     = Raise IndexError) ∧
  order_nodes_numba 100 1000 [1; 0; 1] [0] "non-recursive" true = Diverge.
Proof.
  apply (cycle_modes [1; 0; 1] [] 0 2 100 1000 true).
  - repeat constructor; unfold node; simpl; lia.
  - unfold node. simpl. lia.
  - lia.
  - reflexivity.
  - unfold base. vm_compute. discriminate.
Defined.

(** ** More on the non-recursive builder and its driver *)

Section build_stack_nr_full.
Context (R delta D : list Z) (b : Z).
Context (HF : forest R) (Hadj : adjacency R delta D).
Context (Hb : node R b) (Hbase : base R b).

(** The builder on a subtree without any stamp of [b]: sequence, stamps and
    returned position. *)
Lemma build_stack_nr_fresh (s sid : list Z) inc fuel :
  length s = length R → length sid = length R → 0 ≤ inc →
  inc + Z.of_nat (length (preorder R b)) ≤ Z.of_nat (length R) →
  (∀ x, node R x → ¬ stamped b sid x) →
  (length R * length R < fuel)%nat →
  ∃ sid',
    _build_stack_nr fuel b R D delta s sid inc
    = Ret (take (Z.to_nat inc) s ++ preorder R b
             ++ drop (Z.to_nat inc + length (preorder R b)) s,
           sid',
           inc + Z.of_nat (length (preorder R b)) - 1) ∧
    length sid' = length R ∧
    ∀ x, node R x →
      sid' !! Z.to_nat x
      = if decide (root_of R x = b) then Some b else sid !! Z.to_nat x.
Proof.
  intros Hls Hlid Hinc Hroom Hfresh Hfuel.
  destruct (build_stack_nr_spec R delta D b HF Hadj Hb Hbase s sid inc fuel)
    as (sid1 & Hrun); try done.
  { intros x Hx _. apply Hfresh.
    by apply (elem_of_preorder R HF b x Hb) in Hx as [? _]. }
  destruct (build_stack_nr_stamps R delta D b HF Hadj Hb Hbase s sid inc fuel)
    as (s2 & sid2 & inc2 & Hrun2 & _ & Hlid2 & Hsid2); try done.
  { intros x Hx Hsx. by apply Hfresh in Hsx. }
  rewrite Hrun in Hrun2. injection Hrun2 as _ <- _.
  exists sid1. done.
Qed.

(** The builder called again on a root whose donors all carry its stamp
    writes the root and stops after one turn of the loop. *)
Lemma build_stack_nr_again (s sid : list Z) inc fuel :
  0 ≤ inc < Z.of_nat (length s) → length sid = length R →
  (∀ c, c ∈ donors R b → c ≠ b → stamped b sid c) →
  (2 ≤ fuel)%nat →
  _build_stack_nr fuel b R D delta s sid inc
  = Ret (<[Z.to_nat inc := b]> s, <[Z.to_nat b := b]> sid, inc).
Proof.
  intros Hinc Hlid Hall Hfuel. unfold _build_stack_nr.
  pose proof Hb as Hb'. unfold node in Hb'.
  rewrite (setitem_njit_Ret s inc b) by lia. rewrite bind_Ret.
  rewrite (setitem_njit_Ret sid b b) by lia. rewrite bind_Ret.
  destruct fuel as [|[|fuel]]; [lia..|].
  cbn [nr_loop nr_n nr_n_prev].
  rewrite bool_decide_true by lia.
  unfold nr_body. cbn [nr_n nr_s nr_stack_id nr_inc].
  destruct (donor_segment_njit R delta D Hadj b Hb)
    as (lo & hi & -> & -> & Hlo & Hhi & HlenD & Hs).
  rewrite !bind_Ret.
  destruct (scan_donors_spec b D (<[Z.to_nat inc := b]> s)
              (<[Z.to_nat b := b]> sid) inc lo hi Hlo Hhi HlenD)
    as [[_ ->]|(ms1 & m & ms2 & v & Heq & _ & Hv & Hne & _)].
  - rewrite Hs. apply Forall_forall. intros m [Hm _]%elem_of_donors.
    unfold node in Hm. rewrite length_insert. lia.
  - rewrite bind_Ret, (getitem_rcv R b Hb), bind_Ret. rewrite Hbase.
    rewrite bind_Ret. cbn [nr_n nr_n_prev].
    by rewrite bool_decide_false by (intros ?; done).
  - exfalso. rewrite Hs in Heq.
    assert (m ∈ donors R b) as Hm
      by (rewrite Heq, elem_of_app, elem_of_cons; auto).
    destruct (decide (m = b)) as [->|Hmb].
    + rewrite list_lookup_insert_eq in Hv by lia. congruence.
    + pose proof (stamped_insert b sid (Z.to_nat b) m (Hall m Hm Hmb)) as Hst.
      unfold stamped in Hst. congruence.
Qed.
End build_stack_nr_full.

Section driver_nr_stack.
Context (R delta D : list Z) (limit fuel : nat).
Context (HF : forest R) (Hadj : adjacency R delta D).
Context (Hfuel : (length R * length R < fuel)%nat).

(** The loop of the driver in non-recursive mode over distinct roots: every
    call writes from position 0. *)
Lemma driver_nr_stack_loop (roots seen s sid : list Z) inc :
  Forall (λ b, node R b ∧ base R b) roots →
  NoDup (seen ++ roots) →
  length s = length R → length sid = length R →
  (∀ x, node R x →
     sid !! Z.to_nat x
     = Some (if decide (root_of R x ∈ seen) then root_of R x else -1)) →
  ∃ sid' inc',
    for_ roots (bstack_step limit fuel "non-recursive" R D delta)
      (s, sid, inc)
    = Ret (foldl (λ s b, preorder R b ++ drop (length (preorder R b)) s)
             s roots, sid', inc').
Proof.
  intros Hroots. revert seen s sid inc.
  induction Hroots as [|b roots [Hb Hbase] _ IH];
    intros seen s sid inc Hnd Hls Hlid Hsid.
  { by exists sid, inc. }
  assert (b ∉ seen) as Hnew.
  { apply NoDup_app in Hnd as (_ & Hdisj & _). intros Hin.
    apply (Hdisj b Hin). by left. }
  pose proof (length_preorder_aux R HF (length R) b Hb ltac:(lia)) as Hp.
  fold (preorder R b) in Hp.
  rewrite for_cons, bstack_step_nr.
  destruct (build_stack_nr_fresh R delta D b HF Hadj Hb Hbase s sid 0 fuel)
    as (sid1 & -> & Hlid1 & Hsid1); try done; [lia| |].
  { intros x Hx Hsx. unfold stamped in Hsx. rewrite (Hsid x Hx) in Hsx.
    unfold node in Hb. injection Hsx as Hsx.
    destruct (decide (root_of R x ∈ seen)) as [Hin|Hin]; [|lia].
    by rewrite Hsx in Hin. }
  rewrite !bind_Ret. simpl.
  destruct (IH (seen ++ [b])
              (preorder R b ++ drop (length (preorder R b)) s) sid1
              (0 + Z.of_nat (length (preorder R b)) - 1 + 1))
    as (sid' & inc' & Hrun).
  - by rewrite <- (assoc_L (++)).
  - rewrite length_app, length_drop. lia.
  - done.
  - intros x Hx. rewrite (Hsid1 x Hx), (Hsid x Hx).
    destruct (decide (root_of R x = b)) as [Hr|Hr].
    + rewrite decide_True; [by rewrite Hr|].
      rewrite elem_of_app, list_elem_of_singleton. by right.
    + f_equal. destruct (decide (root_of R x ∈ seen)) as [Hin|Hin].
      * rewrite decide_True; [done|]. rewrite elem_of_app. by left.
      * rewrite decide_False; [done|].
        rewrite elem_of_app, list_elem_of_singleton. tauto.
  - exists sid', inc'. done.
Qed.
End driver_nr_stack.

(** On a well-formed forest the non-recursive builder, called on a root [b]
    none of whose stamps is in [stack_id] yet, writes the preorder sequence
    of the subtree of [b] into [s] from position [inc], returns the position
    of the last node written, stamps exactly the nodes draining to [b] and
    leaves the other entries of [stack_id] as they were. *)
Theorem build_stack_nr_subtree (R nd delta D w s stack_id : list Z)
    (b inc : Z) (fuel : nat) :
  forest R →
  temp_arrays R = Ret (nd, delta, D, w) →
  node R b → base R b →
  length s = length R → length stack_id = length R →
  0 ≤ inc →
  inc + Z.of_nat (length (preorder R b)) ≤ Z.of_nat (length R) →
  (∀ x, node R x → ¬ stamped b stack_id x) →
  (length R * length R < fuel)%nat →
  ∃ stack_id',
    _build_stack_nr fuel b R D delta s stack_id inc
    = Ret (take (Z.to_nat inc) s ++ preorder R b
             ++ drop (Z.to_nat inc + length (preorder R b)) s,
           stack_id',
           inc + Z.of_nat (length (preorder R b)) - 1) ∧
    length stack_id' = length R ∧
    ∀ x, node R x →
      stack_id' !! Z.to_nat x
      = if decide (root_of R x = b) then Some b else stack_id !! Z.to_nat x.
Proof.
  intros HF Hrun Hb Hbase Hls Hlid Hinc Hroom Hfresh Hfuel.
  pose proof (temp_arrays_adjacency R nd delta D w (proj1 HF) Hrun) as Hadj.
  by apply (build_stack_nr_fresh R delta D b HF Hadj Hb Hbase).
Qed.

Lemma build_stack_nr_subtree_witness :
  ∃ stack_id',
    _build_stack_nr 50 3 [0; 0; 0; 3; 3; 5] [0; 1; 2; 3; 4; 5]
      [0; 3; 3; 3; 5; 5; 6] [7; 7; 7; 7; 7; 7] [0; 0; 0; -1; -1; -1] 3
    = Ret (take (Z.to_nat 3) [7; 7; 7; 7; 7; 7]
             ++ preorder [0; 0; 0; 3; 3; 5] 3
             ++ drop (Z.to_nat 3 + length (preorder [0; 0; 0; 3; 3; 5] 3))
                  [7; 7; 7; 7; 7; 7],
           stack_id',
           3 + Z.of_nat (length (preorder [0; 0; 0; 3; 3; 5] 3)) - 1) ∧
    length stack_id' = 6%nat ∧
    ∀ x, node [0; 0; 0; 3; 3; 5] x →
      stack_id' !! Z.to_nat x
      = if decide (root_of [0; 0; 0; 3; 3; 5] x = 3) then Some 3
        else [0; 0; 0; -1; -1; -1] !! Z.to_nat x.
Proof.
  apply (build_stack_nr_subtree [0; 0; 0; 3; 3; 5] [3; 0; 0; 2; 0; 1]
           [0; 3; 3; 3; 5; 5; 6] [0; 1; 2; 3; 4; 5] [3; 0; 0; 2; 0; 1]
           [7; 7; 7; 7; 7; 7] [0; 0; 0; -1; -1; -1] 3 3 50).
  - apply forestb_forest. vm_compute. reflexivity.
  - vm_compute. reflexivity.
  - unfold node. simpl. lia.
  - reflexivity.
  - reflexivity.
  - reflexivity.
  - lia.
  - vm_compute. discriminate.
  - intros x Hx. unfold stamped, node in *. simpl in Hx.
    assert (x = 0 ∨ x = 1 ∨ x = 2 ∨ x = 3 ∨ x = 4 ∨ x = 5) as Hc by lia.
    destruct Hc as [->|[->|[->|[->|[->| ->]]]]]; vm_compute; congruence.
  - simpl. lia.
Defined.

(** The stamps are never reset: the non-recursive builder called on a root
    [b] whose other donors already carry the stamp of [b] (as after an
    earlier call on [b]) writes [b] at position [inc], returns [inc] and
    visits no other node. *)
Theorem build_stack_nr_repeated (R nd delta D w s stack_id : list Z)
    (b inc : Z) (fuel : nat) :
  in_range R →
  temp_arrays R = Ret (nd, delta, D, w) →
  node R b → base R b →
  0 ≤ inc < Z.of_nat (length s) → length stack_id = length R →
  (∀ c, c ∈ donors R b → c ≠ b → stamped b stack_id c) →
  (2 ≤ fuel)%nat →
  _build_stack_nr fuel b R D delta s stack_id inc
  = Ret (<[Z.to_nat inc := b]> s, <[Z.to_nat b := b]> stack_id, inc).
Proof.
  intros HR Hrun Hb Hbase Hinc Hlid Hall Hfuel.
  pose proof (temp_arrays_adjacency R nd delta D w HR Hrun) as Hadj.
  by apply (build_stack_nr_again R delta D b Hadj Hb Hbase).
Qed.

Lemma build_stack_nr_repeated_witness :
  _build_stack_nr 2 0 [0; 0; 0; 3; 3; 5] [0; 1; 2; 3; 4; 5]
    [0; 3; 3; 3; 5; 5; 6] [0; 1; 2; 9; 9; 9] [0; 0; 0; -1; -1; -1] 4
  = Ret (<[Z.to_nat 4 := 0]> [0; 1; 2; 9; 9; 9],
         <[Z.to_nat 0 := 0]> [0; 0; 0; -1; -1; -1], 4).
Proof.
  apply (build_stack_nr_repeated [0; 0; 0; 3; 3; 5] [3; 0; 0; 2; 0; 1]
           [0; 3; 3; 3; 5; 5; 6] [0; 1; 2; 3; 4; 5] [3; 0; 0; 2; 0; 1]
           [0; 1; 2; 9; 9; 9] [0; 0; 0; -1; -1; -1] 0 4 2).
  - repeat constructor; unfold node; simpl; lia.
  - vm_compute. reflexivity.
  - unfold node. simpl. lia.
  - reflexivity.
  - simpl. lia.
  - reflexivity.
  - intros c Hc Hne. vm_compute in Hc.
    apply elem_of_cons in Hc as [->|Hc]; [done|].
    apply elem_of_cons in Hc as [->|Hc]; [reflexivity|].
    apply elem_of_cons in Hc as [->|Hc]; [reflexivity|].
    by apply not_elem_of_nil in Hc.
  - lia.
Defined.

(** What the non-recursive mode of the driver returns on a well-formed
    forest for distinct roots: every root's preorder sequence is written
    from position 0, over the sequence of the root before it, so the stack
    begins with the sequence of the last root, followed by what is left of
    the longer sequences written earlier. *)
Theorem nr_mode_overwrites (R baselevels : list Z) (limit fuel : nat) :
  forest R →
  Forall (λ b, node R b ∧ base R b) baselevels →
  NoDup baselevels →
  (length R * length R < fuel)%nat →
  order_nodes_numba limit fuel R baselevels "non-recursive" false
  = Ret (Stack (foldl (λ s b, preorder R b ++ drop (length (preorder R b)) s)
                  (zeros (length R)) baselevels)).
Proof.
  intros HF Hroots Hnd Hfuel. unfold order_nodes_numba.
  destruct (calculate_temp_arrays_adjacency R (proj1 HF))
    as (nd & delta & D & w & -> & Hadj).
  rewrite bind_Ret.
  destruct (driver_nr_stack_loop R delta D limit fuel HF Hadj Hfuel
              baselevels [] (zeros (length R)) (replicate (length R) (-1)) 0
              Hroots)
    as (sid & inc & ->).
  - done.
  - unfold zeros. by rewrite length_replicate.
  - by rewrite length_replicate.
  - intros x Hx. rewrite decide_False by (by apply not_elem_of_nil).
    apply lookup_replicate_2. unfold node in Hx. lia.
  - done.
Qed.

Lemma nr_mode_overwrites_witness :
  order_nodes_numba 0 50 [0; 0; 0; 3; 3; 5] [0; 3] "non-recursive" false
  = Ret (Stack (foldl (λ s b, preorder [0; 0; 0; 3; 3; 5] b
                                ++ drop (length (preorder [0; 0; 0; 3; 3; 5] b)) s)
                  (zeros 6) [0; 3])).
Proof.
  apply (nr_mode_overwrites [0; 0; 0; 3; 3; 5] [0; 3] 0 50).
  - apply forestb_forest. vm_compute. reflexivity.
  - constructor; [by split|]. constructor; [by split|constructor].
  - apply NoDup_cons. split; [|apply NoDup_singleton].
    rewrite list_elem_of_singleton. lia.
  - simpl. lia.
Defined.

(** A [mode] other than the two known strings leaves [bstack_func] unbound:
    on valid receivers the driver raises [NameError] at the first root, and
    without roots it returns the freshly allocated arrays. *)
Theorem unknown_mode (R baselevels : list Z) (b : Z) (mode : string)
    (limit fuel : nat) (out_stack_ids : bool) :
  in_range R →
  mode ≠ "recursive" → mode ≠ "non-recursive" →
  order_nodes_numba limit fuel R (b :: baselevels) mode out_stack_ids
    = Raise NameError ∧
  order_nodes_numba limit fuel R [] mode out_stack_ids
    = Ret (if out_stack_ids
           then StackAndIds (zeros (length R)) (replicate (length R) (-1))
           else Stack (zeros (length R))).
Proof.
  intros HR Hm1 Hm2. unfold order_nodes_numba.
  destruct (calculate_temp_arrays_adjacency R HR)
    as (nd & delta & D & w & -> & Hadj).
  rewrite !bind_Ret. split.
  - rewrite for_cons. unfold bstack_step.
    rewrite (bool_decide_false (mode = "recursive")) by done.
    by rewrite (bool_decide_false (mode = "non-recursive")) by done.
  - simpl. rewrite bool_decide_true by done. by destruct out_stack_ids.
Qed.

Lemma unknown_mode_witness :
  order_nodes_numba 10 10 [0; 0] [0] "iterative" true = Raise NameError ∧
  order_nodes_numba 10 10 [0; 0] [] "iterative" true
    = Ret (StackAndIds (zeros 2) (replicate 2 (-1))).
Proof.
  apply (unknown_mode [0; 0] [] 0 "iterative" 10 10 true).
  - repeat constructor; unfold node; simpl; lia.
  - discriminate.
  - discriminate.
Defined.

(** ** The temporary arrays in closed form *)

(** The invariant rule of a [for] loop that is known to end. *)
Lemma for_inv_ret {St} (I : nat → St → Prop) (body : Z → St → outcome St)
    l st st' :
  for_ l body st = Ret st' →
  I 0%nat st →
  (∀ k i st st1, l !! k = Some i → I k st → body i st = Ret st1 →
     I (S k) st1) →
  I (length l) st'.
Proof.
  revert I st. induction l as [|i l IH]; intros I st Hrun H0 Hstep.
  { simpl in Hrun. by injection Hrun as <-. }
  rewrite for_cons in Hrun.
  destruct (body i st) as [st1| | |] eqn:Hbody; [|done..].
  rewrite bind_Ret in Hrun.
  apply (IH (λ k, I (S k)) st1 Hrun).
  - by apply (Hstep 0%nat i st st1).
  - intros k j st2 st3 Hj. by apply (Hstep (S k)).
Qed.

(** The counters [w] after the scatter pass. *)
Lemma scatter_pass_counters (R delta D w : list Z) :
  in_range R →
  scatter_pass R delta (zeros (length R)) (zeros (length R)) = Ret (D, w) →
  length w = length R ∧
  ∀ v, node R v → w !! Z.to_nat v = Some (occ v R).
Proof.
  intros HR Hrun. unfold scatter_pass, range in Hrun.
  set (I := λ (k : nat) (st : list Z * list Z),
         length st.2 = length R ∧
         ∀ v, node R v → st.2 !! Z.to_nat v = Some (occ v (take k R))).
  enough (I (length (seqZ 0 (Z.of_nat (length R) - 0))) (D, w)) as Hfin.
  { unfold I in Hfin. simpl in Hfin.
    rewrite length_seqZ, firstn_all2 in Hfin by lia. exact Hfin. }
  apply (for_inv_ret I _ _ _ _ Hrun); unfold I; simpl.
  - split; [apply length_replicate|].
    intros v [Hv0 Hv1]. rewrite take_0. apply lookup_zeros. lia.
  - intros k i [D0 w0] [D1 w1] Hi [Hlen Hocc]. simpl in Hlen, Hocc.
    apply lookup_seqZ in Hi as [-> Hk]. rewrite Z.add_0_l.
    assert (is_Some (R !! k)) as [x Hx] by (apply lookup_lt_is_Some; lia).
    pose proof (in_range_lookup _ _ _ HR Hx) as Hnx.
    rewrite (getitem_njit_Ret R (Z.of_nat k) x); [|lia|by rewrite Nat2Z.id].
    rewrite bind_Ret.
    destruct (getitem_njit delta x) as [d| | |]; [|done..]. rewrite bind_Ret.
    rewrite (getitem_njit_Ret w0 x _ (proj1 Hnx) (Hocc x Hnx)), bind_Ret.
    destruct (setitem_njit D0 _ _) as [D2| | |]; [|done..]. rewrite !bind_Ret.
    rewrite setitem_njit_Ret by (unfold node in Hnx; simpl in Hlen; lia).
    rewrite bind_Ret. intros [= <- <-]. simpl.
    split; [by rewrite length_insert|].
    intros v Hv. rewrite (occ_take_S _ _ _ _ Hx).
    destruct (decide (x = v)) as [->|Hne].
    + rewrite list_lookup_insert_eq; [done|]. unfold node in Hv; lia.
    + rewrite list_lookup_insert_ne.
      * rewrite Hocc by done. f_equal. lia.
      * unfold node in *. lia.
Qed.

(** Two arrays of the same length with the same entries. *)
Lemma list_eq_lookup_Z (a b : list Z) (f : Z → Z) :
  length a = length b →
  (∀ v, 0 ≤ v < Z.of_nat (length b) → a !! Z.to_nat v = Some (f v)) →
  (∀ v, 0 ≤ v < Z.of_nat (length b) → b !! Z.to_nat v = Some (f v)) →
  a = b.
Proof.
  intros Hlen Ha Hb. apply list_eq. intros k.
  destruct (decide (k < length b)%nat) as [Hk|Hk].
  - pose proof (Ha (Z.of_nat k) ltac:(lia)) as Hak.
    pose proof (Hb (Z.of_nat k) ltac:(lia)) as Hbk.
    rewrite Nat2Z.id in Hak, Hbk. congruence.
  - rewrite !lookup_ge_None_2 by lia. done.
Qed.

(** [D] is the donor lists of the nodes one after the other. *)
Lemma donors_concat (R D : list Z) :
  in_range R → length D = length R →
  (∀ v, node R v → slice D (below v R) (below (v + 1) R) = donors R v) →
  D = seqZ 0 (Z.of_nat (length R)) ≫= donors R.
Proof.
  intros HR HlenD HD.
  assert (∀ k : nat, (k ≤ length R)%nat →
            take (Z.to_nat (below (Z.of_nat k) R)) D
            = seqZ 0 (Z.of_nat k) ≫= donors R) as Hk.
  { induction k as [|k IH]; intros Hle.
    { change (Z.of_nat 0) with 0. by rewrite (below_zero R HR). }
    replace (Z.of_nat (S k)) with (Z.of_nat k + 1) by lia.
    rewrite seqZ_app by lia. rewrite bind_app, <- IH by lia.
    rewrite Z.add_0_l. change (seqZ (Z.of_nat k) 1) with [Z.of_nat k].
    simpl. rewrite app_nil_r.
    rewrite <- (HD (Z.of_nat k)) by (unfold node; lia).
    unfold slice. rewrite take_take_drop. f_equal.
    pose proof (below_nonneg (Z.of_nat k) R).
    pose proof (below_mono (Z.of_nat k) (Z.of_nat k + 1) R ltac:(lia)).
    lia. }
  rewrite <- (Hk (length R)) by done.
  rewrite (below_length R HR), Nat2Z.id, <- HlenD. by rewrite firstn_all.
Qed.

(** Every node is a donor of exactly one node. *)
Lemma all_donors_permutation (R : list Z) :
  in_range R →
  seqZ 0 (Z.of_nat (length R)) ≫= donors R ≡ₚ seqZ 0 (Z.of_nat (length R)).
Proof.
  intros HR. apply NoDup_Permutation.
  - apply NoDup_bind.
    + intros v1 v2 x _ _ [_ H1]%elem_of_donors [_ H2]%elem_of_donors.
      congruence.
    + intros v _. apply NoDup_filter, NoDup_seqZ.
    + apply NoDup_seqZ.
  - apply NoDup_seqZ.
  - intros x. rewrite list_elem_of_bind. split.
    + intros (v & [Hx _]%elem_of_donors & _).
      apply elem_of_seqZ. unfold node in Hx. lia.
    + intros Hx%elem_of_seqZ. exists (rcv R x).
      assert (node R x) as Hnx by (unfold node; lia).
      split; [by apply elem_of_donors|].
      pose proof (rcv_node R HR x Hnx) as Hr.
      apply elem_of_seqZ. unfold node in Hr. lia.
Qed.

(** The four arrays after the adjacency builder has run on a receiver array
    with all values in [[0, N)]: [nd[v]] is the number of donors of [v],
    [delta[j]] the number of nodes whose receiver is below [j], [D] the
    donor lists of nodes 0, 1, ... one after the other, so that every node
    occurs in [D] exactly once, and the counters [w] end equal to [nd]. *)
Theorem temp_arrays_closed_form (R nd delta D w : list Z) :
  in_range R →
  temp_arrays R = Ret (nd, delta, D, w) →
  (∀ v, node R v →
     nd !! Z.to_nat v = Some (Z.of_nat (length (donors R v)))) ∧
  (∀ j, 0 ≤ j ≤ Z.of_nat (length R) →
     delta !! Z.to_nat j = Some (below j R)) ∧
  D = seqZ 0 (Z.of_nat (length R)) ≫= donors R ∧
  D ≡ₚ seqZ 0 (Z.of_nat (length R)) ∧
  w = nd.
Proof.
  intros HR Hrun. unfold temp_arrays, _calculate_temp_arrays in Hrun.
  destruct (histogram_pass_spec R HR) as (nd' & Hh & Hlen & Hnd).
  rewrite Hh, bind_Ret in Hrun.
  destruct (delta_pass_spec R nd' HR Hlen Hnd)
    as (delta' & Hd & Hlend & Hdelta).
  rewrite Hd, bind_Ret in Hrun.
  destruct (scatter_pass_spec R delta' HR Hdelta)
    as (D' & w' & Hs & HlenD & HD).
  pose proof (scatter_pass_counters R delta' D' w' HR Hs) as [Hlenw Hw].
  rewrite Hs, bind_Ret in Hrun. injection Hrun as <- <- <- <-.
  pose proof (donors_concat R D' HR HlenD HD) as HDeq.
  split; [|split; [done|split; [done|split]]].
  - intros v Hv. rewrite (Hnd v Hv). by rewrite length_donors.
  - rewrite HDeq at 1. by apply all_donors_permutation.
  - apply (list_eq_lookup_Z w' nd' (λ v, occ v R)); [lia|..].
    + intros v Hv. apply Hw. unfold node. lia.
    + intros v Hv. apply Hnd. unfold node. lia.
Qed.

Lemma temp_arrays_closed_form_witness :
  (∀ v, node example_receivers v →
     [0; 2; 0; 0; 4; 1; 2; 1; 0; 0] !! Z.to_nat v
     = Some (Z.of_nat (length (donors example_receivers v)))) ∧
  (∀ j, 0 ≤ j ≤ Z.of_nat (length example_receivers) →
     [0; 0; 2; 2; 2; 6; 7; 9; 10; 10; 10] !! Z.to_nat j
     = Some (below j example_receivers)) ∧
  [0; 2; 1; 4; 5; 7; 6; 3; 8; 9]
    = seqZ 0 (Z.of_nat (length example_receivers)) ≫= donors example_receivers ∧
  [0; 2; 1; 4; 5; 7; 6; 3; 8; 9]
    ≡ₚ seqZ 0 (Z.of_nat (length example_receivers)) ∧
  [0; 2; 0; 0; 4; 1; 2; 1; 0; 0] = [0; 2; 0; 0; 4; 1; 2; 1; 0; 0].
Proof.
  apply (temp_arrays_closed_form example_receivers
    [0; 2; 0; 0; 4; 1; 2; 1; 0; 0] [0; 0; 2; 2; 2; 6; 7; 9; 10; 10; 10]
    [0; 2; 1; 4; 5; 7; 6; 3; 8; 9] [0; 2; 0; 0; 4; 1; 2; 1; 0; 0]).
  - repeat constructor; unfold node; simpl; lia.
  - vm_compute. reflexivity.
Defined.

(** ** Running out of room in [s] *)

Lemma setitem_outside a i v :
  ¬ (- Z.of_nat (length a) ≤ i < Z.of_nat (length a)) →
  setitem a i v = Raise IndexError.
Proof.
  intros Hi. unfold setitem. apply index_None in Hi. by rewrite Hi.
Qed.

Section overflow.
Context (R delta D : list Z) (HF : forest R) (Hadj : adjacency R delta D).

(** The loop of the builder over donors whose sequences do not all fit:
    the call on the first donor without room fails. *)
Lemma build_stack_children_overflow fuel n limit ms pre rest :
  (∀ c pre rest, c ∈ children R n →
     (length pre + length rest = length R)%nat →
     (length rest < length (preorder_aux R fuel c))%nat →
     _build_stack limit c D delta (pre ++ rest) (Z.of_nat (length pre))
     = Raise IndexError) →
  Forall (λ c, c = n ∨
               (c ∈ children R n ∧ (height_aux R fuel c ≤ limit)%nat)) ms →
  (length R ≤ S fuel + depth R n)%nat →
  (length pre + length rest = length R)%nat →
  (length rest
     < length (filter (λ m, m ≠ n) ms ≫= preorder_aux R fuel))%nat →
  for_ ms (λ m (st : list Z * Z),
             if bool_decide (m ≠ n)
             then _build_stack limit m D delta st.1 (st.2 + 1)
             else Ret st)
    (pre ++ rest, Z.of_nat (length pre) - 1)
  = Raise IndexError.
Proof.
  intros Hchild Hms Hfuel. revert pre rest.
  induction Hms as [|c ms Hc _ IH]; intros pre rest Hlen Hfit.
  { simpl in Hfit. lia. }
  rewrite filter_cons in Hfit. rewrite for_cons. cbn [fst snd].
  destruct (decide (c ≠ n)) as [Hne|Heq].
  - destruct Hc as [|[Hc Hh]]; [done|].
    rewrite bind_cons, length_app in Hfit.
    rewrite bool_decide_true by done.
    replace (Z.of_nat (length pre) - 1 + 1)
      with (Z.of_nat (length pre)) by lia.
    destruct (decide (length (preorder_aux R fuel c) ≤ length rest)%nat)
      as [Hroom|Hroom].
    + rewrite (build_stack_spec R delta D HF Hadj fuel c limit pre rest);
        [|by eapply child_node|rewrite (child_depth R HF n c Hc); lia
         |done|done|done].
      rewrite bind_Ret.
      set (P := preorder_aux R fuel c) in *.
      replace (Z.of_nat (length pre) + Z.of_nat (length P) - 1)
        with (Z.of_nat (length (pre ++ P)) - 1)
        by (rewrite length_app; lia).
      rewrite (assoc_L (++) pre P).
      apply IH; [rewrite length_app, length_drop; lia
                |rewrite length_drop; lia].
    + rewrite Hchild; [done..|lia].
  - rewrite bool_decide_false by done. rewrite bind_Ret. by apply IH.
Qed.

(** Without room for the whole subtree the builder runs over the end of
    [s]. *)
Lemma build_stack_overflow fuel n limit pre rest :
  node R n → (length R ≤ fuel + depth R n)%nat →
  (height_aux R fuel n ≤ limit)%nat →
  (length pre + length rest = length R)%nat →
  (length rest < length (preorder_aux R fuel n))%nat →
  _build_stack limit n D delta (pre ++ rest) (Z.of_nat (length pre))
  = Raise IndexError.
Proof.
  revert n limit pre rest.
  induction fuel as [|fuel IH]; intros n limit pre rest Hn Hfuel Hlim Hlen Hfit.
  { pose proof (depth_lt R HF n Hn). lia. }
  destruct limit as [|limit]; [simpl in Hlim; lia|].
  cbn [_build_stack height_aux preorder_aux] in *.
  destruct (decide (0 < length rest)%nat) as [Hrest|Hrest].
  2:{ rewrite setitem_outside; [done|]. rewrite length_app. lia. }
  rewrite setitem_app by done. rewrite bind_Ret.
  destruct (donor_segment R delta D Hadj n Hn)
    as (lo & hi & -> & -> & Hlo & Hhi & HlenD & Hs).
  rewrite !bind_Ret.
  rewrite (for_ext _ (λ i st, m ← getitem D i;
                        (λ m (st : list Z * Z),
                           if bool_decide (m ≠ n)
                           then _build_stack limit m D delta st.1 (st.2 + 1)
                           else Ret st) m st));
    [|by intros i [s inc]].
  rewrite for_range_slice by done. rewrite Hs.
  replace (Z.of_nat (length pre)) with (Z.of_nat (length (pre ++ [n])) - 1)
    by (rewrite length_app; simpl; lia).
  replace (pre ++ n :: drop 1 rest) with ((pre ++ [n]) ++ drop 1 rest)
    by (by rewrite <- (assoc_L (++))).
  assert (∀ c, c ∈ children R n → (height_aux R fuel c ≤ limit)%nat) as Hh.
  { intros c Hc. etrans; [|apply le_S_n, Hlim]. apply max_list_elem_of_le.
    by apply list_elem_of_fmap_2. }
  apply (build_stack_children_overflow fuel n limit (donors R n)).
  - intros c pre' rest' Hc Hlen' Hfit'.
    apply IH; [by eapply child_node|rewrite (child_depth R HF n c Hc); lia
              |by apply Hh|done|done].
  - apply Forall_forall. intros c Hc.
    destruct (donor_cases R n c Hc) as [->|Hcc]; [by left|right].
    split; [done|by apply Hh].
  - done.
  - rewrite length_app, length_drop. simpl. lia.
  - rewrite length_drop. simpl in Hfit. unfold children in Hfit. lia.
Qed.
End overflow.

(** On a well-formed forest the recursive builder, allowed enough nested
    calls but started at a position [inc] too close to the end of [s] for
    the subtree of [b], raises [IndexError]. *)
Theorem build_stack_no_room (R nd delta D w s : list Z) (b inc : Z)
    (limit : nat) :
  forest R →
  temp_arrays R = Ret (nd, delta, D, w) →
  node R b →
  length s = length R →
  0 ≤ inc ≤ Z.of_nat (length R) →
  (height R b ≤ limit)%nat →
  Z.of_nat (length R) < inc + Z.of_nat (length (preorder R b)) →
  _build_stack limit b D delta s inc = Raise IndexError.
Proof.
  intros HF Hrun Hb Hlen Hinc Hlim Hfit.
  pose proof (temp_arrays_adjacency R nd delta D w (proj1 HF) Hrun) as Hadj.
  pose proof (build_stack_overflow R delta D HF Hadj (length R) b limit
                (take (Z.to_nat inc) s) (drop (Z.to_nat inc) s)) as Hover.
  rewrite take_drop, length_take, length_drop in Hover.
  replace (Z.of_nat (Z.to_nat inc `min` length s)) with inc in Hover by lia.
  apply Hover; try done; unfold preorder in Hfit; lia.
Qed.

Lemma build_stack_no_room_witness :
  _build_stack 4 4 [0; 2; 1; 4; 5; 7; 6; 3; 8; 9]
    [0; 0; 2; 2; 2; 6; 7; 9; 10; 10; 10] (zeros 10) 1 = Raise IndexError.
Proof.
  apply (build_stack_no_room example_receivers
    [0; 2; 0; 0; 4; 1; 2; 1; 0; 0] [0; 0; 2; 2; 2; 6; 7; 9; 10; 10; 10]
    [0; 2; 1; 4; 5; 7; 6; 3; 8; 9] [0; 2; 0; 0; 4; 1; 2; 1; 0; 0]
    (zeros 10) 4 1 4).
  - apply forestb_forest. vm_compute. reflexivity.
  - vm_compute. reflexivity.
  - unfold node. simpl. lia.
  - reflexivity.
  - simpl. lia.
  - vm_compute. lia.
  - vm_compute. reflexivity.
Defined.

(** In recursive mode nothing keeps the sequences of the roots within [s]:
    when the sequences of the roots up to and including some root [b] hold
    more than [N] nodes (a root listed twice, or a node listed together with
    a node downstream of it), the driver raises [IndexError]. *)
Theorem recursive_mode_overflow (R roots baselevels : list Z) (b : Z)
    (limit fuel : nat) (out_stack_ids : bool) :
  forest R →
  Forall (λ b, node R b ∧ (height R b ≤ limit)%nat) (roots ++ [b]) →
  (length (roots ≫= preorder R) ≤ length R)%nat →
  (length R < length ((roots ++ [b]) ≫= preorder R))%nat →
  order_nodes_numba limit fuel R (roots ++ b :: baselevels) "recursive"
    out_stack_ids = Raise IndexError.
Proof.
  intros HF Hroots Hfit Hover. unfold order_nodes_numba.
  destruct (calculate_temp_arrays_adjacency R (proj1 HF))
    as (nd & delta & D & w & -> & Hadj).
  rewrite bind_Ret.
  apply Forall_app in Hroots as [Hroots Hb].
  apply Forall_singleton in Hb as [Hb Hlim].
  pose proof (driver_rec_loop R delta D limit fuel HF Hadj roots []
                (zeros (length R)) (replicate (length R) (-1)) Hroots)
    as Hloop.
  unfold zeros in Hloop. rewrite length_replicate in Hloop.
  specialize (Hloop eq_refl Hfit). simpl in Hloop.
  change (Z.of_nat 0) with 0 in Hloop.
  rewrite for_app. unfold zeros. rewrite Hloop, bind_Ret.
  rewrite for_cons, bstack_step_rec.
  set (P := roots ≫= preorder R) in *.
  rewrite bind_app, length_app in Hover. simpl in Hover.
  rewrite app_nil_r in Hover. fold P in Hover.
  replace (0 + Z.of_nat (length P)) with (Z.of_nat (length P)) by lia.
  rewrite (build_stack_overflow R delta D HF Hadj (length R) b limit P
             (drop (length P) (replicate (length R) 0))); try done.
  - lia.
  - rewrite length_drop, length_replicate. lia.
  - rewrite length_drop, length_replicate. unfold preorder in Hover. lia.
Qed.

Lemma recursive_mode_overflow_witness :
  order_nodes_numba 4 0 example_receivers ([4] ++ 4 :: []) "recursive" false
  = Raise IndexError.
Proof.
  apply (recursive_mode_overflow example_receivers [4] [] 4 4 0 false).
  - apply forestb_forest. vm_compute. reflexivity.
  - constructor; [split; [unfold node; simpl; lia|vm_compute; lia]|].
    constructor; [split; [unfold node; simpl; lia|vm_compute; lia]|].
    constructor.
  - vm_compute. lia.
  - vm_compute. lia.
Defined.
